(** * OSM Sendai tile converter (tools/shp_to_tiles.py): a shallow embedding

    - Python floats are IEEE binary64 values, modelled by Rocq's primitive
      floats; Python ints are [Z]; [bytes] are lists of [byte].
    - A raised exception (ZeroDivisionError, ValueError, OverflowError,
      IndexError, struct.error) is [None] in the option monad; a generator
      yields a list and tells how it stopped.
    - The functions of libm and of the text codecs are not code of the
      repository: [math.hypot], [math.log], [math.tan], [float] on strings
      and [bytes.decode] are variables of the sections that use them, and
      the closed examples are evaluated with the stand-ins defined here.
    - Attribute text is modelled on the ASCII range.
    - The aggregator's files are modelled with their text; [main] is
      modelled down to the fragments it hands to the aggregator, on an
      output directory that is empty at the start. *)

From Stdlib Require Import ZArith Floats.
From Stdlib Require DecimalString DecimalPos DecimalZ.
From Stdlib.Strings Require Import Byte Ascii String.
From stdpp Require Import base option list gmap strings sorting.

Set Warnings "-inexact-float".
Set Default Proof Using "Type".

Open Scope Z_scope.

(** ** Python's float operations *)

Module Py.

(** [a / b] on floats: ZeroDivisionError when the divisor is zero. *)
Definition truediv (a b : float) : option float :=
  if PrimFloat.eqb b 0%float then None else Some (PrimFloat.div a b).

(** The integer value of a finite float, rounded towards minus infinity
    ([floor_mode = true]) or towards zero. *)
Definition to_Z (floor_mode : bool) (x : float) : option Z :=
  match Prim2SF x with
  | S754_zero _ => Some 0
  | S754_finite s m e =>
      let n := if s then Z.neg m else Z.pos m in
      Some (if 0 <=? e then Z.shiftl n e
            else if floor_mode then Z.div n (2 ^ (- e))
                 else Z.quot n (2 ^ (- e)))
  | S754_infinity _ => None
  | S754_nan => None
  end.

(** [math.floor(x)]: raises on NaN and on the infinities. *)
Definition floor (x : float) : option Z := to_Z true x.

(** [int(x)]: truncation, raises on NaN and on the infinities. *)
Definition int (x : float) : option Z := to_Z false x.

(** [float(n)] for an int [n], rounded to nearest even (an infinity
    beyond the range of the floats, where [float_of_int] raises). *)
Definition of_int (n : Z) : float :=
  SF2Prim (binary_normalize prec emax n 0 false).

(** [a > b], [a < b], [a >= b] on floats (false when either is NaN). *)
Definition gt (a b : float) : bool := PrimFloat.ltb b a.
Definition lt (a b : float) : bool := PrimFloat.ltb a b.
Definition ge (a b : float) : bool := PrimFloat.leb b a.

(** [max(a, b)] and [min(a, b)] of two floats, as the builtins pick. *)
Definition max (a b : float) : float := if gt b a then b else a.
Definition min (a b : float) : float := if lt b a then b else a.

(** [float(n)] where it may raise: OverflowError when [n] is too large. *)
Definition float_of_int (n : Z) : option float :=
  let f := of_int n in
  if PrimFloat.is_infinity f then None else Some f.

(** [sum(xs)] of floats, starting from the int 0, by plain additions from
    left to right (CPython 3.12 and later compensate the rounding errors
    of the additions; the sums evaluated in this file have none). *)
Definition sum (xs : list float) : float :=
  foldl PrimFloat.add 0%float xs.

End Py.

(** A stand-in for [math.hypot] on closed examples: the correctly rounded
    square root of the sum of squares. *)
Definition hypot_sqrt (x y : float) : float :=
  PrimFloat.sqrt (PrimFloat.add (PrimFloat.mul x x) (PrimFloat.mul y y)).

Abbreviation Point := (float * float)%type.
Abbreviation Tile := (Z * Z)%type.

(** [p == q] on two coordinate tuples. *)
Definition point_eqb (p q : Point) : bool :=
  PrimFloat.eqb p.1 q.1 && PrimFloat.eqb p.2 q.2.

(** ** Tiles *)

Definition tile_xy (x y tile_size : float) : option Tile :=
  qx ← Py.truediv x tile_size;
  tx ← Py.floor qx;
  qy ← Py.truediv y tile_size;
  ty ← Py.floor qy;
  Some (tx, ty).

Definition tile_center (tx ty : Z) (tile_size : float) : Point :=
  ((Py.of_int tx * tile_size + tile_size * 0.5)%float,
   (Py.of_int ty * tile_size + tile_size * 0.5)%float).

Definition tile_of (p : Point) (tile_size : float) : option Tile :=
  tile_xy p.1 p.2 tile_size.

Definition interpolate_point (p1 p2 : Point) (t : float) : Point :=
  ((p1.1 + t * (p2.1 - p1.1))%float, (p1.2 + t * (p2.2 - p1.2))%float).

(** ** The tile partitioner: [split_polyline_by_tiles] *)

Abbreviation Segment := (list Point).

(** The returned [dict], in insertion order: tile -> its list of fragments. *)
Abbreviation TileDict := (list (Tile * list Segment)).

(** [result[tile].append(segment)], creating the entry on first use. *)
Fixpoint dict_append (tile : Tile) (segment : Segment) (d : TileDict) : TileDict :=
  match d with
  | [] => [(tile, [segment])]
  | (k, segs) :: d' =>
      if decide (k = tile) then (k, segs ++ [segment]) :: d'
      else (k, segs) :: dict_append tile segment d'
  end.

(** The loop state of [split_polyline_by_tiles].  [emitted] is a ghost
    field: the effective [add_segment] calls, in the order they happen. *)
Record SplitState : Type := mkSplit {
  result : TileDict;
  emitted : list (Tile * Segment);
  current_segment : Segment;
  current_tile : Tile
}.

Definition add_segment (tile : Tile) (segment : Segment) (st : SplitState) : SplitState :=
  if bool_decide (2 ≤ length segment)%nat then
    mkSplit (dict_append tile segment (result st))
            (emitted st ++ [(tile, segment)])
            (current_segment st) (current_tile st)
  else st.

Definition push_point (pt : Point) (st : SplitState) : SplitState :=
  mkSplit (result st) (emitted st) (current_segment st ++ [pt]) (current_tile st).

(** Append [pt], hand the fragment to [add_segment], restart at [pt] in [tile]. *)
Definition cut_at (pt : Point) (tile : Tile) (st : SplitState) : SplitState :=
  let st1 := push_point pt st in
  let st2 := add_segment (current_tile st1) (current_segment st1) st1 in
  mkSplit (result st2) (emitted st2) [pt] tile.

(** [for step in range(1, num_steps)], with [n] iterations left.  The
    quotient [step / num_steps] of two ints is taken on their float values
    (the same number as long as both are below 2^53). *)
Fixpoint interp_steps (tile_size : float) (prev_pt curr_pt : Point)
    (num_steps : Z) (n : nat) (step : Z) (st : SplitState) : option SplitState :=
  match n with
  | O => Some st
  | S n' =>
      let t := (Py.of_int step / Py.of_int num_steps)%float in
      let interp_pt := interpolate_point prev_pt curr_pt t in
      interp_tile ← tile_of interp_pt tile_size;
      let st' := if decide (interp_tile = current_tile st) then st
                 else cut_at interp_pt interp_tile st in
      interp_steps tile_size prev_pt curr_pt num_steps n' (step + 1) st'
  end.

Section Partitioner.
Variable math_hypot : float → float → float.

(** One iteration of [for i in range(1, len(pts))]. *)
Definition split_step (tile_size : float) (prev_pt curr_pt : Point)
    (st : SplitState) : option SplitState :=
  curr_tile ← tile_of curr_pt tile_size;
  if decide (curr_tile = current_tile st) then Some (push_point curr_pt st)
  else
    let dx := (curr_pt.1 - prev_pt.1)%float in
    let dy := (curr_pt.2 - prev_pt.2)%float in
    let dist := math_hypot dx dy in
    st1 ← (if Py.gt dist (tile_size * 0.5)%float then
             q ← Py.truediv dist (tile_size * 0.4)%float;
             k ← Py.int q;
             let num_steps := Z.max 2 k in
             interp_steps tile_size prev_pt curr_pt num_steps
               (Z.to_nat (num_steps - 1)) 1 st
           else Some st);
    if decide (curr_tile = current_tile st1) then Some (push_point curr_pt st1)
    else Some (cut_at curr_pt curr_tile st1).

Fixpoint split_loop (tile_size : float) (prev_pt : Point) (rest : list Point)
    (st : SplitState) : option SplitState :=
  match rest with
  | [] => Some st
  | curr_pt :: rest' =>
      st' ← split_step tile_size prev_pt curr_pt st;
      split_loop tile_size curr_pt rest' st'
  end.

(** The whole function, returning the final state (dict and ghost log);
    [None] when there are fewer than two points is the early [return {}],
    kept apart from a raised exception by [split_polyline_by_tiles]. *)
Definition split_run (pts : list Point) (tile_size : float) : option SplitState :=
  match pts with
  | p0 :: rest =>
      t0 ← tile_of p0 tile_size;
      st ← split_loop tile_size p0 rest (mkSplit [] [] [p0] t0);
      Some (add_segment (current_tile st) (current_segment st) st)
  | [] => None
  end.

Definition split_polyline_by_tiles (pts : list Point) (tile_size : float)
    : option TileDict :=
  if bool_decide (length pts < 2)%nat then Some []
  else result <$> split_run pts tile_size.

(** The fragments in the order [add_segment] stored them. *)
Definition split_emitted (pts : list Point) (tile_size : float)
    : option (list (Tile * Segment)) :=
  if bool_decide (length pts < 2)%nat then Some []
  else emitted <$> split_run pts tile_size.

End Partitioner.

(** ** Geometry utilities *)

(** [points[:-1]]. *)
Definition drop_last {A} (l : list A) : list A := take (length l - 1) l.

Definition ring_without_duplicate_closure (points : list Point) : list Point :=
  match head points, last points with
  | Some p0, Some pl =>
      if bool_decide (2 ≤ length points)%nat && point_eqb p0 pl
      then drop_last points else points
  | _, _ => points
  end.

(** The [intersect] test of one edge, [vi = poly[i]] and [vj = poly[j]];
    the division is only evaluated when the first conjunct holds. *)
Definition edge_crosses (p vi vj : Point) : option bool :=
  if xorb (Py.gt vi.2 p.2) (Py.gt vj.2 p.2) then
    q ← Py.truediv ((vj.1 - vi.1) * (p.2 - vi.2))%float
                   (vj.2 - vi.2 + 1e-30)%float;
    Some (Py.lt p.1 (q + vi.1)%float)
  else Some false.

(** [for i in range(n)], with [vj] the vertex visited before [poly[i]]. *)
Fixpoint pip_loop (p vj : Point) (rest : list Point) (inside : bool) : option bool :=
  match rest with
  | [] => Some inside
  | vi :: rest' =>
      c ← edge_crosses p vi vj;
      pip_loop p vi rest' (if (c : bool) then negb inside else inside)
  end.

Definition point_in_polygon (p : Point) (poly : list Point) : option bool :=
  if bool_decide (length poly < 3)%nat then Some false
  else vj ← last poly; pip_loop p vj poly false.

(** [a += x0 * y1 - x1 * y0] over the vertices [rest], each paired with its
    successor; [first] closes the ring. *)
Fixpoint shoelace (first : Point) (rest : list Point) (a : float) : float :=
  match rest with
  | [] => a
  | p0 :: rest' =>
      let p1 := default first (head rest') in
      shoelace first rest' (a + (p0.1 * p1.2 - p1.1 * p0.2))%float
  end.

Definition polygon_area (points : list Point) : float :=
  match points with
  | first :: _ =>
      if bool_decide (length points < 3)%nat then 0%float
      else (PrimFloat.abs (shoelace first points 0) * 0.5)%float
  | [] => 0%float
  end.

Section Geometry.
Variable math_hypot : float → float → float.

Definition point_line_distance (p a b : Point) : option float :=
  let dx := (b.1 - a.1)%float in
  let dy := (b.2 - a.2)%float in
  if Py.lt (dx * dx + dy * dy)%float 1e-12%float then
    Some (math_hypot (p.1 - a.1)%float (p.2 - a.2)%float)
  else
    t ← Py.truediv ((p.1 - a.1) * dx + (p.2 - a.2) * dy)%float
                   (dx * dx + dy * dy)%float;
    let t := if Py.lt t 0 then 0%float else if Py.gt t 1 then 1%float else t in
    let cx := (a.1 + t * dx)%float in
    let cy := (a.2 + t * dy)%float in
    Some (math_hypot (p.1 - cx)%float (p.2 - cy)%float).

(** [for i in range(start + 1, end)] over the indices [idxs], carrying
    [(max_dist, idx)]; [idx = -1] is [None]. *)
Fixpoint farthest (pts : list Point) (a b : Point) (idxs : list nat)
    (acc : float * option nat) : option (float * option nat) :=
  match idxs with
  | [] => Some acc
  | i :: idxs' =>
      q ← pts !! i;
      d ← point_line_distance q a b;
      farthest pts a b idxs' (if Py.gt d acc.1 then (d, Some i) else acc)
  end.

(** [while stack:], the top of the stack first; [None] also when [fuel]
    runs out. *)
Fixpoint dp_loop (fuel : nat) (pts : list Point) (epsilon : float)
    (stack : list (nat * nat)) (keep : list bool) : option (list bool) :=
  match stack with
  | [] => Some keep
  | (start, end_) :: stack' =>
      match fuel with
      | O => None
      | S fuel' =>
          a ← pts !! start;
          b ← pts !! end_;
          r ← farthest pts a b (seq (S start) (end_ - S start)) ((-1)%float, None);
          match r with
          | (max_dist, Some idx) =>
              if Py.gt max_dist epsilon then
                dp_loop fuel' pts epsilon
                  ((idx, end_) :: (start, idx) :: stack') (<[idx := true]> keep)
              else dp_loop fuel' pts epsilon stack' keep
          | (_, None) => dp_loop fuel' pts epsilon stack' keep
          end
      end
  end.

(** [[p for i, p in enumerate(pts) if keep[i]]]. *)
Definition kept (pts : list Point) (keep : list bool) : list Point :=
  (filter (λ pk, pk.2 = true) (zip pts keep)).*1.

Definition simplify_douglas_peucker (points : list Point) (epsilon : float)
    : option (list Point) :=
  if bool_decide (length points < 4)%nat then Some points
  else
    p0 ← head points;
    pl ← last points;
    let closed := point_eqb p0 pl in
    let pts := if closed then drop_last points else points in
    let n := length pts in
    if bool_decide (n < 4)%nat then Some points
    else
      let keep := <[(n - 1)%nat := true]> (<[0%nat := true]> (replicate n false)) in
      keep ← dp_loop (2 * n) pts epsilon [(0, n - 1)%nat] keep;
      let out := kept pts keep in
      if closed then o0 ← head out; Some (out ++ [o0]) else Some out.

End Geometry.

(** ** The binary vector decoder: [iter_shp_records] *)

#[global] Instance byte_eq_decision : EqDecision byte := Byte.byte_eq_dec.

(** [l[a:b]]: a negative index counts from the end, both are clamped. *)
Definition py_slice {A} (l : list A) (a b : Z) : list A :=
  let n := Z.of_nat (length l) in
  let clamp i := if i <? 0 then Z.max 0 (i + n) else Z.min i n in
  let a' := clamp a in
  let b' := clamp b in
  take (Z.to_nat (b' - a')) (drop (Z.to_nat a') l).

(** [f.read(n)] on the rest of the file: the bytes read and what is left;
    [None] (ValueError) for a length below -1, the whole rest for -1. *)
Definition file_read (n : Z) (rest : list byte) : option (list byte * list byte) :=
  if n <? -1 then None
  else if n =? -1 then Some (rest, [])
  else Some (take (Z.to_nat n) rest, drop (Z.to_nat n) rest).

Definition le_uint (bs : list byte) : Z :=
  foldr (λ b acc, Z.of_N (Byte.to_N b) + 256 * acc) 0 bs.

Definition be_uint (bs : list byte) : Z := le_uint (reverse bs).

Definition signed32 (u : Z) : Z := if u <? 2 ^ 31 then u else u - 2 ^ 32.

(** [struct.unpack("<i", bs)[0]] and [struct.unpack(">i", bs)[0]]:
    struct.error unless [bs] has exactly 4 bytes. *)
Definition unpack_le_i32 (bs : list byte) : option Z :=
  if bool_decide (length bs = 4%nat) then Some (signed32 (le_uint bs)) else None.

Definition unpack_be_i32 (bs : list byte) : option Z :=
  if bool_decide (length bs = 4%nat) then Some (signed32 (be_uint bs)) else None.

(** [struct.unpack("<" + "i" * n, bs)], [n] values from exactly [4 * n] bytes. *)
Fixpoint unpack_le_i32s (n : nat) (bs : list byte) : option (list Z) :=
  match n with
  | O => if bool_decide (bs = []) then Some [] else None
  | S n' =>
      v ← unpack_le_i32 (take 4 bs);
      vs ← unpack_le_i32s n' (drop 4 bs);
      Some (v :: vs)
  end.

(** The binary64 value of a 64-bit pattern. *)
Definition float_of_bits (u : Z) : float :=
  let s := Z.testbit u 63 in
  let e := (u / 2 ^ 52) mod 2 ^ 11 in
  let m := u mod 2 ^ 52 in
  SF2Prim
    (if e =? 0 then
       if m =? 0 then S754_zero s else S754_finite s (Z.to_pos m) (-1074)
     else if e =? 2047 then
       if m =? 0 then S754_infinity s else S754_nan
     else S754_finite s (Z.to_pos (m + 2 ^ 52)) (e - 1075)).

(** [struct.unpack("<2d", bs)]: struct.error unless [bs] has 16 bytes. *)
Definition unpack_le_2d (bs : list byte) : option Point :=
  if bool_decide (length bs = 16%nat)
  then Some (float_of_bits (le_uint (take 8 bs)), float_of_bits (le_uint (drop 8 bs)))
  else None.

Record ShpRecord : Type := mkShpRecord {
  shape_type : Z;
  parts : list (list Point)
}.

(** How a generator stopped: its loop ended, or an exception left it.
    [OutOfFuel] is an artefact of the model ([shp_loop_fuel] rules it out). *)
Inductive stream_end : Type := Exhausted | Raised | OutOfFuel.

(** [for i in range(num_points)], [n] iterations left. *)
Fixpoint read_points (n : nat) (i : Z) (content : list byte) (points_idx : Z)
    (points : list Point) : option (list Point) :=
  match n with
  | O => Some points
  | S n' =>
      let off := points_idx + i * 16 in
      if Z.of_nat (length content) <? off + 16 then Some points
      else
        xy ← unpack_le_2d (py_slice content off (off + 16));
        read_points n' (i + 1) content points_idx (points ++ [xy])
  end.

(** [for p in range(len(part_starts))], over the starts still to visit. *)
Fixpoint slice_parts (points : list Point) (starts : list Z) : list (list Point) :=
  match starts with
  | [] => []
  | start :: starts' =>
      let end_ := default (Z.of_nat (length points)) (head starts') in
      let seg := py_slice points start end_ in
      if bool_decide (2 ≤ length seg)%nat then seg :: slice_parts points starts'
      else slice_parts points starts'
  end.

(** The body of the record loop once [content] is read: [Some None] is a
    [continue], [Some (Some r)] a [yield r], [None] an exception. *)
Definition decode_shape (content : list byte) : option (option ShpRecord) :=
  let len := Z.of_nat (length content) in
  if len <? 4 then Some None
  else
    shape_type ← unpack_le_i32 (py_slice content 0 4);
    if shape_type =? 0 then Some None
    else if negb (bool_decide (shape_type ∈ [3; 5; 13; 15])) then Some None
    else if len <? 44 then Some None
    else
      num_parts ← unpack_le_i32 (py_slice content 36 40);
      num_points ← unpack_le_i32 (py_slice content 40 44);
      let parts_idx := 44 in
      let points_idx := parts_idx + 4 * num_parts in
      if len <? points_idx then Some None
      else
        part_starts ← (if 0 <? num_parts
                       then unpack_le_i32s (Z.to_nat num_parts)
                              (py_slice content parts_idx points_idx)
                       else Some [0]);
        points ← read_points (Z.to_nat num_points) 0 content points_idx [];
        let part_starts := if bool_decide (part_starts = []) then [0] else part_starts in
        Some (Some (mkShpRecord shape_type (slice_parts points part_starts))).

(** [while True:] over the rest of the file after the header; [decode] is
    the body of the loop from the shape type on ([iter_shp_records] and
    [iter_shp_point_records] read the records the same way). *)
Fixpoint shp_loop {A} (decode : list byte → option (option A))
    (fuel : nat) (rest : list byte) : list A * stream_end :=
  match fuel with
  | O => ([], OutOfFuel)
  | S fuel' =>
      let rec_header := take 8 rest in
      let rest1 := drop 8 rest in
      if bool_decide (rec_header = []) then ([], Exhausted)
      else if negb (bool_decide (length rec_header = 8%nat)) then ([], Exhausted)
      else
        match unpack_be_i32 (drop 4 rec_header) with
        | None => ([], Raised)
        | Some content_len_words =>
            let content_len_bytes := content_len_words * 2 in
            match file_read content_len_bytes rest1 with
            | None => ([], Raised)
            | Some (content, rest2) =>
                if negb (bool_decide (Z.of_nat (length content) = content_len_bytes))
                then ([], Exhausted)
                else
                  match decode content with
                  | None => ([], Raised)
                  | Some None => shp_loop decode fuel' rest2
                  | Some (Some r) =>
                      let '(rs, e) := shp_loop decode fuel' rest2 in (r :: rs, e)
                  end
            end
        end
  end.

(** The records the generator yields from the bytes of the file, and how
    it ends. *)
Definition iter_shp_records (file : list byte) : list ShpRecord * stream_end :=
  let header := take 100 file in
  if negb (bool_decide (length header = 100%nat)) then ([], Raised)
  else shp_loop decode_shape (S (length file)) (drop 100 file).

(** The body of the record loop of [iter_shp_point_records]. *)
Definition decode_point (content : list byte) : option (option Point) :=
  let len := Z.of_nat (length content) in
  if len <? 4 then Some None
  else
    shape_type ← unpack_le_i32 (py_slice content 0 4);
    if shape_type =? 0 then Some None
    else if negb (bool_decide (shape_type ∈ [1; 11; 21])) then Some None
    else if len <? 20 then Some None
    else
      xy ← unpack_le_2d (py_slice content 4 20);
      Some (Some xy).

Definition iter_shp_point_records (file : list byte) : list Point * stream_end :=
  let header := take 100 file in
  if negb (bool_decide (length header = 100%nat)) then ([], Raised)
  else shp_loop decode_point (S (length file)) (drop 100 file).

(** *** Writing test files *)

Definition le_bytes (n : nat) (v : Z) : list byte :=
  (λ k, default x00 (Byte.of_N (Z.to_N ((v / 256 ^ Z.of_nat k) mod 256)))) <$> seq 0 n.

Definition be_bytes (n : nat) (v : Z) : list byte := reverse (le_bytes n v).

(** A file with one Polygon record (shape type 5): one part, two points,
    (0, 0) and (1, 1). *)
Definition shp_two_point_polygon : list byte :=
  replicate 100 x00
  ++ be_bytes 4 1 ++ be_bytes 4 40
  ++ le_bytes 4 5 ++ replicate 32 x00 ++ le_bytes 4 1 ++ le_bytes 4 2
  ++ le_bytes 4 0
  ++ le_bytes 8 0 ++ le_bytes 8 0
  ++ le_bytes 8 0x3FF0000000000000 ++ le_bytes 8 0x3FF0000000000000.

(** ** The streaming aggregator: [LruAppendWriter] *)

(** [_files] is the [OrderedDict], oldest entry first, from a path to its
    open file; an open file is the text written to it and not yet on disk
    (the model flushes on [close] only). *)
Record LruAppendWriter : Type := mkWriter {
  _max_open : Z;
  _files : list (string * string)
}.

(** The files on disk: path -> contents. *)
Abbreviation Disk := (gmap string string).

Definition writer_init (max_open : Z) : LruAppendWriter := mkWriter max_open [].

Fixpoint od_get (path : string) (files : list (string * string)) : option string :=
  match files with
  | [] => None
  | (k, f) :: files' => if decide (k = path) then Some f else od_get path files'
  end.

Definition od_remove (path : string) (files : list (string * string))
    : list (string * string) :=
  filter (λ e, e.1 ≠ path) files.

Definition file_contents (disk : Disk) (path : string) : string :=
  default "" (disk !! path).

(** [f.close()] of the open file [f] of [path]: its text reaches the disk. *)
Definition file_close (path f : string) (disk : Disk) : Disk :=
  <[path := file_contents disk path +:+ f]> disk.

(** [open(path, "a")] creates the file when it is missing. *)
Definition file_open_append (path : string) (disk : Disk) : Disk :=
  match disk !! path with
  | Some _ => disk
  | None => <[path := ""]> disk
  end.

Definition append_line (path line : string) (w : LruAppendWriter) (disk : Disk)
    : LruAppendWriter * Disk :=
  let '(files1, disk1) :=
    match od_get path (_files w) with
    | None =>
        (_files w ++ [(path, line +:+ "\n")], file_open_append path disk)
    | Some f =>
        (od_remove path (_files w) ++ [(path, f +:+ line +:+ "\n")], disk)
    end in
  if _max_open w <? Z.of_nat (length files1) then
    match files1 with
    | (old_path, old_file) :: files2 =>
        (mkWriter (_max_open w) files2, file_close old_path old_file disk1)
    | [] => (mkWriter (_max_open w) files1, disk1)
    end
  else (mkWriter (_max_open w) files1, disk1).

Definition writer_close (w : LruAppendWriter) (disk : Disk)
    : LruAppendWriter * Disk :=
  (mkWriter (_max_open w) [],
   foldl (λ d e, file_close e.1 e.2 d) disk (_files w)).

(** A sequence of [append_line(path, line)] calls. *)
Definition append_lines (calls : list (string * string))
    (st : LruAppendWriter * Disk) : LruAppendWriter * Disk :=
  foldl (λ st c, append_line c.1 c.2 st.1 st.2) st calls.

(** The distinct paths of a history of writes, by time of last write. *)
Definition recency (history : list string) : list string :=
  foldl (λ acc p, filter (λ q, q ≠ p) acc ++ [p]) [] history.

(** The last [n] elements of [l]. *)
Definition lastn {A} (n : nat) (l : list A) : list A := drop (length l - n) l.

(** All the text the calls write to [path], in order. *)
Fixpoint written_text (path : string) (calls : list (string * string)) : string :=
  match calls with
  | [] => ""
  | (p, line) :: calls' =>
      if decide (p = path) then line +:+ "\n" +:+ written_text path calls'
      else written_text path calls'
  end.

(** ** Text *)

(** Python [str] values are modelled by Rocq strings: the characters are
    those of the ASCII range, which is all the tool's tests on attribute
    text look at. *)

Definition is_upper (c : ascii) : bool :=
  let n := nat_of_ascii c in (65 <=? n)%nat && (n <=? 90)%nat.

Definition lower_ascii (c : ascii) : ascii :=
  if is_upper c then ascii_of_nat (nat_of_ascii c + 32) else c.

(** [s.lower()]. *)
Fixpoint py_lower (s : string) : string :=
  match s with
  | EmptyString => EmptyString
  | String c s' => String (lower_ascii c) (py_lower s')
  end.

(** The characters [str.strip()] removes: tab to carriage return, the
    separators 0x1c to 0x1f, and the space. *)
Definition is_whitespace (c : ascii) : bool :=
  let n := nat_of_ascii c in
  ((9 <=? n) && (n <=? 13) || (28 <=? n) && (n <=? 32))%nat.

Fixpoint lstrip (s : string) : string :=
  match s with
  | EmptyString => EmptyString
  | String c s' => if is_whitespace c then lstrip s' else s
  end.

(** [s.strip()]. *)
Definition py_strip (s : string) : string :=
  String.rev (lstrip (String.rev (lstrip s))).

(** An attribute record: field name -> text. *)
Abbreviation DbfRec := (gmap string string).

(** [dbf_rec.get(key, "") or ""]: both defaults are the empty string. *)
Definition rec_get (dbf_rec : DbfRec) (key : string) : string :=
  default "" (dbf_rec !! key).

(** ** Classification tables *)

Definition building_height_default (building_type : string) : float :=
  let t := py_lower building_type in
  if decide (t = "apartments") then 24
  else if decide (t = "residential") then 12
  else if decide (t = "house") then 9
  else if decide (t = "detached") then 9
  else if decide (t = "commercial") then 18
  else if decide (t = "retail") then 15
  else if decide (t = "office") then 30
  else if decide (t = "industrial") then 12
  else if decide (t = "warehouse") then 10
  else if decide (t = "hospital") then 24
  else if decide (t = "school") then 15
  else if decide (t = "university") then 18
  else if decide (t = "hotel") then 30
  else 12.

Definition road_width_default (road_type : string) : float :=
  let t := py_lower road_type in
  if decide (t = "motorway") then 18
  else if decide (t = "trunk") then 16
  else if decide (t = "primary") then 12
  else if decide (t = "secondary") then 10
  else if decide (t = "tertiary") then 8
  else if decide (t = "residential") then 6
  else if decide (t = "unclassified") then 6
  else if decide (t = "service") then 4
  else if decide (t = "living_street") then 4
  else if decide (t = "footway") then 2.5
  else if decide (t = "path") then 2
  else if decide (t = "pedestrian") then 4
  else if decide (t = "cycleway") then 2.5
  else 6.

(** ** The fragments handed to the aggregator *)

(** The JSON objects [main] writes, one constructor per category. *)
Inductive Fragment : Type :=
  | Building (heightMeters : float) (vertices : list Point)
  | Road (widthMeters : float) (points : list Point)
  | Water (vertices : list Point)
  | Landcover (kind : string) (densityPerKm2 : float) (vertices : list Point)
  | Waterway (kind : string) (widthMeters : float) (points : list Point)
  | Railway (widthMeters : float) (points : list Point)
  | Poi (type name : string) (position : Point).

(** One [append(category, tx, ty, obj)] call. *)
Record Append : Type := mkAppend {
  category : string;
  tx : Z;
  ty : Z;
  obj : Fragment
}.

(** The command line, as [argparse] hands it over. *)
Module Args.
Record t : Type := mk {
  shape_dir : string;
  out : string;
  tile_size : float;
  origin_lat : float;
  origin_lon : float;
  clean : bool;
  keep_tmp : bool;
  min_building_area : float;
  max_building_extent : float;
  simplify_meters : float;
  rect_buildings : bool;
  max_water_area_km2 : float;
  max_landcover_area_km2 : float;
  skip_riverbank_aspect : float
}.
End Args.

(** The defaults of the options, for a given shape directory, output root
    and tile size. *)
Definition default_args (shape_dir out : string) (tile_size : float) : Args.t :=
  Args.mk shape_dir out tile_size 38.26 140.8815 false false 12 500 0.8 false
          200 500 12.

(** [[(x - cx, y - cy) for (x, y) in pts]]. *)
Definition relative_to (center : Point) (pts : list Point) : list Point :=
  (λ p, (p.1 - center.1, p.2 - center.2)%float) <$> pts.

(** [max(xs)] and [min(xs)] of a non-empty list, as the builtins scan it. *)
Definition list_max (xs : list float) : option float :=
  match xs with
  | [] => None
  | x :: xs' => Some (foldl Py.max x xs')
  end.

Definition list_min (xs : list float) : option float :=
  match xs with
  | [] => None
  | x :: xs' => Some (foldl Py.min x xs')
  end.

(** [l[::step]] for a positive [step]. *)
Fixpoint every_nth_from {A} (skip step : nat) (l : list A) : list A :=
  match l with
  | [] => []
  | x :: l' =>
      match skip with
      | O => x :: every_nth_from (step - 1) step l'
      | S skip' => every_nth_from skip' step l'
      end
  end.

Definition every_nth {A} (step : nat) (l : list A) : list A :=
  every_nth_from 0 step l.

(** The arithmetic mean of the x and of the y coordinates. *)
Definition mean_point (ring : list Point) : option Point :=
  let n := Py.of_int (Z.of_nat (length ring)) in
  cx ← Py.truediv (Py.sum ring.*1) n;
  cy ← Py.truediv (Py.sum ring.*2) n;
  Some (cx, cy).

Definition classify_polygon (poly_type : string) : option (string * option string) :=
  let t := py_lower poly_type in
  if bool_decide (t ∈ ["water"; "reservoir"; "riverbank"; "basin"; "lake";
                       "pond"; "wetland"])
  then Some ("water", None)
  else if bool_decide (t ∈ ["wood"; "forest"; "scrub"])
  then Some ("landcover", Some "forest")
  else if bool_decide (t ∈ ["grass"; "meadow"; "park"; "recreation_ground";
                            "village_green"])
  then Some ("landcover", Some "grass")
  else None.

(** ** The pipeline driver *)

Definition EARTH_RADIUS_M : float := 6378137.

(** [math.pi] and [math.radians]. *)
Definition math_pi : float := 3.141592653589793.
Definition math_radians (x : float) : float := (x * (math_pi / 180))%float.

(** The covariance sums [cxx], [cxy], [cyy] about [(mx, my)]. *)
Definition covariance (points : list Point) (mx my : float) : float * float * float :=
  foldl (λ '(cxx, cxy, cyy) p,
           let dx := (p.1 - mx)%float in
           let dy := (p.2 - my)%float in
           ((cxx + dx * dx)%float, (cxy + dx * dy)%float, (cyy + dy * dy)%float))
        (0%float, 0%float, 0%float) points.

(** The extreme projections [(min_u, max_u, min_v, max_v)] of the points
    on the axes [u] and [v = (-uy, ux)]. *)
Definition axis_ranges (points : list Point) (mx my ux uy : float)
    : float * float * float * float :=
  let vx := (- uy)%float in
  let vy := ux in
  foldl (λ '(min_u, max_u, min_v, max_v) p,
           let dx := (p.1 - mx)%float in
           let dy := (p.2 - my)%float in
           let pu := (dx * ux + dy * uy)%float in
           let pv := (dx * vx + dy * vy)%float in
           (if Py.lt pu min_u then pu else min_u,
            if Py.gt pu max_u then pu else max_u,
            if Py.lt pv min_v then pv else min_v,
            if Py.gt pv max_v then pv else max_v))
        (infinity, neg_infinity, infinity, neg_infinity) points.

(** The regular files of the file system: path -> contents.  The output
    directory is taken to be empty when [main] starts. *)
Abbreviation Files := (gmap string (list byte)).

Section Pipeline.
Variable math_hypot : float → float → float.
(** [math.log] and [math.tan]: [None] is their ValueError. *)
Variable math_log : float → option float.
Variable math_tan : float → option float.
(** [float(s)] of a string: [None] is its ValueError. *)
Variable float_of_string : string → option float.
(** [raw.decode(encoding, "ignore")] for the encoding [read_dbf_records]
    is called with. *)
Variable codec_decode : list byte → string.

Definition lonlat_to_webmercator_m (lon lat : float) : option Point :=
  let lat := Py.max (Py.min lat 85.05112878) (-85.05112878) in
  let x := (math_radians lon * EARTH_RADIUS_M)%float in
  t ← math_tan (math_pi / 4 + math_radians lat / 2)%float;
  l ← math_log t;
  Some (x, (l * EARTH_RADIUS_M)%float).

(** The principal axis [(ux, uy)] both [pca_obb] and [pca_extents] compute,
    with the centroid; [Some None] is their [return None]. *)
Definition principal_axis (points : list Point)
    : option (option (float * float * float * float)) :=
  let n := length points in
  if bool_decide (n < 3)%nat then Some None
  else
    let nf := Py.of_int (Z.of_nat n) in
    mx ← Py.truediv (Py.sum points.*1) nf;
    my ← Py.truediv (Py.sum points.*2) nf;
    let '(cxx, cxy, cyy) := covariance points mx my in
    cxx ← Py.truediv cxx nf;
    cxy ← Py.truediv cxy nf;
    cyy ← Py.truediv cyy nf;
    if Py.lt (cxx + cyy)%float 1e-6 then Some None
    else
      let trace := (cxx + cyy)%float in
      let det := (cxx * cyy - cxy * cxy)%float in
      let term := Py.max 0 ((trace * trace) * 0.25 - det)%float in
      let sqrt_term := PrimFloat.sqrt term in
      let eig1 := (trace * 0.5 + sqrt_term)%float in
      let '(ux, uy) :=
        if Py.gt (PrimFloat.abs cxy) 1e-9 then ((eig1 - cyy)%float, cxy)
        else if Py.ge cxx cyy then (1%float, 0%float) else (0%float, 1%float) in
      let ulen := math_hypot ux uy in
      if Py.lt ulen 1e-9 then Some None
      else
        ux ← Py.truediv ux ulen;
        uy ← Py.truediv uy ulen;
        Some (Some (mx, my, ux, uy)).

Definition pca_obb (points : list Point) : option (option (list Point)) :=
  axis ← principal_axis points;
  match axis with
  | None => Some None
  | Some (mx, my, ux, uy) =>
      let vx := (- uy)%float in
      let vy := ux in
      let '(min_u, max_u, min_v, max_v) := axis_ranges points mx my ux uy in
      if Py.lt (max_u - min_u)%float 0.2 || Py.lt (max_v - min_v)%float 0.2
      then Some None
      else
        let corner pu pv :=
          ((mx + ux * pu + vx * pv)%float, (my + uy * pu + vy * pv)%float) in
        Some (Some [corner min_u min_v; corner max_u min_v;
                    corner max_u max_v; corner min_u max_v])
  end.

Definition pca_extents (points : list Point) : option (option (float * float)) :=
  axis ← principal_axis points;
  match axis with
  | None => Some None
  | Some (mx, my, ux, uy) =>
      let '(min_u, max_u, min_v, max_v) := axis_ranges points mx my ux uy in
      Some (Some ((max_u - min_u)%float, (max_v - min_v)%float))
  end.

(** What [main] computes before the passes and the passes share: the
    options, the projected origin and the clip polygon (the result of
    [parse_clip_polygon_from_bbbike_readme], whose URL parsing is the
    standard library's and is not modelled). *)
Record Context : Type := mkContext {
  args : Args.t;
  origin : Point;
  clip_poly_abs : option (list Point)
}.

(** [for lon, lat in part: pts.append((x - origin_x, y - origin_y))]. *)
Fixpoint project_part (ctx : Context) (part : list Point) : option (list Point) :=
  match part with
  | [] => Some []
  | lonlat :: part' =>
      xy ← lonlat_to_webmercator_m lonlat.1 lonlat.2;
      rest ← project_part ctx part';
      Some ((xy.1 - (origin ctx).1, xy.2 - (origin ctx).2)%float :: rest)
  end.

(** The first sampled point inside the clip polygon ends the scan. *)
Fixpoint any_inside (ctx : Context) (clip : list Point) (sample : list Point)
    : option bool :=
  match sample with
  | [] => Some false
  | p :: sample' =>
      b ← point_in_polygon
             ((p.1 + (origin ctx).1)%float, (p.2 + (origin ctx).2)%float) clip;
      if (b : bool) then Some true else any_inside ctx clip sample'
  end.

Definition keep_ring_by_clip (ctx : Context) (ring_local : list Point) : option bool :=
  match clip_poly_abs ctx with
  | None => Some true
  | Some clip =>
      c ← mean_point ring_local;
      b ← point_in_polygon
             ((c.1 + (origin ctx).1)%float, (c.2 + (origin ctx).2)%float) clip;
      if (b : bool) then Some true
      else any_inside ctx clip
             (every_nth (Nat.max 1 (length ring_local / 8)) ring_local)
  end.

Definition keep_line_by_clip (ctx : Context) (points_local : list Point) : option bool :=
  match clip_poly_abs ctx with
  | None => Some true
  | Some clip =>
      any_inside ctx clip
        (every_nth (Nat.max 1 (length points_local / 16)) points_local)
  end.

(** [tile_xy] of the mean of the vertices, and the vertices relative to
    the centre of that tile: the end of every polygon branch. *)
Definition place_ring (ctx : Context) (ring : list Point) : option (Z * Z * list Point) :=
  c ← mean_point ring;
  t ← tile_xy c.1 c.2 (Args.tile_size (args ctx));
  Some (t.1, t.2,
        relative_to (tile_center t.1 t.2 (Args.tile_size (args ctx))) ring).

(** The rectangle of a building in [--rect-buildings] mode. *)
Definition building_rect (ctx : Context) (h : float) (pts : list Point)
    : option (list Append) :=
  obb ← pca_obb pts;
  corners ← match obb with
            | Some corners => Some corners
            | None =>
                minx ← list_min pts.*1; maxx ← list_max pts.*1;
                miny ← list_min pts.*2; maxy ← list_max pts.*2;
                Some [(minx, miny); (maxx, miny); (maxx, maxy); (minx, maxy)]
            end;
  let cx := (Py.sum corners.*1 * 0.25)%float in
  let cy := (Py.sum corners.*2 * 0.25)%float in
  t ← tile_xy cx cy (Args.tile_size (args ctx));
  Some [mkAppend "buildings" t.1 t.2
          (Building h (relative_to
             (tile_center t.1 t.2 (Args.tile_size (args ctx))) corners))].

(** One building part from its projected, origin-relative vertices on:
    the appends it causes ([[]] for a [continue]). *)
Definition building_from_projected (ctx : Context) (h : float) (pts : list Point)
    : option (list Append) :=
  if Py.lt (polygon_area pts) (Args.min_building_area (args ctx)) then Some []
  else
    maxx ← list_max pts.*1; minx ← list_min pts.*1;
    maxy ← list_max pts.*2; miny ← list_min pts.*2;
    let extent_x := (maxx - minx)%float in
    let extent_y := (maxy - miny)%float in
    let max_extent := Py.max extent_x extent_y in
    if Py.gt max_extent (Args.max_building_extent (args ctx)) then Some []
    else if Args.rect_buildings (args ctx) then building_rect ctx h pts
    else
      ring ← simplify_douglas_peucker math_hypot pts (Args.simplify_meters (args ctx));
      let ring := ring_without_duplicate_closure ring in
      if bool_decide (length ring < 3)%nat then Some []
      else
        keep ← keep_ring_by_clip ctx ring;
        if negb keep then Some []
        else
          placed ← place_ring ctx ring;
          let '(tx, ty, vertices) := placed in
          Some [mkAppend "buildings" tx ty (Building h vertices)].

Definition building_part (ctx : Context) (h : float) (part : list Point)
    : option (list Append) :=
  if bool_decide (length part < 3)%nat then Some []
  else pts ← project_part ctx part; building_from_projected ctx h pts.

(** [for part in shp_rec.parts: ...], the appends of all the parts. *)
Fixpoint for_parts (body : list Point → option (list Append))
    (parts : list (list Point)) : option (list Append) :=
  match parts with
  | [] => Some []
  | part :: parts' =>
      out ← body part;
      rest ← for_parts body parts';
      Some (out ++ rest)
  end.

(** [btype = dbf_rec.get("type", ""); h = building_height_default(btype)]. *)
Definition building_height (dbf_rec : DbfRec) : float :=
  let btype := rec_get dbf_rec "type" in
  building_height_default btype.

Definition building_record (ctx : Context) (rec : ShpRecord * DbfRec)
    : option (list Append) :=
  let h := building_height rec.2 in
  for_parts (building_part ctx h) (parts rec.1).

(** [for (tx, ty), segments in tile_segments.items(): for seg in segments:
    append(category, tx, ty, make(points))]. *)
Definition emit_segments (ctx : Context) (category : string)
    (make : list Point → Fragment) (tile_segments : TileDict) : list Append :=
  '(tile, segments) ← tile_segments;
  seg ← filter (λ seg, ¬ (length seg < 2)%nat) segments;
  [mkAppend category tile.1 tile.2
     (make (relative_to
              (tile_center tile.1 tile.2 (Args.tile_size (args ctx))) seg))].

Definition road_part (ctx : Context) (width : float) (part : list Point)
    : option (list Append) :=
  if bool_decide (length part < 2)%nat then Some []
  else
    pts_m ← project_part ctx part;
    keep ← keep_line_by_clip ctx pts_m;
    if negb keep then Some []
    else
      tile_segments ← split_polyline_by_tiles math_hypot pts_m
                        (Args.tile_size (args ctx));
      Some (emit_segments ctx "roads" (Road width) tile_segments).

Definition road_record (ctx : Context) (rec : ShpRecord * DbfRec)
    : option (list Append) :=
  let rtype := rec_get rec.2 "type" in
  let width := road_width_default rtype in
  for_parts (road_part ctx width) (parts rec.1).

Definition railway_part (ctx : Context) (part : list Point) : option (list Append) :=
  if bool_decide (length part < 2)%nat then Some []
  else
    pts_m ← project_part ctx part;
    keep ← keep_line_by_clip ctx pts_m;
    if negb keep then Some []
    else
      tile_segments ← split_polyline_by_tiles math_hypot pts_m
                        (Args.tile_size (args ctx));
      Some (emit_segments ctx "railways" (Railway 4) tile_segments).

Definition railway_record (ctx : Context) (rec : ShpRecord * DbfRec)
    : option (list Append) :=
  let rtype := py_lower (rec_get rec.2 "type") in
  if negb (bool_decide (rtype = "rail")) then Some []
  else
    let rname := py_strip (rec_get rec.2 "name") in
    if bool_decide (rname = "") then Some []
    else for_parts (railway_part ctx) (parts rec.1).

Definition waterway_part (ctx : Context) (wtype : string) (width : float)
    (part : list Point) : option (list Append) :=
  if bool_decide (length part < 2)%nat then Some []
  else
    pts_m ← project_part ctx part;
    keep ← keep_line_by_clip ctx pts_m;
    if negb keep then Some []
    else
      pts_m ← simplify_douglas_peucker math_hypot pts_m
                (Py.max 0.5 (Args.simplify_meters (args ctx)));
      let pts_m := ring_without_duplicate_closure pts_m in
      if bool_decide (length pts_m < 2)%nat then Some []
      else
        tile_segments ← split_polyline_by_tiles math_hypot pts_m
                          (Args.tile_size (args ctx));
        Some (emit_segments ctx "waterways" (Waterway wtype width) tile_segments).

Definition waterway_record (ctx : Context) (rec : ShpRecord * DbfRec)
    : option (list Append) :=
  let wtype :=
    py_lower (if bool_decide (rec_get rec.2 "type" = "") then "stream"
              else rec_get rec.2 "type") in
  let width_s := py_strip (rec_get rec.2 "width") in
  let width := if bool_decide (width_s = "") then None else float_of_string width_s in
  let width :=
    match width with
    | Some w =>
        if PrimFloat.leb w 0 then None else Some w
    | None => None
    end in
  let width :=
    match width with
    | Some w => w
    | None => if bool_decide (wtype = "river") then 10%float
              else if bool_decide (wtype = "canal") then 5%float else 3%float
    end in
  for_parts (waterway_part ctx wtype width) (parts rec.1).

Definition area_part (ctx : Context) (target : string) (kind : option string)
    (part : list Point) : option (list Append) :=
  if bool_decide (length part < 3)%nat then Some []
  else
    pts ← project_part ctx part;
    ring ← simplify_douglas_peucker math_hypot pts (Args.simplify_meters (args ctx));
    let ring := ring_without_duplicate_closure ring in
    if bool_decide (length ring < 3)%nat then Some []
    else
      keep ← keep_ring_by_clip ctx ring;
      if negb keep then Some []
      else
        let area_m2 := polygon_area ring in
        if bool_decide (target = "water")
           && Py.gt area_m2 (Args.max_water_area_km2 (args ctx) * 1000000)%float
        then Some []
        else if bool_decide (target = "landcover")
           && Py.gt area_m2 (Args.max_landcover_area_km2 (args ctx) * 1000000)%float
        then Some []
        else
          riverbank ←
            (if bool_decide (target = "water") then
               ext ← pca_extents ring;
               match ext with
               | None => Some false
               | Some (a, b) =>
                   let mn := Py.min a b in
                   let mx := Py.max a b in
                   if Py.gt mn 1e-3 then
                     q ← Py.truediv mx mn;
                     Some (Py.ge q (Args.skip_riverbank_aspect (args ctx)))
                   else Some false
               end
             else Some false);
          if (riverbank : bool) then Some []
          else
            placed ← place_ring ctx ring;
            let '(tx, ty, vertices) := placed in
            if bool_decide (target = "water")
            then Some [mkAppend "waters" tx ty (Water vertices)]
            else
              let density := if bool_decide (kind = Some "forest")
                             then 800%float else 250%float in
              Some [mkAppend "landcovers" tx ty
                      (Landcover (default "" kind) density vertices)].

Definition area_record (ctx : Context) (rec : ShpRecord * DbfRec)
    : option (list Append) :=
  let ptype := rec_get rec.2 "type" in
  match classify_polygon ptype with
  | None => Some []
  | Some (target, kind) => for_parts (area_part ctx target kind) (parts rec.1)
  end.

(** *** The attribute decoder: [read_dbf_records] *)

(** [raw.decode("ascii", "ignore")]: the bytes above 127 are dropped. *)
Definition decode_ascii_ignore (raw : list byte) : string :=
  string_of_list_byte (filter (λ b, (Byte.to_N b < 128)%N) raw).

(** [bs.split(b"\x00", 1)[0]]: the bytes before the first NUL. *)
Fixpoint until_nul (bs : list byte) : list byte :=
  match bs with
  | [] => []
  | b :: bs' => if decide (b = x00) then [] else b :: until_nul bs'
  end.

(** The field list: [None] is the ValueError at the end of the file or
    the IndexError on a descriptor cut short.  Every descriptor takes at
    least one byte of [rest], so a [fuel] above its length is never used
    up before the loop ends. *)
Fixpoint dbf_fields (fuel : nat) (rest : list byte)
    : option (list (string * byte * Z)) :=
  match fuel with
  | O => None
  | S fuel' =>
      let desc := take 32 rest in
      match desc with
      | [] => None
      | d0 :: _ =>
          if decide (d0 = x0d) then Some []
          else
            let name := py_strip (decode_ascii_ignore (until_nul (py_slice desc 0 11))) in
            ftype ← desc !! 11%nat;
            flen ← desc !! 16%nat;
            fields ← dbf_fields fuel' (drop 32 rest);
            Some ((name, ftype, Z.of_N (Byte.to_N flen)) :: fields)
      end
  end.

(** [for (name, ftype, flen) in fields:], filling [out_]. *)
Fixpoint dbf_row (rec : list byte) (fields : list (string * byte * Z))
    (offset : Z) (out_ : DbfRec) : DbfRec :=
  match fields with
  | [] => out_
  | (name, ftype, flen) :: fields' =>
      let raw := py_slice rec offset (offset + flen) in
      let value :=
        if bool_decide (ftype ∈ ["N"%byte; "F"%byte])
        then py_strip (decode_ascii_ignore raw)
        else py_strip (codec_decode raw) in
      dbf_row rec fields' (offset + flen) (<[name := value]> out_)
  end.

(** [for _ in range(num_records)], [n] iterations left. *)
Fixpoint dbf_rows (n : nat) (record_len : Z) (fields : list (string * byte * Z))
    (rest : list byte) : list DbfRec :=
  match n with
  | O => []
  | S n' =>
      let rec := take (Z.to_nat record_len) rest in
      let rest' := drop (Z.to_nat record_len) rest in
      if negb (bool_decide (Z.of_nat (length rec) = record_len)) then []
      else if bool_decide (take 1 rec = ["*"%byte])
      then dbf_rows n' record_len fields rest'
      else dbf_row rec fields 1 ∅ :: dbf_rows n' record_len fields rest'
  end.

Definition read_dbf_records (file : list byte) : list DbfRec * stream_end :=
  let header := take 32 file in
  if negb (bool_decide (length header = 32%nat)) then ([], Raised)
  else
    let num_records := le_uint (py_slice header 4 8) in
    let header_len := le_uint (py_slice header 8 10) in
    let record_len := le_uint (py_slice header 10 12) in
    match dbf_fields (S (length file)) (drop 32 file) with
    | None => ([], Raised)
    | Some fields =>
        (dbf_rows (Z.to_nat num_records) record_len fields
           (drop (Z.to_nat header_len) file), Exhausted)
    end.

(** *** [main] *)

Definition isfile (files : Files) (path : string) : bool :=
  bool_decide (is_Some (files !! path)).

Definition read_bytes (files : Files) (path : string) : list byte :=
  default [] (files !! path).

(** [os.path.join(a, b)] for a relative [b]. *)
Definition path_join (a b : string) : string :=
  match String.rev a with
  | EmptyString => b
  | String "/" _ => a +:+ b
  | String _ _ => a +:+ "/" +:+ b
  end.

(** [zip(xs, ys)] of two generators: the pairs it hands out before either
    is exhausted; [None] when one of them raises before that. *)
Fixpoint zip_streams {A B} (xs : list A) (ex : stream_end)
    (ys : list B) (ey : stream_end) : option (list (A * B)) :=
  match xs with
  | [] => match ex with Raised => None | _ => Some [] end
  | x :: xs' =>
      match ys with
      | [] => match ey with Raised => None | _ => Some [] end
      | y :: ys' =>
          rest ← zip_streams xs' ex ys' ey;
          Some ((x, y) :: rest)
      end
  end.

(** [for rec in recs: ...], the appends of all the records. *)
Fixpoint for_records {R} (body : R → option (list Append)) (recs : list R)
    : option (list Append) :=
  match recs with
  | [] => Some []
  | rec :: recs' =>
      out ← body rec;
      rest ← for_records body recs';
      Some (out ++ rest)
  end.

(** One category: [if os.path.isfile(shp) and os.path.isfile(dbf): for
    shp_rec, dbf_rec in zip(...): body]. *)
Definition category_pass {A} (files : Files) (shape_dir base : string)
    (reader : list byte → list A * stream_end)
    (body : A * DbfRec → option (list Append)) : option (list Append) :=
  let shp := path_join shape_dir (base +:+ ".shp") in
  let dbf := path_join shape_dir (base +:+ ".dbf") in
  if isfile files shp && isfile files dbf then
    let '(xs, ex) := reader (read_bytes files shp) in
    let '(ys, ey) := read_dbf_records (read_bytes files dbf) in
    pairs ← zip_streams xs ex ys ey;
    for_records body pairs
  else Some [].

Definition poi_record (ctx : Context) (rec : Point * DbfRec) : option (list Append) :=
  let ptype := py_lower (rec_get rec.2 "type") in
  if negb (bool_decide (ptype ∈ ["station"; "subway_entrance"])) then Some []
  else
    xy ← lonlat_to_webmercator_m rec.1.1 rec.1.2;
    let lx := (xy.1 - (origin ctx).1)%float in
    let ly := (xy.2 - (origin ctx).2)%float in
    inside ← match clip_poly_abs ctx with
             | None => Some true
             | Some clip => point_in_polygon xy clip
             end;
    if negb inside then Some []
    else
      t ← tile_xy lx ly (Args.tile_size (args ctx));
      let c := tile_center t.1 t.2 (Args.tile_size (args ctx)) in
      let name := rec_get rec.2 "name" in
      Some [mkAppend "pois" t.1 t.2
              (Poi ptype name ((lx - c.1)%float, (ly - c.2)%float))].

(** The entries a record adds to places.json: type, name, x, y. *)
Definition place_record (ctx : Context) (rec : Point * DbfRec)
    : option (list (string * string * Point)) :=
  let ptype := py_lower (rec_get rec.2 "type") in
  if negb (bool_decide (ptype ∈ ["neighbourhood"; "quarter"; "suburb"; "city"]))
  then Some []
  else
    let name := rec_get rec.2 "name" in
    if bool_decide (name = "") then Some []
    else
      xy ← lonlat_to_webmercator_m rec.1.1 rec.1.2;
      Some [(ptype, name,
             ((xy.1 - (origin ctx).1)%float, (xy.2 - (origin ctx).2)%float))].

Fixpoint for_places (ctx : Context) (recs : list (Point * DbfRec))
    : option (list (string * string * Point)) :=
  match recs with
  | [] => Some []
  | rec :: recs' =>
      out ← place_record ctx rec;
      rest ← for_places ctx recs';
      Some (out ++ rest)
  end.

Definition places_pass (ctx : Context) (files : Files)
    : option (list (string * string * Point)) :=
  let shp := path_join (Args.shape_dir (args ctx)) "places.shp" in
  let dbf := path_join (Args.shape_dir (args ctx)) "places.dbf" in
  if isfile files shp && isfile files dbf then
    let '(xs, ex) := iter_shp_point_records (read_bytes files shp) in
    let '(ys, ey) := read_dbf_records (read_bytes files dbf) in
    pairs ← zip_streams xs ex ys ey;
    for_places ctx pairs
  else Some [].

(** What a run leaves behind: the fragments handed to the aggregator, in
    order, the entries of places.json, and the number of tile files
    [write_tile_jsons] writes, one per tile that has a fragment. *)
Record Output : Type := mkOutput {
  appends : list Append;
  places : list (string * string * Point);
  written : nat
}.

(** [main]: the exit status it returns and what it wrote; [None] when an
    exception ends the run (a non-zero exit status). *)
Definition main (files : Files) (a : Args.t) (clip : option (list Point))
    : option (Z * Output) :=
  origin ← lonlat_to_webmercator_m (Args.origin_lon a) (Args.origin_lat a);
  let ctx := mkContext a origin clip in
  let dir := Args.shape_dir a in
  b ← category_pass files dir "buildings" iter_shp_records (building_record ctx);
  r ← category_pass files dir "roads" iter_shp_records (road_record ctx);
  n ← category_pass files dir "natural" iter_shp_records (area_record ctx);
  l ← category_pass files dir "landuse" iter_shp_records (area_record ctx);
  w ← category_pass files dir "waterways" iter_shp_records (waterway_record ctx);
  rw ← category_pass files dir "railways" iter_shp_records (railway_record ctx);
  p ← category_pass files dir "points" iter_shp_point_records (poi_record ctx);
  pl ← places_pass ctx files;
  let out := b ++ r ++ n ++ l ++ w ++ rw ++ p in
  let tiles := remove_dups ((λ x, (tx x, ty x)) <$> out) in
  Some (0, mkOutput out pl (length tiles)).

End Pipeline.

(** ** Building heights in the GeoJSON converter (tools/geojson_to_tiles.py) *)

(** A parsed JSON value; of an array or an object only whether it is
    empty matters here. *)
Inductive JsonValue : Type :=
  | JNull
  | JBool (b : bool)
  | JInt (n : Z)
  | JFloat (x : float)
  | JString (s : string)
  | JContainer (empty : bool).

(** The truth value of [v] in [if v] and [v or w]. *)
Definition truthy (v : JsonValue) : bool :=
  match v with
  | JNull => false
  | JBool b => b
  | JInt n => negb (n =? 0)
  | JFloat x => negb (PrimFloat.eqb x 0)
  | JString s => negb (bool_decide (s = ""))
  | JContainer empty => negb empty
  end.

(** [props.get(key)]: [None] of Python is [JNull]. *)
Definition props_get (props : gmap string JsonValue) (key : string) : JsonValue :=
  default JNull (props !! key).

(** [s.replace("m", "")]. *)
Fixpoint remove_m (s : string) : string :=
  match s with
  | EmptyString => EmptyString
  | String c s' => if decide (c = "m"%char) then remove_m s' else String c (remove_m s')
  end.

(** [isinstance(v, (int, float)) and v > 0], then [float(v)]: the outer
    [None] is "not such a number", the inner one the OverflowError of
    [float] on a huge int. *)
Definition positive_number (v : JsonValue) : option (option float) :=
  match v with
  | JBool b => if b then Some (Some 1%float) else None
  | JInt n => if 0 <? n then Some (Py.float_of_int n) else None
  | JFloat x => if Py.gt x 0 then Some (Some x) else None
  | _ => None
  end.

Section GeoJson.
Variable float_of_string : string → option float.

Definition building_height_m (props : gmap string JsonValue) : option float :=
  if bool_decide (props = ∅) then Some 12%float
  else
    let h := props_get props "height" in
    match positive_number h with
    | Some r => r
    | None =>
        let from_height :=
          match h with
          | JString s => float_of_string (py_strip (remove_m s))
          | _ => None
          end in
        match from_height with
        | Some x => Some x
        | None =>
            let levels :=
              if truthy (props_get props "building:levels")
              then props_get props "building:levels"
              else props_get props "levels" in
            match positive_number levels with
            | Some r => x ← r; Some (x * 3)%float
            | None =>
                match levels with
                | JString s =>
                    match float_of_string (py_strip s) with
                    | Some x => Some (x * 3)%float
                    | None => Some 12%float
                    end
                | _ => Some 12%float
                end
            end
        end
    end.

End GeoJson.

(** A reader of plain decimal numerals ([digits] or [digits.digits]),
    standing in for [float(s)] on closed examples; [None] elsewhere. *)
Definition digit_value (c : ascii) : option Z :=
  let n := Z.of_nat (nat_of_ascii c) in
  if (48 <=? n) && (n <=? 57) then Some (n - 48) else None.

Fixpoint decimal_digits (s : string) (acc : Z) (scale : option Z)
    : option (Z * Z) :=
  match s with
  | EmptyString => Some (acc, default 1 scale)
  | String c s' =>
      if decide (c = "."%char) then
        match scale with
        | None => decimal_digits s' acc (Some 1)
        | Some _ => None
        end
      else
        d ← digit_value c;
        decimal_digits s' (10 * acc + d) ((λ k, 10 * k) <$> scale)
  end.

Definition decimal_of_string (s : string) : option float :=
  if bool_decide (s = "") then None
  else
    r ← decimal_digits s 0 None;
    Some (Py.of_int r.1 / Py.of_int r.2)%float.

(** A libm function that never raises, for the closed examples whose
    result does not depend on the values of [math.log] and [math.tan]. *)
Definition libm_stub (x : float) : option float := Some x.

(** The square of the round-trip scenario, projected and origin-relative. *)
Definition square100 : list Point :=
  [(-50, -50); (50, -50); (50, 50); (-50, 50)]%float.

(** The vertices the scenario emits: [square100] relative to the centre
    (500, 500) of tile (0, 0). *)
Definition square100_local : list Point :=
  [(-550, -550); (-450, -550); (-450, -450); (-550, -450)]%float.

(** [(sum of x, sum of y)]. *)
Definition vertex_sum (pts : list Point) : Point := (Py.sum pts.*1, Py.sum pts.*2).

(** A 3000 m straight road along the x axis, tile size 1000. *)
Definition road3000 : list Point := [(0, 0); (3000, 0)]%float.

(** Every vertex of every fragment of [d] lies in the tile keying it. *)
Definition fragments_confined (tile_size : float) (d : TileDict) : Prop :=
  ∀ tile segs seg p, (tile, segs) ∈ d → seg ∈ segs → p ∈ seg →
    tile_of p tile_size = Some tile.

(** The dict that a log of [add_segment] calls builds. *)
Definition replay (log : list (Tile * Segment)) : TileDict :=
  foldl (λ d e, dict_append e.1 e.2 d) [] log.

(** Consecutive entries of the log share an end point. *)
Definition chained (log : list (Tile * Segment)) : Prop :=
  ∀ i f g, log !! i = Some f → log !! S i = Some g → last f.2 = head g.2.

Definition log_consistent (st : SplitState) : Prop :=
  result st = replay (emitted st).

(** What holds of the ghost log at every point of the loop. *)
Record log_ok (tile_size : float) (log : list (Tile * Segment)) : Prop := {
  log_tiles : ∀ t seg p, (t, seg) ∈ log → p ∈ removelast seg →
                tile_of p tile_size = Some t;
  log_sizes : ∀ e, e ∈ log → (2 ≤ length e.2)%nat;
  log_chain : chained log
}.

(** The loop invariant of [split_polyline_by_tiles]. *)
Record split_inv (tile_size : float) (st : SplitState) : Prop := {
  inv_consistent : log_consistent st;
  inv_log : log_ok tile_size (emitted st);
  inv_nonempty : current_segment st ≠ [];
  inv_current : ∀ p, p ∈ current_segment st →
                  tile_of p tile_size = Some (current_tile st);
  inv_joint : ∀ e, last (emitted st) = Some e →
                last e.2 = head (current_segment st)
}.

(** The two points at which [road3000] is cut: steps 3 and 5 of 7. *)
Definition road3000_cut1 : Point :=
  interpolate_point (0, 0)%float (3000, 0)%float (Py.of_int 3 / Py.of_int 7)%float.
Definition road3000_cut2 : Point :=
  interpolate_point (0, 0)%float (3000, 0)%float (Py.of_int 5 / Py.of_int 7)%float.

(** A three-vertex "ring" whose closure vertex repeats the first, and a
    query point between the two places where the perturbed divisor puts
    the crossing of its single edge. *)
Definition sliver_ring : list Point := [(0, 0); (3, 2e-30); (0, 0)]%float.
Definition sliver_query : Point := (0.5, 1e-30)%float.

(** Two vertices Python takes for the same: identical, or equal under [==]. *)
Definition py_same (p q : Point) : Prop := p = q ∨ point_eqb p q = true.

(** [out] is a subsequence of [points], its vertices taken up to [py_same]. *)
Definition subsequence_of (out points : list Point) : Prop :=
  ∃ sub, sublist sub points ∧ Forall2 py_same out sub.

(** What the work stack of [simplify_douglas_peucker] holds: index pairs
    [start < end] inside the vertex list. *)
Definition stack_ok (n : nat) (stack : list (nat * nat)) : Prop :=
  Forall (λ se, se.1 < se.2 ∧ se.2 < n)%nat stack.

(** The iterations a stack can still cause. *)
Definition stack_weight (stack : list (nat * nat)) : nat :=
  sum_list ((λ se, 2 * (se.2 - se.1) - 1)%nat <$> stack).

(** Four collinear vertices. *)
Definition collinear4 : list Point := [(0, 0); (1, 0); (2, 0); (4, 0)]%float.

(** What [append_line] does to the order of the open paths. *)
Definition lru_step (max_open : Z) (p : string) (l : list string) : list string :=
  let l' := filter (λ q, q ≠ p) l ++ [p] in
  if max_open <? Z.of_nat (length l') then drop 1 l' else l'.

(** The text of [path] on disk followed by what its open file still holds. *)
Definition logical_contents (st : LruAppendWriter * Disk) (path : string) : string :=
  file_contents st.2 path +:+ default "" (od_get path (_files st.1)).

(** Six writes to three paths. *)
Definition demo_calls : list (string * string) :=
  [("a", "1"); ("b", "2"); ("a", "3"); ("c", "4"); ("b", "5"); ("a", "6")].

(** The base names of the file pairs [main] looks for. *)
Definition input_categories : list string :=
  ["buildings"; "roads"; "natural"; "landuse"; "waterways"; "railways";
   "points"; "places"].

(** No category has both its vector and its attribute file. *)
Definition no_inputs (files : Files) (shape_dir : string) : Prop :=
  ∀ base, base ∈ input_categories →
    isfile files (path_join shape_dir (base +:+ ".shp"))
    && isfile files (path_join shape_dir (base +:+ ".dbf")) = false.

(** The test the railway pass makes on an attribute record. *)
Definition named_rail (dbf_rec : DbfRec) : Prop :=
  py_lower (rec_get dbf_rec "type") = "rail"
  ∧ py_strip (rec_get dbf_rec "name") ≠ "".

(** Two binary64 values that are the same but for the sign of a zero. *)
Definition sf_same (a b : spec_float) : Prop :=
  a = b ∨ ∃ s s', a = S754_zero s ∧ b = S754_zero s'.

Definition zsame (x y : float) : Prop := sf_same (Prim2SF x) (Prim2SF y).

(** ** Definitions for the further properties *)

(** The category [write_tile_jsons] files a fragment of each shape under. *)
Definition fragment_category (f : Fragment) : string :=
  match f with
  | Building _ _ => "buildings"
  | Road _ _ => "roads"
  | Water _ => "waters"
  | Landcover _ _ _ => "landcovers"
  | Waterway _ _ _ => "waterways"
  | Railway _ _ => "railways"
  | Poi _ _ _ => "pois"
  end.

(** The vertices of a fragment, and the fewest its category is emitted with. *)
Definition fragment_points (f : Fragment) : list Point :=
  match f with
  | Building _ vertices | Water vertices | Landcover _ _ vertices => vertices
  | Road _ points | Waterway _ _ points | Railway _ points => points
  | Poi _ _ position => [position]
  end.

Definition fragment_min_points (f : Fragment) : nat :=
  match f with
  | Building _ _ | Water _ | Landcover _ _ _ => 3
  | Road _ _ | Waterway _ _ _ | Railway _ _ => 2
  | Poi _ _ _ => 1
  end.

(** The values the attributes of a fragment can take. *)
Definition fragment_attributes_ok (f : Fragment) : Prop :=
  match f with
  | Building h _ => h ∈ [9; 10; 12; 15; 18; 24; 30]%float
  | Road w _ => w ∈ [2; 2.5; 4; 6; 8; 10; 12; 16; 18]%float
  | Water _ => True
  | Landcover kind density _ =>
      (kind = "forest" ∧ density = 800%float)
      ∨ (kind = "grass" ∧ density = 250%float)
  | Waterway _ w _ => PrimFloat.leb w 0 = false
  | Railway w _ => w = 4%float
  | Poi type _ _ => type ∈ ["station"; "subway_entrance"]
  end.

Record fragment_ok (a : Append) : Prop := {
  ok_category : category a = fragment_category (obj a);
  ok_points : (fragment_min_points (obj a) ≤ length (fragment_points (obj a)))%nat;
  ok_attributes : fragment_attributes_ok (obj a)
}.

(** *** Writing test attribute files *)

(** The descriptor of a character field. *)
Definition dbf_field_descriptor (name : string) (width : Z) : list byte :=
  take 11 (list_byte_of_string name ++ replicate 11 x00)
  ++ ["C"%byte] ++ replicate 4 x00 ++ le_bytes 1 width ++ replicate 15 x00.

(** An attribute file with character fields of the given widths; a row
    is the bytes of its values, each padded to the width of its field. *)
Definition dbf_file (fields : list (string * Z)) (rows : list (list byte))
    : list byte :=
  let header_len := 32 + 32 * Z.of_nat (length fields) + 1 in
  let record_len := 1 + foldr Z.add 0 fields.*2 in
  [x03] ++ replicate 3 x00 ++ le_bytes 4 (Z.of_nat (length rows))
  ++ le_bytes 2 header_len ++ le_bytes 2 record_len ++ replicate 20 x00
  ++ concat ((λ f, dbf_field_descriptor f.1 f.2) <$> fields) ++ [x0d]
  ++ concat ((λ row, " "%byte :: row) <$> rows).

(** A file with one Point record (shape type 1) at the doubles of bit
    patterns [x] and [y]. *)
Definition shp_one_point (x y : Z) : list byte :=
  replicate 100 x00
  ++ be_bytes 4 1 ++ be_bytes 4 10
  ++ le_bytes 4 1 ++ le_bytes 8 x ++ le_bytes 8 y.

(** The attributes of one road of type "primary". *)
Definition demo_roads_dbf : list byte :=
  dbf_file [("type", 8)] [list_byte_of_string "primary "].

(** A shape directory with one road of type "primary" (the two points of
    [shp_two_point_polygon], one degree apart) and one named suburb. *)
Definition demo_files : Files :=
  {[ "s/roads.shp" := shp_two_point_polygon;
     "s/roads.dbf" := demo_roads_dbf;
     "s/places.shp" := shp_one_point 0 0;
     "s/places.dbf" := dbf_file [("type", 8); ("name", 8)]
                         [list_byte_of_string "suburb  Aoba    "] ]}.

(** Origin at (0, 0) and tiles of 2^20 m, so that the road stays in one. *)
Definition demo_args : Args.t :=
  Args.mk "s" "out" 1048576 0 0 false false 12 500 0.8 false 200 500 12.

(** The run of [main] on [demo_files]. *)
Definition demo_run : option (Z * Output) :=
  main hypot_sqrt libm_stub libm_stub decimal_of_string decode_ascii_ignore
       demo_files demo_args None.

(** The vertices the loop of [split_polyline_by_tiles] has accounted for:
    the stored fragments end to end, then the open fragment but for the
    first vertex, which it shares with the last stored one. *)
Definition split_trace (st : SplitState) : list Point :=
  match emitted st with
  | [] => current_segment st
  | _ => concat (emitted st).*2 ++ drop 1 (current_segment st)
  end.

(** The input vertices [seen] so far are all in the trace, in order. *)
Record split_covers (st : SplitState) (seen : list Point) : Prop := {
  covers_nonempty : current_segment st ≠ [];
  covers_first : emitted st = [] → current_segment st = seen;
  covers_trace : sublist seen (split_trace st)
}.

(** A dict as [split_polyline_by_tiles] builds them. *)
Record dict_ok (d : TileDict) : Prop := {
  dict_keys : NoDup d.*1;
  dict_values : ∀ tile segs, (tile, segs) ∈ d →
                  segs ≠ [] ∧ ∀ seg, seg ∈ segs → (2 ≤ length seg)%nat
}.

(** A float that is not negative: a zero, a positive number, plus
    infinity or NaN. *)
Definition sf_not_negative (x : spec_float) : Prop :=
  match x with
  | S754_zero _ | S754_nan => True
  | S754_infinity s | S754_finite s _ _ => s = false
  end.


(** The declared field names of an attribute file. *)
Definition field_names (fields : list (string * byte * Z)) : gset string :=
  list_to_set ((λ f, f.1.1) <$> fields).

(** The place of a binary64 value in the order of [<], NaN apart: its
    sign class, then exponent and mantissa (the two zeros share a place). *)
Definition sf_rank (x : spec_float) : option (Z * Z * Z) :=
  match x with
  | S754_nan => None
  | S754_infinity true => Some (-2, 0, 0)
  | S754_finite true m e => Some (-1, - e, - Z.pos m)
  | S754_zero _ => Some (0, 0, 0)
  | S754_finite false m e => Some (1, e, Z.pos m)
  | S754_infinity false => Some (2, 0, 0)
  end.

Definition rank_lt (a b : Z * Z * Z) : Prop :=
  a.1.1 < b.1.1
  ∨ (a.1.1 = b.1.1 ∧ (a.1.2 < b.1.2 ∨ (a.1.2 = b.1.2 ∧ a.2 < b.2))).

(** [keep] is set at [s] and at [e] and nowhere between. *)
Definition consecutive_kept (keep : list bool) (s e : nat) : Prop :=
  (s < e)%nat ∧ keep !! s = Some true ∧ keep !! e = Some true
  ∧ ∀ i, (s < i < e)%nat → keep !! i = Some false.

(** A line of six vertices: two small wiggles, then a bend. *)
Definition zigzag : list Point :=
  [(0, 0); (1, 0.1); (2, -0.1); (3, 5); (4, 6); (5, 7)]%float.

Section Tolerance.
Variable math_hypot : float → float → float.

(** No vertex strictly between [s] and [e] is farther than [epsilon] from
    the chord from [pts[s]] to [pts[e]]. *)
Definition within_tolerance (pts : list Point) (epsilon : float) (s e : nat) : Prop :=
  ∀ i q a b, (s < i < e)%nat →
    pts !! i = Some q → pts !! s = Some a → pts !! e = Some b →
    ∃ d, point_line_distance math_hypot q a b = Some d ∧ Py.gt d epsilon = false.

(** What holds of the work stack and of the marks during the loop. *)
Record dp_inv (pts : list Point) (epsilon : float)
    (stack : list (nat * nat)) (keep : list bool) : Prop := {
  dp_length : length keep = length pts;
  dp_nodup : NoDup stack;
  dp_stack : ∀ s e, (s, e) ∈ stack → consecutive_kept keep s e;
  dp_settled : ∀ s e, consecutive_kept keep s e →
                 (s, e) ∈ stack ∨ within_tolerance pts epsilon s e
}.

End Tolerance.

(** ** The elevation tiles (tools/dem_to_tiles.py) *)

(** [l[i]] and [l[i] = v]: a negative index counts from the end, and an
    index out of range raises IndexError. *)
Definition py_index {A} (l : list A) (i : Z) : option nat :=
  let n := Z.of_nat (length l) in
  if (0 <=? i) && (i <? n) then Some (Z.to_nat i)
  else if (- n <=? i) && (i <? 0) then Some (Z.to_nat (i + n))
  else None.

Definition py_getitem {A} (l : list A) (i : Z) : option A :=
  k ← py_index l i; l !! k.

Definition py_setitem {A} (l : list A) (i : Z) (v : A) : option (list A) :=
  k ← py_index l i; Some (<[k := v]> l).

(** [range(n)]. *)
Definition py_range (n : Z) : list Z := Z.of_nat <$> seq 0 (Z.to_nat n).

(** [for x in xs: body], the body working on a state and able to raise. *)
Fixpoint for_each {A S} (body : A → S → option S) (xs : list A) (st : S)
    : option S :=
  match xs with
  | [] => Some st
  | x :: xs' => st' ← body x st; for_each body xs' st'
  end.

(** The Paeth predictor of the PNG decoder. *)
Definition _paeth (a b c : Z) : Z :=
  let p := a + b - c in
  let pa := Z.abs (p - a) in
  let pb := Z.abs (p - b) in
  let pc := Z.abs (p - c) in
  if (pa <=? pb) && (pa <=? pc) then a
  else if pb <=? pc then b
  else c.

Definition NO_DATA_SENTINEL : float := (-9999)%float.

(** [h != NO_DATA_SENTINEL]. *)
Definition has_data (h : float) : bool :=
  negb (PrimFloat.eqb h NO_DATA_SENTINEL).

(** [(dr, dc)] in the order of the loops over [(-1, 0, 1)], the cell
    itself left out. *)
Definition neighbour_offsets : list (Z * Z) :=
  [(-1, -1); (-1, 0); (-1, 1); (0, -1); (0, 1); (1, -1); (1, 0); (1, 1)].

(** The two loops over [dr] and [dc]: the sum and the number of the
    neighbours that have data. *)
Fixpoint neighbour_sum (heights : list float) (grid_w grid_h row col : Z)
    (offsets : list (Z * Z)) (total : float) (count : Z) : option (float * Z) :=
  match offsets with
  | [] => Some (total, count)
  | (dr, dc) :: offsets' =>
      let nr := row + dr in
      let nc := col + dc in
      if (0 <=? nr) && (nr <? grid_h) && (0 <=? nc) && (nc <? grid_w) then
        nv ← py_getitem heights (nr * grid_w + nc);
        if has_data nv
        then neighbour_sum heights grid_w grid_h row col offsets'
               (total + nv)%float (count + 1)
        else neighbour_sum heights grid_w grid_h row col offsets' total count
      else neighbour_sum heights grid_w grid_h row col offsets' total count
  end.

(** The body of the loop over [col], on [(heights, changed)]. *)
Definition fill_cell (grid_w grid_h row col : Z) (st : list float * bool)
    : option (list float * bool) :=
  let idx := row * grid_w + col in
  v ← py_getitem st.1 idx;
  if has_data v then Some st
  else
    tc ← neighbour_sum st.1 grid_w grid_h row col neighbour_offsets 0 0;
    if 0 <? tc.2 then
      q ← Py.truediv tc.1 (Py.of_int tc.2);
      heights ← py_setitem st.1 idx q;
      Some (heights, true)
    else Some st.

(** One sweep over the grid, [changed] starting at [False]. *)
Definition fill_pass (grid_w grid_h : Z) (heights : list float)
    : option (list float * bool) :=
  for_each (λ row, for_each (fill_cell grid_w grid_h row) (py_range grid_w))
           (py_range grid_h) (heights, false).

(** [for iteration in range(3)], [n] sweeps left, with its [break]. *)
Fixpoint fill_sweeps (n : nat) (grid_w grid_h : Z) (heights : list float)
    : option (list float) :=
  match n with
  | O => Some heights
  | S n' =>
      r ← fill_pass grid_w grid_h heights;
      if negb r.2 then Some r.1 else fill_sweeps n' grid_w grid_h r.1
  end.

(** The final pass: what is still without data becomes 0. *)
Definition fill_remaining (heights : list float) : list float :=
  (λ h, if PrimFloat.eqb h NO_DATA_SENTINEL then 0%float else h) <$> heights.

(** [fill_nodata]: the list it leaves in [heights]; [None] is an IndexError. *)
Definition fill_nodata (heights : list float) (grid_w grid_h : Z)
    : option (list float) :=
  fill_remaining <$> fill_sweeps 3 grid_w grid_h heights.

(** [now] has the length of [before] and every sample of [before] that
    had data is still there. *)
Definition keeps_data (before now : list float) : Prop :=
  length now = length before
  ∧ ∀ i v, before !! i = Some v → has_data v = true → now !! i = Some v.

(** A 2 x 2 grid with one sample missing. *)
Definition grid_with_hole : list float := [10; -9999; 30; 50]%float.

(** ** The overview image (tools/generate_map_image.py) *)

(** [range(a, b)]. *)
Definition py_range_from (a b : Z) : list Z :=
  (λ k, a + Z.of_nat k) <$> seq 0 (Z.to_nat (b - a)).

(** [pixels[i] = v] on a bytearray: ValueError unless [v] is a byte. *)
Definition bytearray_set (pixels : list Z) (i v : Z) : option (list Z) :=
  if (0 <=? v) && (v <? 256) then py_setitem pixels i v else None.

Definition set_pixel (pixels : list Z) (width x y r g b : Z) : option (list Z) :=
  if (0 <=? x) && (x <? width) then
    let idx := (y * width + x) * 3 in
    p1 ← bytearray_set pixels idx r;
    p2 ← bytearray_set p1 (idx + 1) g;
    bytearray_set p2 (idx + 2) b
  else Some pixels.

(** The test both [draw_line] and [fill_rect] make before [set_pixel]. *)
Definition in_image (width height x y : Z) : bool :=
  (0 <=? x) && (x <? width) && (0 <=? y) && (y <? height).

Definition fill_rect (pixels : list Z) (width height cx cy radius r g b : Z)
    : option (list Z) :=
  for_each (λ dy,
    for_each (λ dx pixels,
      let px := cx + dx in
      let py := cy + dy in
      if in_image width height px py
      then set_pixel pixels width px py r g b
      else Some pixels)
      (py_range_from (- radius) (radius + 1)))
    (py_range_from (- radius) (radius + 1)) pixels.

(** [while True:] of [draw_line], on [(x0, y0, err)]; [None] is an
    exception, or the fuel running out ([draw_line_returns] shows that
    the fuel [draw_line] gives is never used up). *)
Fixpoint draw_line_loop (fuel : nat) (pixels : list Z)
    (width height x0 y0 x1 y1 dx dy sx sy err r g b : Z) : option (list Z) :=
  match fuel with
  | O => None
  | S fuel' =>
      pixels1 ← (if in_image width height x0 y0
                 then set_pixel pixels width x0 y0 r g b
                 else Some pixels);
      if (x0 =? x1) && (y0 =? y1) then Some pixels1
      else
        let e2 := 2 * err in
        let '(err1, x0') := if - dy <? e2 then (err - dy, x0 + sx) else (err, x0) in
        let '(err2, y0') := if e2 <? dx then (err1 + dx, y0 + sy) else (err1, y0) in
        draw_line_loop fuel' pixels1 width height x0' y0' x1 y1 dx dy sx sy
          err2 r g b
  end.

Definition draw_line (pixels : list Z) (width height x0 y0 x1 y1 r g b : Z)
    : option (list Z) :=
  let dx := Z.abs (x1 - x0) in
  let dy := Z.abs (y1 - y0) in
  let sx := if x0 <? x1 then 1 else -1 in
  let sy := if y0 <? y1 then 1 else -1 in
  let err := dx - dy in
  draw_line_loop (S (Z.to_nat (dx + dy))) pixels width height x0 y0 x1 y1
    dx dy sx sy err r g b.

(** The three bytes of the pixel [(x, y)]. *)
Definition pixel_at (pixels : list Z) (width x y : Z) : option (Z * Z * Z) :=
  let idx := Z.to_nat ((y * width + x) * 3) in
  r ← pixels !! idx; g ← pixels !! S idx; b ← pixels !! S (S idx);
  Some (r, g, b).

(** [after] is [before] with some pixels of the region [S] set to
    [color], the pixels that had that colour keeping it. *)
Record painted (width height : Z) (color : Z * Z * Z) (S : Z → Z → Prop)
    (before after : list Z) : Prop := {
  painted_length : length after = length before;
  painted_pixels : ∀ x y, in_image width height x y = true →
    (S x y ∧ pixel_at after width x y = Some color)
    ∨ pixel_at after width x y = pixel_at before width x y;
  painted_stays : ∀ x y, in_image width height x y = true →
    pixel_at before width x y = Some color →
    pixel_at after width x y = Some color
}.

(** A buffer of the size of the image. *)
Definition image_buffer (width height : Z) (pixels : list Z) : Prop :=
  0 ≤ width ∧ 0 ≤ height ∧ Z.of_nat (length pixels) = 3 * width * height.

Definition is_byte (v : Z) : Prop := 0 ≤ v < 256.

(** The pixels [draw_line] may paint on the way from [(x0, y0)] to
    [(x1, y1)]: in the box of the two ends, and within half a step of the
    segment. *)
Definition near_line (x0 y0 x1 y1 x y : Z) : Prop :=
  let dx := Z.abs (x1 - x0) in
  let dy := Z.abs (y1 - y0) in
  Z.min x0 x1 ≤ x ≤ Z.max x0 x1
  ∧ Z.min y0 y1 ≤ y ≤ Z.max y0 y1
  ∧ 2 * Z.abs (Z.abs (y - y0) * dx - Z.abs (x - x0) * dy) ≤ Z.max dx dy.

(** The square [fill_rect] is to fill. *)
Definition in_square (cx cy radius x y : Z) : Prop :=
  Z.abs (x - cx) ≤ radius ∧ Z.abs (y - cy) ≤ radius.

(** A white image of 4 by 3 pixels. *)
Definition white_image : list Z := replicate 36%nat 255.

(** ** The names of the fragment files (tools/shp_to_tiles.py) *)

(** [str(n)] of an int, as an f-string formats it. *)
Definition py_str_int (n : Z) : string :=
  DecimalString.NilZero.string_of_int (Z.to_int n).

(** The decimal reading of [int(s)], the stand-in of the closed examples. *)
Definition int_of_decimal (s : string) : option Z :=
  Z.of_int <$> DecimalString.NilZero.int_of_string s.

(** [c in s] for a character. *)
Fixpoint has_char (c : ascii) (s : string) : bool :=
  match s with
  | EmptyString => false
  | String a s' => Ascii.eqb a c || has_char c s'
  end.

(** [s.split(sep)] for a separator of one character. *)
Fixpoint py_split (sep : ascii) (s : string) : list string :=
  match s with
  | EmptyString => [EmptyString]
  | String a s' =>
      if Ascii.eqb a sep then EmptyString :: py_split sep s'
      else match py_split sep s' with
           | part :: parts => String a part :: parts
           | [] => [String a EmptyString]
           end
  end.

(** [s.endswith(suffix)]. *)
Definition endswith (s suffix : string) : bool :=
  (String.length suffix <=? String.length s)%nat
  && String.eqb
       (substring (String.length s - String.length suffix)
          (String.length suffix) s)
       suffix.

(** [s[:-n]] for [n > 0]. *)
Definition py_drop_last (n : nat) (s : string) : string :=
  substring 0 (String.length s - n) s.

(** The file name in [append]: [f"{category}_{tx}_{ty}.jsonl"]. *)
Definition fragment_file_name (category : string) (tx ty : Z) : string :=
  category +:+ "_" +:+ py_str_int tx +:+ "_" +:+ py_str_int ty +:+ ".jsonl".

Section WriteTileJsons.
Variable py_int : string → option Z.

(** What the first loop of [write_tile_jsons] reads off a file name:
    [Some None] when it skips the name, [None] when [int] raises
    ValueError. *)
Definition parse_fragment_name (fn : string)
    : option (option (string * Z * Z)) :=
  if negb (endswith fn ".jsonl") then Some None
  else
    let parts := py_split "_" (py_drop_last 6 fn) in
    if (length parts <? 3)%nat then Some None
    else
      category ← parts !! 0%nat;
      p1 ← parts !! 1%nat;
      p2 ← parts !! 2%nat;
      tx ← py_int p1;
      ty ← py_int p2;
      Some (Some (category, tx, ty)).

(** [tiles.setdefault((tx, ty), {})[category] = os.path.join(tmp_dir, fn)]
    for one name of [os.listdir(tmp_dir)]. *)
Definition gather_fragment (tmp_dir : string) (fn : string)
    (tiles : gmap (Z * Z) (gmap string string))
    : option (gmap (Z * Z) (gmap string string)) :=
  parsed ← parse_fragment_name fn;
  match parsed with
  | None => Some tiles
  | Some (category, tx, ty) =>
      let cat_files := default ∅ (tiles !! (tx, ty)) in
      Some (<[(tx, ty) := <[category := path_join tmp_dir fn]> cat_files]> tiles)
  end.

(** The first loop of [write_tile_jsons], on the names [os.listdir]
    gives. *)
Definition gather_fragments (tmp_dir : string) (names : list string)
    : option (gmap (Z * Z) (gmap string string)) :=
  for_each (gather_fragment tmp_dir) names ∅.

End WriteTileJsons.

(** What the first loop of [write_tile_jsons] should hold after the
    fragments [apps] (category and tile) were appended under [tmp_dir]:
    each fragment's file under its tile and category, and nothing else. *)
Definition gathered (tmp_dir : string) (apps : list (string * Z * Z))
    (tiles : gmap (Z * Z) (gmap string string)) : Prop :=
  (∀ c tx ty, (c, tx, ty) ∈ apps →
     ∃ cat_files, tiles !! (tx, ty) = Some cat_files
       ∧ cat_files !! c = Some (path_join tmp_dir (fragment_file_name c tx ty)))
  ∧ (∀ tx ty cat_files, tiles !! (tx, ty) = Some cat_files →
       (∃ c, is_Some (cat_files !! c))
       ∧ ∀ c p, cat_files !! c = Some p → (c, tx, ty) ∈ apps).

(** Three fragments of two tiles. *)
Definition demo_appends : list (string * Z * Z) :=
  [("roads", -3, 12); ("buildings", 0, 0); ("roads", 0, 0)].

(** ** The overview image: filled polygons (tools/generate_map_image.py) *)

(** [range(start, stop, step)] for a positive [step]. *)
Definition py_range_step (start stop step : Z) : list Z :=
  (λ k, start + step * Z.of_nat k)
  <$> seq 0 (Z.to_nat ((stop - start + step - 1) / step)).

(** [min(...)] and [max(...)] of a generator of ints: ValueError when it
    is empty. *)
Definition py_min (l : list Z) : option Z :=
  match l with
  | [] => None
  | x :: xs => Some (foldl Z.min x xs)
  end.

Definition py_max (l : list Z) : option Z :=
  match l with
  | [] => None
  | x :: xs => Some (foldl Z.max x xs)
  end.

(** The inner loop of [fill_scanline]: where the edges cross the row
    [y]. *)
Definition scan_intersections (points : list (Z * Z)) (y : Z)
    : option (list Z) :=
  let n := Z.of_nat (length points) in
  for_each (λ i intersections,
    let j := (i + 1) `mod` n in
    pi ← py_getitem points i;
    pj ← py_getitem points j;
    let yi := pi.2 in
    let yj := pj.2 in
    if yi =? yj then Some intersections
    else
      let '(yi, yj, xi, xj) :=
        if yj <? yi then (yj, yi, pj.1, pi.1) else (yi, yj, pi.1, pj.1) in
      if (yi <=? y) && (y <? yj)
      then Some (intersections ++ [xi + ((y - yi) * (xj - xi)) `div` (yj - yi)])
      else Some intersections)
    (py_range n) [].

(** [intersections.sort()] gives the ascending arrangement of the ints,
    as [merge_sort] does. *)
Definition fill_scanline (pixels : list Z) (width height : Z)
    (points : list (Z * Z)) (r g b : Z) : option (list Z) :=
  if (length points <? 3)%nat then Some pixels
  else
    lo ← py_min (points.*2);
    hi ← py_max (points.*2);
    let min_y := Z.max 0 lo in
    let max_y := Z.min (height - 1) hi in
    for_each (λ y pixels,
      intersections ← scan_intersections points y;
      let intersections := merge_sort Z.le intersections in
      for_each (λ k pixels,
        ik ← py_getitem intersections k;
        ik1 ← py_getitem intersections (k + 1);
        let xa := Z.max 0 ik in
        let xb := Z.min (width - 1) ik1 in
        for_each (λ x pixels, set_pixel pixels width x y r g b)
          (py_range_from xa (xb + 1)) pixels)
        (py_range_step 0 (Z.of_nat (length intersections) - 1) 2) pixels)
      (py_range_from min_y (max_y + 1)) pixels.

(** The pixels in the box of the points, its last row left out. *)
Definition in_points_box (points : list (Z * Z)) (x y : Z) : Prop :=
  (∃ p, p ∈ points ∧ p.1 ≤ x) ∧ (∃ p, p ∈ points ∧ x ≤ p.1)
  ∧ (∃ p, p ∈ points ∧ p.2 ≤ y) ∧ (∃ p, p ∈ points ∧ y < p.2).

(** A triangle that sticks out of the 4 by 3 image. *)
Definition demo_triangle : list (Z * Z) := [(0, 0); (5, 0); (2, 4)].

(** ** The names of the tile files, written by tools/shp_to_tiles.py and
    read by tools/dem_to_tiles.py and tools/generate_map_image.py *)

(** The file name in [write_tile_jsons]: [f"tile_0_{tx}_{ty}.json"]. *)
Definition tile_file_name (tx ty : Z) : string :=
  "tile_0_" +:+ py_str_int tx +:+ "_" +:+ py_str_int ty +:+ ".json".

(** [s.startswith(prefix)]. *)
Definition startswith (s prefix : string) : bool :=
  String.eqb (substring 0 (String.length prefix) s) prefix.

(** The order of [tiles.sort()] on pairs of ints. *)
Definition tile_le (a b : Z * Z) : Prop :=
  a.1 < b.1 ∨ (a.1 = b.1 ∧ a.2 ≤ b.2).

#[global] Instance tile_le_dec (a b : Z * Z) : Decision (tile_le a b) :=
  ltac:(unfold tile_le; apply _).

Section TileFiles.
Variable py_int : string → option Z.

(** One round of the loop of [discover_tiles] (dem_to_tiles.py); a
    ValueError of [int] is caught and the name skipped. *)
Definition discover_tile (fn : string) (tiles : list (Z * Z))
    : list (Z * Z) :=
  if negb (startswith fn "tile_0_") || negb (endswith fn ".json")
  then tiles
  else
    let parts := py_split "_" (py_drop_last 5 fn) in
    if negb (length parts =? 4)%nat then tiles
    else
      match p2 ← parts !! 2%nat; p3 ← parts !! 3%nat;
            tx ← py_int p2; ty ← py_int p3; Some (tx, ty) with
      | Some tile => tiles ++ [tile]
      | None => tiles
      end.

(** [discover_tiles], on what [os.listdir(tiles_dir)] gives; [None] when
    [tiles_dir] is no directory. *)
Definition discover_tiles (listing : option (list string)) : list (Z * Z) :=
  match listing with
  | None => []
  | Some names =>
      merge_sort tile_le (foldl (λ tiles fn, discover_tile fn tiles) [] names)
  end.

(** One round of the scan of [tiles_dir] in [main] of
    generate_map_image.py; here a ValueError of [int] is not caught. *)
Definition scan_tile_file (tiles_dir : string) (fn : string)
    (tile_files : list (Z * Z * string)) : option (list (Z * Z * string)) :=
  if negb (startswith fn "tile_0_") || negb (endswith fn ".json")
  then Some tile_files
  else
    let parts := py_split "_" (py_drop_last 5 fn) in
    if (length parts <? 4)%nat then Some tile_files
    else
      p2 ← parts !! 2%nat;
      p3 ← parts !! 3%nat;
      tx ← py_int p2;
      ty ← py_int p3;
      Some (tile_files ++ [(tx, ty, path_join tiles_dir fn)]).

Definition scan_tile_files (tiles_dir : string) (names : list string)
    : option (list (Z * Z * string)) :=
  for_each (scan_tile_file tiles_dir) names [].

End TileFiles.

(** Three tiles, out of order. *)
Definition demo_tiles : list (Z * Z) := [(0, 1); (-3, 12); (0, -2)].

(** ** The elevation of a pixel (tools/dem_to_tiles.py) *)

(** [x * y] for an int [x] and a float [y]: OverflowError when [x] does
    not round to a finite float. *)
Definition int_times_float (x : Z) (y : float) : option float :=
  if Z.abs x <? 2 ^ 1024 - 2 ^ 970 then Some (Py.of_int x * y)%float
  else None.

Definition rgb_to_elevation (r g b : Z) : option float :=
  if (r =? 128) && (g =? 0) && (b =? 0) then Some NO_DATA_SENTINEL
  else
    let x := Z.lor (Z.lor (Z.shiftl r 16) (Z.shiftl g 8)) b in
    let x := if Z.shiftl 1 23 <=? x then x - Z.shiftl 1 24 else x in
    int_times_float x 0.01.

(** * Theorems *)

(** ** Tile partitioner *)

Lemma elem_of_removelast {A} (l : list A) (x : A) : x ∈ removelast l → x ∈ l.
Proof.
  induction l as [|a l IH]; [done|].
  destruct l as [|b l]; [intros H; inversion H|].
  change (removelast (a :: b :: l)) with (a :: removelast (b :: l)).
  intros [->|H]%elem_of_cons; [left|right; by apply IH].
Qed.

Lemma removelast_snoc {A} (l : list A) (x : A) : removelast (l ++ [x]) = l.
Proof. apply removelast_last. Qed.

Lemma dict_append_elem tile segment d t segs seg :
  (t, segs) ∈ dict_append tile segment d → seg ∈ segs →
  (t = tile ∧ seg = segment) ∨ ∃ segs', (t, segs') ∈ d ∧ seg ∈ segs'.
Proof.
  induction d as [|[k v] d IH]; simpl.
  - intros [= -> ->]%list_elem_of_singleton ->%list_elem_of_singleton. by left.
  - case_decide as Hk.
    + rewrite elem_of_cons. intros [[= -> ->]|Hin] Hs.
      * apply elem_of_app in Hs as [Hs| ->%list_elem_of_singleton]; [|by left].
        right. exists v. split; [left|done].
      * right. exists segs. split; [by right|done].
    + rewrite elem_of_cons. intros [[= -> ->]|Hin] Hs.
      * right. exists v. split; [left|done].
      * destruct (IH Hin Hs) as [?|(segs' & ? & ?)]; [by left|].
        right. exists segs'. split; [by right|done].
Qed.



Lemma replay_elem log t segs seg :
  (t, segs) ∈ replay log → seg ∈ segs → (t, seg) ∈ log.
Proof.
  unfold replay. revert segs.
  induction log as [|e log IH] using rev_ind; intros segs; simpl.
  - intros H; inversion H.
  - rewrite foldl_app. simpl. intros Hin Hs.
    destruct (dict_append_elem _ _ _ _ _ _ Hin Hs) as [[-> ->]|(segs' & ? & ?)].
    + apply elem_of_app. right. destruct e. by apply list_elem_of_singleton.
    + apply elem_of_app. left. by eapply IH.
Qed.

Lemma add_segment_consistent t s st :
  log_consistent st → log_consistent (add_segment t s st).
Proof.
  unfold log_consistent, add_segment. intros H. case_bool_decide; [|done].
  simpl. unfold replay in *. by rewrite foldl_app, <- H.
Qed.

Lemma cut_at_consistent pt tile st :
  log_consistent st → log_consistent (cut_at pt tile st).
Proof.
  intros H. unfold cut_at.
  pose proof (add_segment_consistent
    (current_tile (push_point pt st)) (current_segment (push_point pt st))
    (push_point pt st) H) as H'.
  exact H'.
Qed.


Lemma chained_snoc log t s :
  chained log → (∀ e, last log = Some e → last e.2 = head s) →
  chained (log ++ [(t, s)]).
Proof.
  intros Hc Hl i f g Hf Hg.
  destruct (decide (S i < length log)%nat) as [Hlt|Hge].
  - rewrite lookup_app_l in Hf by lia.
    rewrite lookup_app_l in Hg by lia. eauto.
  - assert (S i = length log) as Hi.
    { apply lookup_lt_Some in Hg. rewrite length_app in Hg. simpl in Hg.
      lia. }
    rewrite lookup_app_l in Hf by lia.
    rewrite lookup_app_r in Hg by lia.
    replace (S i - length log)%nat with 0%nat in Hg by lia.
    simpl in Hg. injection Hg as <-. simpl. apply Hl.
    rewrite last_lookup. rewrite <- Hi. exact Hf.
Qed.



Lemma log_ok_snoc ts log t s :
  log_ok ts log →
  (∀ p, p ∈ removelast s → tile_of p ts = Some t) →
  (2 ≤ length s)%nat →
  (∀ e, last log = Some e → last e.2 = head s) →
  log_ok ts (log ++ [(t, s)]).
Proof.
  intros [H1 H2 H3] Ht Hs Hj. split.
  - intros t' seg p [Hin|[= -> ->]%list_elem_of_singleton]%elem_of_app; eauto.
  - intros e [Hin| ->%list_elem_of_singleton]%elem_of_app; eauto.
  - by apply chained_snoc.
Qed.

Lemma head_snoc_nonempty {A} (l : list A) (x : A) : l ≠ [] → head (l ++ [x]) = head l.
Proof. by destruct l. Qed.

Lemma split_inv_init ts p0 t0 :
  tile_of p0 ts = Some t0 → split_inv ts (mkSplit [] [] [p0] t0).
Proof.
  intros H. split; simpl.
  - done.
  - split.
    + intros t seg p Hin. inversion Hin.
    + intros e Hin. inversion Hin.
    + intros i f g Hl. by rewrite lookup_nil in Hl.
  - done.
  - by intros p ->%list_elem_of_singleton.
  - done.
Qed.

Lemma push_point_inv ts pt st :
  split_inv ts st → tile_of pt ts = Some (current_tile st) →
  split_inv ts (push_point pt st).
Proof.
  intros [H1 H2 H3 H4 H5] Ht. split; simpl; try done.
  - by destruct (current_segment st).
  - intros p [?| ->%list_elem_of_singleton]%elem_of_app; eauto.
  - intros e He. rewrite head_snoc_nonempty by done. eauto.
Qed.

Lemma cut_at_inv ts pt tile st :
  split_inv ts st → tile_of pt ts = Some tile →
  split_inv ts (cut_at pt tile st).
Proof.
  intros [H1 H2 H3 H4 H5] Ht.
  assert (2 ≤ length (current_segment st ++ [pt]))%nat as Hlen.
  { rewrite length_app. simpl. destruct (current_segment st); [done|simpl; lia]. }
  unfold cut_at, add_segment. simpl.
  rewrite bool_decide_eq_true_2 by done. split; simpl.
  - unfold log_consistent, replay in *. simpl. by rewrite foldl_app, <- H1.
  - apply log_ok_snoc; try done.
    + intros p. rewrite removelast_snoc. apply H4.
    + intros e He. rewrite head_snoc_nonempty by done. eauto.
  - done.
  - by intros p ->%list_elem_of_singleton.
  - intros e. rewrite last_snoc. intros [= <-]. simpl. by rewrite last_snoc.
Qed.

Lemma interp_steps_inv ts prev_pt curr_pt num_steps n step st st' :
  split_inv ts st →
  interp_steps ts prev_pt curr_pt num_steps n step st = Some st' →
  split_inv ts st'.
Proof.
  revert step st. induction n as [|n IH]; intros step st Hinv; simpl.
  - by intros [= <-].
  - destruct (tile_of _ ts) as [interp_tile|] eqn:Ht; simpl; [|done].
    apply IH. case_decide; [done|]. by apply cut_at_inv.
Qed.

Lemma split_step_inv hyp ts prev_pt curr_pt st st' :
  split_inv ts st →
  split_step hyp ts prev_pt curr_pt st = Some st' →
  split_inv ts st'.
Proof.
  intros Hinv. unfold split_step.
  destruct (tile_of curr_pt ts) as [curr_tile|] eqn:Ht; simpl; [|done].
  case_decide as Hsame.
  { intros [= <-]. apply push_point_inv; [done|]. by rewrite <- Hsame. }
  match goal with |- context [mbind _ ?m] => destruct m as [st1|] eqn:Hst1 end;
    simpl; [|done].
  assert (split_inv ts st1) as Hinv1.
  { destruct (Py.gt _ _); [|by injection Hst1 as <-].
    destruct (Py.truediv _ _) as [q|]; simpl in Hst1; [|done].
    destruct (Py.int q) as [k|]; simpl in Hst1; [|done].
    by eapply interp_steps_inv. }
  case_decide as Hsame1; intros [= <-].
  - apply push_point_inv; [done|]. by rewrite <- Hsame1.
  - by apply cut_at_inv.
Qed.

Lemma split_loop_inv hyp ts prev_pt rest st st' :
  split_inv ts st →
  split_loop hyp ts prev_pt rest st = Some st' →
  split_inv ts st'.
Proof.
  revert prev_pt st. induction rest as [|curr_pt rest IH]; intros prev_pt st Hinv; simpl.
  - by intros [= <-].
  - destruct (split_step hyp ts prev_pt curr_pt st) as [st1|] eqn:Hs; simpl; [|done].
    apply IH. by eapply split_step_inv.
Qed.

Lemma split_run_ok hyp pts ts st :
  split_run hyp pts ts = Some st →
  log_consistent st ∧ log_ok ts (emitted st).
Proof.
  unfold split_run. destruct pts as [|p0 rest]; [done|].
  destruct (tile_of p0 ts) as [t0|] eqn:Ht0; simpl; [|done].
  destruct (split_loop _ _ _ _ _) as [st1|] eqn:Hl; simpl; [|done].
  intros [= <-].
  pose proof (split_loop_inv _ _ _ _ _ _ (split_inv_init _ _ _ Ht0) Hl)
    as [H1 H2 H3 H4 H5].
  split; [by apply add_segment_consistent|].
  unfold add_segment. case_bool_decide; [|done]. simpl.
  apply log_ok_snoc; try done.
  intros p Hp%elem_of_removelast. by apply H4.
Qed.

(** C1, as stated, fails on the claim's own scenario: the fragment stored
    under tile (0,0) ends at the first cut point, which lies in tile (1,0). *)
Lemma split_road3000_not_confined :
  ∃ d, split_polyline_by_tiles hypot_sqrt road3000 1000%float = Some d
       ∧ ¬ fragments_confined 1000%float d.
Proof.
  eexists. split; [vm_compute; reflexivity|].
  intros H.
  specialize (H (0, 0) [[(0, 0)%float; road3000_cut1]]
                [(0, 0)%float; road3000_cut1] road3000_cut1).
  assert (tile_of road3000_cut1 1000%float = Some (1, 0)) as Ht
    by (vm_compute; reflexivity).
  rewrite Ht in H. discriminate H.
  - vm_compute. apply list_elem_of_here.
  - apply list_elem_of_here.
  - right. apply list_elem_of_here.
Qed.

(** C1 (amended): every vertex of an emitted fragment other than its last
    one lies in the tile the fragment is keyed to; the last vertex of a
    fragment that is followed by another one is the point they share, and
    lies in the tile of the later fragment.  The 3000 m road gives exactly
    three fragments, keyed (0,0), (1,0), (2,0), each ending at a vertex of
    the next tile. *)
Theorem split_fragments_confined_but_last :
  (∀ math_hypot pts tile_size d tile segs seg p,
     split_polyline_by_tiles math_hypot pts tile_size = Some d →
     (tile, segs) ∈ d → seg ∈ segs → p ∈ removelast seg →
     tile_of p tile_size = Some tile)
  ∧ (∀ math_hypot pts tile_size log i f g,
       split_emitted math_hypot pts tile_size = Some log →
       log !! i = Some f → log !! S i = Some g →
       ∃ p, last f.2 = Some p ∧ tile_of p tile_size = Some g.1)
  ∧ split_polyline_by_tiles hypot_sqrt road3000 1000%float =
      Some [((0, 0), [[(0, 0)%float; road3000_cut1]]);
            ((1, 0), [[road3000_cut1; road3000_cut2]]);
            ((2, 0), [[road3000_cut2; (3000, 0)%float]])]
  ∧ tile_of road3000_cut1 1000%float = Some (1, 0)
  ∧ tile_of road3000_cut2 1000%float = Some (2, 0)
  ∧ tile_of (3000, 0)%float 1000%float = Some (3, 0).
Proof.
  split; [|split; [|repeat split; vm_compute; reflexivity]].
  - intros hyp pts ts d tile segs seg p Hd Hin Hseg Hp.
    unfold split_polyline_by_tiles in Hd. case_bool_decide.
    { injection Hd as <-. inversion Hin. }
    destruct (split_run hyp pts ts) as [st|] eqn:Hrun; [|done].
    injection Hd as <-.
    apply split_run_ok in Hrun as [Hc [Ht _ _]].
    rewrite Hc in Hin. eapply Ht; [|done]. by eapply replay_elem.
  - intros hyp pts ts log i f g Hlog Hf Hg.
    unfold split_emitted in Hlog. case_bool_decide.
    { injection Hlog as <-. by rewrite lookup_nil in Hf. }
    destruct (split_run hyp pts ts) as [st|] eqn:Hrun; [|done].
    injection Hlog as <-.
    apply split_run_ok in Hrun as [_ [Ht Hs Hch]].
    pose proof (Hch i f g Hf Hg) as Heq.
    pose proof (Hs g (list_elem_of_lookup_2 _ _ _ Hg)) as Hlen.
    destruct g as [tg [|p [|q rest]]]; simpl in *; try lia.
    exists p. split; [done|].
    apply (Ht tg (p :: q :: rest) p); [by eapply list_elem_of_lookup_2|left].
Qed.

Lemma split_fragments_confined_but_last_witness :
  tile_of (0, 0)%float 1000%float = Some (0, 0).
Proof.
  apply (proj1 split_fragments_confined_but_last hypot_sqrt road3000 1000%float
           [((0, 0), [[(0, 0)%float; road3000_cut1]]);
            ((1, 0), [[road3000_cut1; road3000_cut2]]);
            ((2, 0), [[road3000_cut2; (3000, 0)%float]])]
           (0, 0) [[(0, 0)%float; road3000_cut1]] [(0, 0)%float; road3000_cut1]).
  - vm_compute. reflexivity.
  - apply list_elem_of_here.
  - apply list_elem_of_here.
  - simpl. apply list_elem_of_here.
Defined.

(** C2: in the order [add_segment] stored them, each fragment ends at the
    very point the next one starts with; the returned dict is that log
    grouped by tile. *)
Theorem split_consecutive_share_endpoint :
  ∀ math_hypot pts tile_size log,
    split_emitted math_hypot pts tile_size = Some log →
    split_polyline_by_tiles math_hypot pts tile_size = Some (replay log)
    ∧ ∀ i f g, log !! i = Some f → log !! S i = Some g →
        ∃ p, last f.2 = Some p ∧ head g.2 = Some p.
Proof.
  intros hyp pts ts log. unfold split_emitted, split_polyline_by_tiles.
  case_bool_decide.
  { intros [= <-]. split; [done|]. intros i f g Hf. by rewrite lookup_nil in Hf. }
  destruct (split_run hyp pts ts) as [st|] eqn:Hrun; [|done].
  simpl. intros [= <-].
  apply split_run_ok in Hrun as [Hc [_ Hs Hch]].
  split; [by rewrite Hc|].
  intros i f g Hf Hg. pose proof (Hch i f g Hf Hg) as Heq.
  assert (2 ≤ length g.2)%nat as Hlen.
  { apply Hs. by eapply list_elem_of_lookup_2. }
  destruct (g.2) as [|p rest]; [simpl in Hlen; lia|].
  exists p. by rewrite Heq.
Qed.

Lemma split_consecutive_share_endpoint_witness :
  ∃ p, last [(0, 0)%float; road3000_cut1] = Some p
       ∧ head [road3000_cut1; road3000_cut2] = Some p.
Proof.
  apply (proj2 (split_consecutive_share_endpoint hypot_sqrt road3000 1000%float
           [((0, 0), [(0, 0)%float; road3000_cut1]);
            ((1, 0), [road3000_cut1; road3000_cut2]);
            ((2, 0), [road3000_cut2; (3000, 0)%float])]
           ltac:(vm_compute; reflexivity)) 0%nat
           ((0, 0), [(0, 0)%float; road3000_cut1])
           ((1, 0), [road3000_cut1; road3000_cut2]));
    reflexivity.
Defined.

(** ** Point in polygon *)

Lemma drop_last_snoc {A} (l : list A) (x : A) : drop_last (l ++ [x]) = l.
Proof.
  unfold drop_last. rewrite length_app. simpl.
  replace (length l + 1 - 1)%nat with (length l) by lia.
  apply take_app_length.
Qed.

Lemma pip_loop_app p vj l1 l2 inside :
  pip_loop p vj (l1 ++ l2) inside =
  b ← pip_loop p vj l1 inside; pip_loop p (default vj (last l1)) l2 b.
Proof.
  revert vj inside. induction l1 as [|vi l1 IH]; intros vj inside; [done|].
  simpl. destruct (edge_crosses p vi vj) as [c|]; simpl; [|done].
  rewrite IH. destruct (pip_loop p vi l1 _); simpl; [|done].
  destruct l1 as [|x l1 _] using rev_ind; [reflexivity|].
  by rewrite app_comm_cons, !last_snoc.
Qed.

Lemma pip_loop_parity p vj l inside :
  pip_loop p vj l inside = c ← pip_loop p vj l false; Some (xorb inside c).
Proof.
  revert vj inside. induction l as [|vi l IH]; intros vj inside; simpl.
  - by destruct inside.
  - destruct (edge_crosses p vi vj) as [c|]; simpl; [|done].
    destruct c; simpl.
    + rewrite IH, (IH vi true).
      destruct (pip_loop p vi l false) as [b|]; simpl; [|done].
      by destruct inside, b.
    + by rewrite IH.
Qed.

Lemma edge_crosses_same p v : edge_crosses p v v = Some false.
Proof. unfold edge_crosses. by destruct (Py.gt v.2 p.2). Qed.

(** *** Arithmetic up to the sign of zero *)

Ltac sf_solve := first [ by left | right; eauto ].

(** Split two [sf_same] hypotheses and the signs in sight. *)
Ltac sf_binary op Ha Hb :=
  unfold op;
  destruct Ha as [->|(sa & sa' & -> & ->)], Hb as [->|(sb & sb' & -> & ->)];
  [ by left
  | match goal with |- sf_same (_ _ _ ?a _) _ =>
      destruct a as [[]|[]| |[] ? ?], sb, sb'; cbn; sf_solve end
  | match goal with |- sf_same (_ _ _ _ ?b) _ =>
      destruct b as [[]|[]| |[] ? ?], sa, sa'; cbn; sf_solve end
  | destruct sa, sa', sb, sb'; cbn; sf_solve ].

Lemma sf_same_compare_l a a' b :
  sf_same a a' → SFcompare a b = SFcompare a' b.
Proof. intros [->|(s & s' & -> & ->)]; [done|]. by destruct b. Qed.

Lemma sf_same_compare_r a b b' :
  sf_same b b' → SFcompare a b = SFcompare a b'.
Proof. intros [->|(s & s' & -> & ->)]; [done|]. by destruct a. Qed.

Lemma sf_same_add a a' b b' :
  sf_same a a' → sf_same b b' → sf_same (SF64add a b) (SF64add a' b').
Proof. intros Ha Hb. sf_binary SF64add Ha Hb. Qed.

Lemma sf_same_sub a a' b b' :
  sf_same a a' → sf_same b b' → sf_same (SF64sub a b) (SF64sub a' b').
Proof. intros Ha Hb. sf_binary SF64sub Ha Hb. Qed.

Lemma sf_same_mul a a' b b' :
  sf_same a a' → sf_same b b' → sf_same (SF64mul a b) (SF64mul a' b').
Proof. intros Ha Hb. sf_binary SF64mul Ha Hb. Qed.

Lemma sf_same_div a a' b :
  sf_same a a' → sf_same (SF64div a b) (SF64div a' b).
Proof.
  intros [->|(s & s' & -> & ->)]; [by left|]. unfold SF64div.
  destruct b as [[]|[]| |[] ? ?], s, s'; cbn; sf_solve.
Qed.

Lemma sf_eqb_same a b : SFeqb a b = true → sf_same a b.
Proof.
  unfold SFeqb, SFcompare.
  destruct a as [sa|sa| |sa ma ea], b as [sb|sb| |sb mb eb];
    try destruct sa; try destruct sb; try done; try (by left);
    try (by right; eauto).
  - destruct (Z.compare_spec ea eb) as [->| |]; try done.
    change (Pos.compare_cont Eq ma mb) with (Pos.compare ma mb).
    destruct (Pos.compare_spec ma mb) as [->| |]; try done.
    by left.
  - destruct (Z.compare_spec ea eb) as [->| |]; try done.
    change (Pos.compare_cont Eq ma mb) with (Pos.compare ma mb).
    destruct (Pos.compare_spec ma mb) as [->| |]; try done.
    by left.
Qed.

Lemma zsame_refl x : zsame x x.
Proof. by left. Qed.

Lemma eqb_zsame x y : PrimFloat.eqb x y = true → zsame x y.
Proof. rewrite FloatAxioms.eqb_spec. apply sf_eqb_same. Qed.

Lemma zsame_add a a' b b' :
  zsame a a' → zsame b b' → zsame (a + b) (a' + b').
Proof. unfold zsame. rewrite !add_spec. apply sf_same_add. Qed.

Lemma zsame_sub a a' b b' :
  zsame a a' → zsame b b' → zsame (a - b) (a' - b').
Proof. unfold zsame. rewrite !sub_spec. apply sf_same_sub. Qed.

Lemma zsame_mul a a' b b' :
  zsame a a' → zsame b b' → zsame (a * b) (a' * b').
Proof. unfold zsame. rewrite !mul_spec. apply sf_same_mul. Qed.

Lemma zsame_ltb_l a a' b : zsame a a' → PrimFloat.ltb a b = PrimFloat.ltb a' b.
Proof.
  intros H. rewrite !ltb_spec. unfold SFltb.
  by rewrite (sf_same_compare_l _ _ _ H).
Qed.

Lemma zsame_ltb_r a b b' : zsame b b' → PrimFloat.ltb a b = PrimFloat.ltb a b'.
Proof.
  intros H. rewrite !ltb_spec. unfold SFltb.
  by rewrite (sf_same_compare_r _ _ _ H).
Qed.

(** Both divisions raise, or both give the same quotient. *)
Lemma truediv_zsame a a' b b' :
  zsame a a' → zsame b b' →
  option_Forall2 zsame (Py.truediv a b) (Py.truediv a' b').
Proof.
  intros Ha Hb. unfold Py.truediv.
  assert (PrimFloat.eqb b 0 = PrimFloat.eqb b' 0) as Heq.
  { rewrite !FloatAxioms.eqb_spec. unfold SFeqb.
    by rewrite (sf_same_compare_l _ _ _ Hb). }
  rewrite <- Heq. destruct (PrimFloat.eqb b 0) eqn:Hz; constructor.
  assert (b = b') as <-.
  { destruct Hb as [Hb|(s & s' & Hb & _)]; [by apply Prim2SF_inj|].
    rewrite FloatAxioms.eqb_spec, Hb in Hz. by destruct s. }
  unfold zsame. rewrite !div_spec. by apply sf_same_div.
Qed.

Lemma edge_crosses_zsame p vi vi' vj :
  zsame vi.1 vi'.1 → zsame vi.2 vi'.2 →
  edge_crosses p vi vj = edge_crosses p vi' vj.
Proof.
  intros H1 H2. unfold edge_crosses, Py.gt, Py.lt.
  rewrite <- (zsame_ltb_r p.2 _ _ H2).
  destruct (xorb _ _); [|done].
  pose proof (truediv_zsame
    ((vj.1 - vi.1) * (p.2 - vi.2)) ((vj.1 - vi'.1) * (p.2 - vi'.2))
    (vj.2 - vi.2 + 1e-30) (vj.2 - vi'.2 + 1e-30)) as Hq.
  destruct Hq as [q q' Hq|].
  - apply zsame_mul; apply zsame_sub; auto using zsame_refl.
  - apply zsame_add; [|apply zsame_refl].
    apply zsame_sub; auto using zsame_refl.
  - simpl. f_equal. apply zsame_ltb_r. by apply zsame_add.
  - done.
Qed.

Lemma edge_crosses_closure p v0 vl :
  zsame v0.2 vl.2 → edge_crosses p v0 vl = Some false.
Proof.
  intros H. unfold edge_crosses, Py.gt.
  rewrite (zsame_ltb_r p.2 _ _ H). by destruct (PrimFloat.ltb _ _).
Qed.

Lemma py_same_zsame (p q : Point) :
  py_same p q → zsame p.1 q.1 ∧ zsame p.2 q.2.
Proof.
  intros [->|[H1 H2]%andb_prop]; [split; apply zsame_refl|].
  split; by apply eqb_zsame.
Qed.

Lemma pip_closed_ring p v0 vc mid :
  py_same v0 vc → (2 ≤ length mid)%nat →
  point_in_polygon p (v0 :: mid ++ [vc]) = point_in_polygon p (v0 :: mid).
Proof.
  intros [Hs1 Hs2]%py_same_zsame Hlen. unfold point_in_polygon.
  rewrite !bool_decide_eq_false_2
    by (simpl; rewrite ?length_app; simpl; lia).
  assert (∃ vl, last mid = Some vl) as [vl Hvl].
  { destruct mid as [|x mid _] using rev_ind; [simpl in Hlen; lia|].
    exists x. apply last_snoc. }
  replace (last (v0 :: mid ++ [vc])) with (Some vc)
    by (by rewrite app_comm_cons, last_snoc).
  replace (last (v0 :: mid)) with (Some vl).
  2:{ destruct mid as [|x mid _] using rev_ind; [done|].
      rewrite last_snoc in Hvl. by rewrite app_comm_cons, last_snoc. }
  simpl. rewrite (edge_crosses_closure p v0 vc Hs2). simpl.
  rewrite pip_loop_app, Hvl. simpl.
  rewrite <- (edge_crosses_zsame p v0 vc vl Hs1 Hs2).
  destruct (edge_crosses p v0 vl) as [c|]; simpl.
  - destruct c; simpl.
    + rewrite (pip_loop_parity p v0 mid true).
      destruct (pip_loop p v0 mid false) as [b|]; simpl; [|done].
      by destruct b.
    + by destruct (pip_loop p v0 mid false).
  - by destruct (pip_loop p v0 mid false).
Qed.

(** C9, as stated, fails on a closed ring of three vertices: with its
    closure vertex the ring passes the [n < 3] guard and its one edge is
    counted in both directions, the perturbed divisor putting the two
    crossings apart; without it the guard answers [False]. *)
Lemma pip_sliver_ring_differs :
  head sliver_ring = last sliver_ring
  ∧ point_in_polygon sliver_query sliver_ring = Some true
  ∧ point_in_polygon sliver_query (ring_without_duplicate_closure sliver_ring)
    = Some false.
Proof. repeat split; vm_compute; reflexivity. Qed.

(** C9 (amended): for a ring whose last point equals its first (the same
    value, or equal under [==]) and that has any number of points other
    than three, the test answers (or raises) the same with and without
    the closure vertex. *)
Theorem pip_closure_invariant :
  ∀ (p : Point) (ring : list Point) (p0 pl : Point),
    head ring = Some p0 → last ring = Some pl → py_same p0 pl →
    length ring ≠ 3%nat →
    point_in_polygon p ring =
    point_in_polygon p (ring_without_duplicate_closure ring).
Proof.
  intros p ring p0 pl Hh Hl Hsame Hlen. unfold ring_without_duplicate_closure.
  rewrite Hh, Hl. case_match; [|done].
  destruct ring as [|v0 rest]; [done|]. injection Hh as ->.
  destruct rest as [|v1 rest _] using rev_ind.
  { by rewrite andb_false_l in *. }
  rewrite app_comm_cons, last_snoc in Hl. injection Hl as ->.
  rewrite (app_comm_cons rest), drop_last_snoc.
  destruct (decide (length rest < 2)%nat) as [Hshort|Hlong].
  - unfold point_in_polygon.
    rewrite !bool_decide_eq_true_2; [done|simpl; lia|].
    simpl in *. rewrite length_app in *. simpl in *. lia.
  - apply pip_closed_ring; [done|lia].
Qed.

Lemma pip_closure_invariant_witness :
  point_in_polygon (1, 1)%float [(0, 0); (4, 0); (0, 4); (-0, 0)]%float =
  point_in_polygon (1, 1)%float
    (ring_without_duplicate_closure [(0, 0); (4, 0); (0, 4); (-0, 0)]%float).
Proof.
  apply (pip_closure_invariant (1, 1)%float
           [(0, 0); (4, 0); (0, 4); (-0, 0)]%float (0, 0)%float (-0, 0)%float).
  - reflexivity.
  - reflexivity.
  - right. vm_compute. reflexivity.
  - simpl. lia.
Defined.

(** ** Douglas-Peucker simplification *)

Lemma truediv_guarded a x :
  Py.lt x 1e-12%float = false → ∃ q, Py.truediv a x = Some q.
Proof.
  unfold Py.lt, Py.truediv. rewrite FloatAxioms.eqb_spec, ltb_spec.
  change (Prim2SF 0) with (S754_zero false).
  assert (∃ m e, Prim2SF 1e-12 = S754_finite false m e) as (m & e & ->)
    by (do 2 eexists; vm_compute; reflexivity).
  destruct (Prim2SF x) as [s|s| |s m' e']; try destruct s; cbn; eauto; done.
Qed.

Lemma kept_sublist pts keep :
  (length pts ≤ length keep)%nat → sublist (kept pts keep) pts.
Proof.
  intros Hlen. unfold kept. rewrite <- (fst_zip pts keep Hlen) at 2.
  apply fmap_sublist, sublist_filter.
Qed.

Lemma kept_head pts keep :
  keep !! 0%nat = Some true → head (kept pts keep) = head pts.
Proof.
  destruct keep as [|k keep]; [done|]. intros [= ->].
  destruct pts as [|p pts]; [done|]. unfold kept.
  change (zip (p :: pts) (true :: keep)) with ((p, true) :: zip pts keep).
  by rewrite filter_cons_True.
Qed.

Lemma kept_last pts keep :
  length keep = length pts →
  keep !! (length pts - 1)%nat = Some true →
  last (kept pts keep) = last pts.
Proof.
  destruct pts as [|p pts _] using rev_ind.
  { by destruct keep. }
  destruct keep as [|k keep _] using rev_ind.
  { rewrite length_app. simpl. lia. }
  rewrite !length_app. cbn [length]. intros Hlen.
  replace (length pts + 1 - 1)%nat with (length keep) by lia.
  rewrite lookup_app_r by lia. rewrite Nat.sub_diag. intros [= ->].
  unfold kept. rewrite zip_with_app by lia.
  change (zip [p] [true]) with [(p, true)].
  rewrite filter_app, fmap_app, filter_cons_True by done.
  rewrite filter_nil. cbn [fmap list_fmap fst]. by rewrite !last_snoc.
Qed.

Lemma py_same_refl_list (l : list Point) : Forall2 py_same l l.
Proof. induction l; constructor; [by left|done]. Qed.

Section DouglasPeucker.
Variable math_hypot : float → float → float.

Lemma point_line_distance_total p a b :
  ∃ d, point_line_distance math_hypot p a b = Some d.
Proof.
  unfold point_line_distance. destruct (Py.lt _ _) eqn:Hlt; [eauto|].
  edestruct truediv_guarded as [q ->]; [exact Hlt|]. simpl. eauto.
Qed.

Lemma farthest_total pts a b idxs acc :
  (∀ i, i ∈ idxs → i < length pts)%nat →
  ∃ r, farthest math_hypot pts a b idxs acc = Some r
       ∧ (r.2 = acc.2 ∨ ∃ i, r.2 = Some i ∧ i ∈ idxs).
Proof.
  revert acc. induction idxs as [|i idxs IH]; intros acc Hin; simpl.
  - eauto.
  - destruct (lookup_lt_is_Some_2 pts i) as [q ->]; [apply Hin; left|]. simpl.
    destruct (point_line_distance_total q a b) as [d ->]. simpl.
    edestruct IH as (r & -> & Hr); [intros; apply Hin; by right|].
    eexists. split; [done|].
    destruct Hr as [Hr|(j & ? & ?)]; [|right; exists j; split; [done|by right]].
    rewrite Hr. destruct (Py.gt d acc.1); simpl; [|by left].
    right. exists i. split; [done|left].
Qed.

Lemma stack_weight_cons s e stack :
  stack_weight ((s, e) :: stack) = (2 * (e - s) - 1 + stack_weight stack)%nat.
Proof. reflexivity. Qed.

Lemma dp_loop_total fuel pts epsilon stack keep :
  stack_ok (length pts) stack → (stack_weight stack ≤ fuel)%nat →
  ∃ keep', dp_loop math_hypot fuel pts epsilon stack keep = Some keep'
           ∧ length keep' = length keep
           ∧ ∀ i, keep !! i = Some true → keep' !! i = Some true.
Proof.
  revert stack keep. induction fuel as [|fuel IH]; intros stack keep Hok Hw.
  - destruct stack as [|[s e] stack]; [simpl; eauto|].
    apply Forall_cons in Hok as [[Hse _] _].
    rewrite stack_weight_cons in Hw. simpl in Hse. lia.
  - destruct stack as [|[s e] stack]; [simpl; eauto|].
    apply Forall_cons in Hok as [[Hse Hen] Hok]. simpl in Hse, Hen.
    rewrite stack_weight_cons in Hw.
    simpl.
    destruct (lookup_lt_is_Some_2 pts s) as [a ->]; [lia|]. simpl.
    destruct (lookup_lt_is_Some_2 pts e) as [b ->]; [lia|]. simpl.
    edestruct (farthest_total pts a b (seq (S s) (e - S s)) ((-1)%float, None))
      as ([md [idx|]] & -> & Hr).
    { intros i Hi%elem_of_seq. lia. }
    + simpl. destruct Hr as [Hr|(i & [= <-] & Hi%elem_of_seq)]; [done|].
      destruct (Py.gt md epsilon).
      * edestruct (IH ((idx, e) :: (s, idx) :: stack) (<[idx := true]> keep))
          as (keep' & -> & Hlen & Hmono).
        { apply Forall_cons; split; [simpl; lia|].
          apply Forall_cons; split; [simpl; lia|done]. }
        { rewrite !stack_weight_cons. lia. }
        eexists. split; [done|]. rewrite Hlen, length_insert. split; [done|].
        intros j Hj. apply Hmono.
        destruct (decide (j = idx)) as [->|Hne].
        -- apply list_lookup_insert_eq. by eapply lookup_lt_Some.
        -- by rewrite list_lookup_insert_ne.
      * apply IH; [done|lia].
    + simpl. apply IH; [done|lia].
Qed.

Lemma simplify_spec points epsilon :
  ∃ out, simplify_douglas_peucker math_hypot points epsilon = Some out
         ∧ subsequence_of out points
         ∧ head out = head points
         ∧ option_Forall2 py_same (last out) (last points)
         ∧ ((length points < 4)%nat → out = points).
Proof.
  assert (∀ l : list Point, option_Forall2 py_same (last l) (last l)) as Hrefl.
  { intros l. destruct (last l); constructor. by left. }
  assert (∀ l : list Point, subsequence_of l l) as Hsub.
  { intros l. exists l. split; [done|apply py_same_refl_list]. }
  unfold simplify_douglas_peucker. case_bool_decide as Hshort.
  { exists points. by repeat split. }
  destruct points as [|p0 points]; [simpl in Hshort; lia|].
  destruct points as [|pl points _] using rev_ind; [simpl in Hshort; lia|].
  change (head (p0 :: points ++ [pl])) with (Some p0).
  rewrite app_comm_cons, last_snoc. cbn [mbind option_bind].
  set (ring := (p0 :: points) ++ [pl]).
  set (pts := if point_eqb p0 pl then drop_last ring else ring).
  case_bool_decide as Hn.
  { exists ring. repeat split; try done.
    unfold ring. rewrite last_snoc. constructor. by left. }
  assert (∃ keep, dp_loop math_hypot (2 * length pts) pts epsilon
             [(0, length pts - 1)%nat]
             (<[(length pts - 1)%nat := true]>
                (<[0%nat := true]> (replicate (length pts) false))) = Some keep
           ∧ length keep = length pts
           ∧ keep !! 0%nat = Some true
           ∧ keep !! (length pts - 1)%nat = Some true)
    as (keep & -> & Hlen & Hk0 & Hkn).
  { edestruct dp_loop_total as (keep & -> & Hlen & Hmono).
    - apply Forall_cons; split; [simpl; lia|by apply Forall_nil].
    - rewrite stack_weight_cons. unfold stack_weight. simpl. lia.
    - exists keep. rewrite Hlen, !length_insert, length_replicate.
      split; [done|]. split; [done|]. split; apply Hmono.
      + rewrite list_lookup_insert_ne by lia.
        apply list_lookup_insert_eq. rewrite length_replicate. lia.
      + apply list_lookup_insert_eq.
        rewrite length_insert, length_replicate. lia. }
  cbn [mbind option_bind].
  pose proof (kept_sublist pts keep ltac:(lia)) as Hks.
  pose proof (kept_head pts keep Hk0) as Hkh.
  pose proof (kept_last pts keep Hlen Hkn) as Hkl.
  assert (head pts = Some p0) as Hp0.
  { subst pts ring. destruct (point_eqb p0 pl); [|done].
    rewrite drop_last_snoc. done. }
  rewrite Hp0 in Hkh.
  subst pts. destruct (point_eqb p0 pl) eqn:Hclosed.
  - subst ring. rewrite drop_last_snoc in *.
    rewrite Hkh. cbn [mbind option_bind].
    eexists. split; [done|]. split; [|split; [|split]].
    + exists (kept (p0 :: points) keep ++ [pl]). split.
      * by apply sublist_app.
      * apply Forall2_app; [apply py_same_refl_list|].
        constructor; [by right|constructor].
    + destruct (kept (p0 :: points) keep); [done|]. simpl in *. done.
    + rewrite !last_snoc. constructor. by right.
    + intros Hlt. contradict Hshort. by rewrite app_comm_cons.
  - subst ring. eexists. split; [done|]. split; [|split; [|split]].
    + eexists. split; [exact Hks|apply py_same_refl_list].
    + done.
    + rewrite Hkl, last_snoc. constructor. by left.
    + intros Hlt. contradict Hshort. by rewrite app_comm_cons.
Qed.

End DouglasPeucker.

(** C3, as stated, fails for tolerance 0: the interior vertices of four
    collinear points are at distance 0 from the chord, which is not above
    the tolerance, and are dropped. *)
Lemma simplify_collinear_tolerance_zero :
  simplify_douglas_peucker hypot_sqrt collinear4 0%float
  = Some [(0, 0); (4, 0)]%float.
Proof. vm_compute. reflexivity. Qed.

(** C3 (amended): for every point sequence and tolerance the
    simplification returns; its result is a subsequence of the input
    (vertices compared as Python compares them), starts with the first
    input point and ends with a point equal to the last one; a sequence of
    fewer than 4 points is returned unchanged.  For tolerance 0 vertices
    lying on the chord are still dropped. *)
Theorem simplify_subsequence_keeps_ends :
  ∀ math_hypot points epsilon,
    ∃ out, simplify_douglas_peucker math_hypot points epsilon = Some out
           ∧ subsequence_of out points
           ∧ head out = head points
           ∧ option_Forall2 py_same (last out) (last points)
           ∧ ((length points < 4)%nat → out = points).
Proof. intros. apply simplify_spec. Qed.

(** ** Binary vector decoder *)

(** One step through code in the option monad: split on the next test or
    on the next call that may raise. *)
Ltac step_in H :=
  match type of H with
  | (if ?b then _ else _) = _ => destruct b eqn:?; try done
  | (mbind _ ?m) = _ => destruct m eqn:?; simpl in H; try done
  | (let '(_, _) := ?m in _) = _ => destruct m eqn:?; try done
  end.

Lemma slice_parts_sizes points starts part :
  part ∈ slice_parts points starts → (2 ≤ length part)%nat.
Proof.
  induction starts as [|start starts IH]; simpl; [intros H; inversion H|].
  case_bool_decide as Hlen; [|done].
  intros [->|Hin]%elem_of_cons; [done|by apply IH].
Qed.

Lemma decode_shape_parts content r part :
  decode_shape content = Some (Some r) → part ∈ parts r →
  (2 ≤ length part)%nat.
Proof.
  unfold decode_shape. intros H Hin.
  repeat step_in H.
  injection H as <-. by eapply slice_parts_sizes.
Qed.

Lemma shp_loop_parts fuel rest r part :
  r ∈ (shp_loop decode_shape fuel rest).1 → part ∈ parts r →
  (2 ≤ length part)%nat.
Proof.
  revert rest. induction fuel as [|fuel IH]; intros rest; simpl.
  { intros H; inversion H. }
  case_bool_decide; [intros H'; inversion H'|].
  case_bool_decide; simpl; [|intros H'; inversion H'].
  destruct (unpack_be_i32 _) as [words|]; [|intros H'; inversion H'].
  destruct (file_read _ _) as [[content rest2]|]; [|intros H'; inversion H'].
  case_bool_decide; simpl; [|intros H'; inversion H'].
  destruct (decode_shape content) as [[r0|]|] eqn:Hd;
    [|apply IH|intros H'; inversion H'].
  destruct (shp_loop decode_shape fuel rest2) as [rs e] eqn:Hl. simpl.
  intros [->|Hin]%elem_of_cons Hp; [by eapply decode_shape_parts|].
  eapply (IH rest2); [by rewrite Hl|done].
Qed.

Lemma shp_loop_fuel {A} (decode : list byte → option (option A)) fuel rest :
  (length rest < fuel)%nat → (shp_loop decode fuel rest).2 ≠ OutOfFuel.
Proof.
  revert rest. induction fuel as [|fuel IH]; intros rest Hlt; [lia|]. simpl.
  case_bool_decide as Hnil; [done|].
  case_bool_decide as Hh; simpl; [|done].
  rewrite length_take in Hh.
  destruct (unpack_be_i32 _) as [words|]; [|done].
  destruct (file_read (words * 2) (drop 8 rest)) as [[content rest2]|] eqn:Hread;
    [|done].
  assert (length rest2 ≤ length (drop 8 rest))%nat as Hle.
  { unfold file_read in Hread. repeat step_in Hread; simplify_eq; simpl.
    - lia.
    - rewrite !length_drop. lia. }
  rewrite length_drop in Hle.
  case_bool_decide; simpl; [|done].
  specialize (IH rest2 ltac:(lia)).
  destruct (decode content) as [[r|]|]; [|done|done].
  by destruct (shp_loop decode fuel rest2).
Qed.

(** C5, as stated, fails for polygons: the decoder keeps a part of two
    points whatever the shape type, here in a Polygon record. *)
Lemma shp_polygon_part_of_two_points :
  iter_shp_records shp_two_point_polygon =
  ([mkShpRecord 5 [[(0, 0); (1, 1)]%float]], Exhausted).
Proof. vm_compute. reflexivity. Qed.

(** C5 (amended): every part of every record the decoder yields, polyline
    or polygon, has at least 2 points; shorter parts are dropped before the
    record is yielded, and the decoder always stops (the fuel of the model
    never runs out).  Polygon parts of fewer than 3 points are skipped
    later, by the building pass and by the natural/landuse pass. *)
Theorem shp_parts_at_least_two_points :
  (∀ (file : list byte) r part,
     r ∈ (iter_shp_records file).1 → part ∈ parts r → (2 ≤ length part)%nat)
  ∧ (∀ file : list byte, (iter_shp_records file).2 ≠ OutOfFuel)
  ∧ (∀ math_hypot math_log math_tan ctx h target kind (part : list Point),
       (length part < 3)%nat →
       building_part math_hypot math_log math_tan ctx h part = Some []
       ∧ area_part math_hypot math_log math_tan ctx target kind part = Some []).
Proof.
  split; [|split].
  - intros file. unfold iter_shp_records.
    case_bool_decide; cbn [negb]; [apply shp_loop_parts|].
    intros r part H'. inversion H'.
  - intros file. unfold iter_shp_records.
    case_bool_decide; cbn [negb]; [|done].
    apply shp_loop_fuel. rewrite length_drop. lia.
  - intros hyp mlog mtan ctx h target kind part Hlen.
    unfold building_part, area_part.
    by rewrite !bool_decide_eq_true_2.
Qed.

Lemma shp_parts_at_least_two_points_witness :
  (2 ≤ length [(0, 0); (1, 1)]%float)%nat.
Proof.
  apply (proj1 shp_parts_at_least_two_points shp_two_point_polygon
           (mkShpRecord 5 [[(0, 0); (1, 1)]%float])).
  - vm_compute. apply list_elem_of_here.
  - apply list_elem_of_here.
Defined.

(** ** Streaming aggregator *)

Lemma string_app_assoc (a b c : string) : (a +:+ b) +:+ c = a +:+ b +:+ c.
Proof.
  induction a as [|x a IH]; [done|].
  change (String x ((a +:+ b) +:+ c) = String x (a +:+ b +:+ c)). by f_equal.
Qed.

Lemma string_app_nil_r (a : string) : a +:+ "" = a.
Proof.
  induction a as [|x a IH]; [done|].
  change (String x (a +:+ "") = String x a). by f_equal.
Qed.

Lemma filter_ne_not_in (p : string) (l : list string) :
  p ∉ l → filter (λ q, q ≠ p) l = l.
Proof.
  induction l as [|x l IH]; [done|].
  intros [Hne Hin]%not_elem_of_cons.
  rewrite filter_cons_True by done. by rewrite IH.
Qed.

Lemma filter_ne_length (p : string) (l : list string) :
  NoDup l → p ∈ l → S (length (filter (λ q, q ≠ p) l)) = length l.
Proof.
  induction l as [|x l IH]; [intros _ H; inversion H|].
  intros [Hx Hnd]%NoDup_cons [->|Hin]%elem_of_cons.
  - rewrite filter_cons_False by (intros H; by apply H).
    by rewrite filter_ne_not_in.
  - rewrite filter_cons_True by (intros ->; done). simpl. by rewrite IH.
Qed.

Lemma od_get_None path files : od_get path files = None ↔ path ∉ files.*1.
Proof.
  induction files as [|[k f] files IH]; simpl.
  - split; [intros _ H; inversion H|done].
  - rewrite not_elem_of_cons. case_decide as Hk.
    + subst. split; [done|]. by intros [? _].
    + rewrite IH. split; [by split|by intros [_ ?]].
Qed.

Lemma od_remove_keys path files :
  (od_remove path files).*1 = filter (λ q, q ≠ path) files.*1.
Proof.
  unfold od_remove. induction files as [|[k f] files IH]; [done|].
  rewrite fmap_cons. simpl fst. destruct (decide (k = path)) as [->|Hne].
  - rewrite !filter_cons_False by (intros H; by apply H). done.
  - rewrite !filter_cons_True by done. by rewrite fmap_cons, IH.
Qed.

Lemma od_get_remove path q files :
  od_get path (od_remove q files) =
  if decide (q = path) then None else od_get path files.
Proof.
  unfold od_remove. induction files as [|[k f] files IH]; simpl.
  - by case_decide.
  - destruct (decide (k = q)) as [->|Hne].
    + rewrite filter_cons_False by (intros H; by apply H).
      rewrite IH. by repeat case_decide.
    + rewrite filter_cons_True by done. simpl. rewrite IH.
      repeat case_decide; simplify_eq; done.
Qed.

Lemma od_get_snoc path q f files :
  od_get path (files ++ [(q, f)]) =
  match od_get path files with
  | Some g => Some g
  | None => if decide (q = path) then Some f else None
  end.
Proof.
  induction files as [|[k g] files IH]; [reflexivity|].
  simpl. destruct (decide (k = path)); [reflexivity|exact IH].
Qed.

Lemma append_line_keys path line w disk :
  NoDup (_files w).*1 →
  (_files (append_line path line w disk).1).*1 =
  lru_step (_max_open w) path (_files w).*1.
Proof.
  intros Hnd. unfold append_line, lru_step.
  destruct (od_get path (_files w)) as [f|] eqn:Hget.
  - rewrite <- od_remove_keys.
    set (files1 := od_remove path (_files w) ++ [(path, f +:+ line +:+ "\n")]).
    replace ((od_remove path (_files w)).*1 ++ [path]) with files1.*1
      by (unfold files1; by rewrite fmap_app).
    rewrite length_fmap. case_match; [|done].
    destruct files1 as [|[old_path old_file] files2]; [done|]. simpl.
    by rewrite drop_0.
  - apply od_get_None in Hget. rewrite filter_ne_not_in by done.
    set (files1 := _files w ++ [(path, line +:+ "\n")]).
    replace ((_files w).*1 ++ [path]) with files1.*1
      by (unfold files1; by rewrite fmap_app).
    rewrite length_fmap. case_match; [|done].
    destruct files1 as [|[old_path old_file] files2]; [done|]. simpl.
    by rewrite drop_0.
Qed.

Lemma append_line_max_open path line w disk :
  _max_open (append_line path line w disk).1 = _max_open w.
Proof. unfold append_line. by repeat case_match. Qed.

Lemma lru_step_NoDup m p l : NoDup l → NoDup (lru_step m p l).
Proof.
  intros Hnd. unfold lru_step.
  assert (NoDup (filter (λ q, q ≠ p) l ++ [p])) as H.
  { apply NoDup_app. split; [by apply NoDup_filter|]. split.
    - intros x [Hx _]%list_elem_of_filter Hs%list_elem_of_singleton. done.
    - apply NoDup_singleton. }
  case_match; [|done]. eapply sublist_NoDup; [exact H|apply sublist_drop].
Qed.

Lemma lru_step_length m p l :
  (Z.of_nat (length l) ≤ m → Z.of_nat (length (lru_step m p l)) ≤ m)%Z.
Proof.
  intros Hle. unfold lru_step.
  pose proof (length_filter (λ q, q ≠ p) l) as Hf.
  destruct (Z.ltb_spec m (Z.of_nat (length (filter (λ q, q ≠ p) l ++ [p]))))
    as [Hlt|Hlt]; [|lia].
  rewrite length_drop, length_app. simpl. lia.
Qed.

Lemma lru_step_lastn m p r :
  0 ≤ m → NoDup r →
  lru_step m p (lastn (Z.to_nat m) r) =
  lastn (Z.to_nat m) (filter (λ q, q ≠ p) r ++ [p]).
Proof.
  intros Hm Hnd. unfold lru_step, lastn.
  assert (∃ n, m = Z.of_nat n) as [n ->] by (exists (Z.to_nat m); lia).
  rewrite Nat2Z.id. set (k := (length r - n)%nat).
  pose proof (take_drop k r) as Hr.
  set (a := take k r) in *. set (b := drop k r) in *.
  assert (length a = k) as Ha by (unfold a, k; rewrite length_take; lia).
  assert (length b = length r - k)%nat as Hb by (unfold b; by rewrite length_drop).
  rewrite <- Hr in Hnd. apply NoDup_app in Hnd as (Hnda & Hab & Hndb).
  assert (length r = length a + length b)%nat as Hlen
    by (by rewrite <- Hr, length_app).
  assert (k = length r - n)%nat as Hk by done.
  clearbody a b k. rewrite <- Hr. clear Hr.
  rewrite filter_app, !length_app. simpl.
  pose proof (filter_ne_not_in p a) as Hfa.
  pose proof (filter_ne_not_in p b) as Hfb.
  pose proof (filter_ne_length p a Hnda) as Hla.
  pose proof (filter_ne_length p b Hndb) as Hlb.
  set (fa := filter (λ q, q ≠ p) a) in *.
  set (fb := filter (λ q, q ≠ p) b) in *.
  clearbody fa fb.
  destruct (decide (p ∈ b)) as [Hpb|Hpb].
  - assert (p ∉ a) as Hpa by (intros H; by apply (Hab p H)).
    rewrite (Hfa Hpa). specialize (Hlb Hpb).
    destruct (Z.ltb_spec (Z.of_nat n) (Z.of_nat (length fb + 1))) as [Hlt|Hlt];
      [lia|].
    rewrite <- (assoc_L (++)). apply eq_sym, drop_app_length'. lia.
  - rewrite (Hfb Hpb).
    destruct (decide (p ∈ a)) as [Hpa|Hpa].
    + specialize (Hla Hpa).
      destruct (Z.ltb_spec (Z.of_nat n) (Z.of_nat (length b + 1))) as [Hlt|Hlt];
        [|lia].
      rewrite <- (assoc_L (++)), (drop_app_ge fa) by lia.
      f_equal. lia.
    + rewrite (Hfa Hpa).
      destruct (Z.ltb_spec (Z.of_nat n) (Z.of_nat (length b + 1))) as [Hlt|Hlt].
      * rewrite <- (assoc_L (++)), (drop_app_ge a) by lia. f_equal. lia.
      * assert (k = 0)%nat as Hk0 by lia.
        assert (a = []) as -> by (destruct a; [done|simpl in Ha; lia]).
        simpl. replace (length b + 1 - n)%nat with 0%nat by lia. done.
Qed.

Lemma file_contents_open path q disk :
  file_contents (file_open_append q disk) path = file_contents disk path.
Proof.
  unfold file_open_append, file_contents.
  destruct (disk !! q) eqn:Hq; [done|].
  destruct (decide (q = path)) as [->|Hne].
  - by rewrite lookup_insert_eq, Hq.
  - by rewrite lookup_insert_ne.
Qed.

Lemma file_contents_close path q f disk :
  file_contents (file_close q f disk) path =
  if decide (q = path) then file_contents disk path +:+ f
  else file_contents disk path.
Proof.
  unfold file_close. unfold file_contents at 1. case_decide as Hq.
  - subst. by rewrite lookup_insert_eq.
  - by rewrite lookup_insert_ne.
Qed.

(** Closing the eldest open file leaves every logical content as it is. *)
Lemma evict_logical m old_path old_file files disk path :
  NoDup ((old_path, old_file) :: files).*1 →
  logical_contents (mkWriter m files, file_close old_path old_file disk) path =
  logical_contents (mkWriter m ((old_path, old_file) :: files), disk) path.
Proof.
  rewrite fmap_cons. intros [Hold _]%NoDup_cons. simpl in Hold.
  unfold logical_contents. simpl. rewrite file_contents_close.
  destruct (decide (old_path = path)) as [->|Hne]; [|done].
  apply od_get_None in Hold. rewrite Hold. simpl.
  by rewrite string_app_nil_r.
Qed.

Lemma append_line_logical q line w disk path :
  NoDup (_files w).*1 →
  logical_contents (append_line q line w disk) path =
  logical_contents (w, disk) path +:+
  (if decide (q = path) then line +:+ "\n" else "").
Proof.
  intros Hnd. unfold append_line.
  set (files1 := match od_get q (_files w) with
                 | Some f => od_remove q (_files w) ++ [(q, f +:+ line +:+ "\n")]
                 | None => _files w ++ [(q, line +:+ "\n")]
                 end).
  set (disk1 := match od_get q (_files w) with
                | Some f => disk
                | None => file_open_append q disk
                end).
  assert (NoDup files1.*1) as Hnd1.
  { pose proof (lru_step_NoDup (-1) q _ Hnd) as H. unfold lru_step in H.
    unfold files1. destruct (od_get q (_files w)) eqn:Hget.
    - rewrite fmap_app, od_remove_keys. simpl.
      apply NoDup_app. split; [by apply NoDup_filter|]. split; [|apply NoDup_singleton].
      intros x [Hx _]%list_elem_of_filter Hs%list_elem_of_singleton. done.
    - apply od_get_None in Hget. rewrite fmap_app. simpl.
      apply NoDup_app. split; [done|]. split; [|apply NoDup_singleton].
      intros x Hx ->%list_elem_of_singleton. done. }
  assert (logical_contents (mkWriter (_max_open w) files1, disk1) path =
          logical_contents (w, disk) path +:+
          (if decide (q = path) then line +:+ "\n" else "")) as Hstep.
  { unfold logical_contents, files1, disk1. simpl.
    destruct (od_get q (_files w)) as [f|] eqn:Hget.
    - rewrite od_get_snoc, od_get_remove.
      destruct (decide (q = path)) as [->|Hne].
      + rewrite Hget. simpl. by rewrite !string_app_assoc.
      + destruct (od_get path (_files w)); simpl; by rewrite ?string_app_nil_r.
    - rewrite od_get_snoc, file_contents_open.
      destruct (decide (q = path)) as [->|Hne].
      + rewrite Hget. simpl. by rewrite string_app_nil_r.
      + destruct (od_get path (_files w)); simpl; by rewrite ?string_app_nil_r. }
  replace (match od_get q (_files w) with
           | Some f => (od_remove q (_files w) ++ [(q, f +:+ line +:+ "\n")], disk)
           | None => (_files w ++ [(q, line +:+ "\n")], file_open_append q disk)
           end) with (files1, disk1)
    by (unfold files1, disk1; by destruct (od_get q (_files w))).
  destruct (_max_open w <? _); [|done].
  destruct files1 as [|[old_path old_file] files2]; [done|].
  by rewrite evict_logical.
Qed.

Lemma append_line_NoDup q line w disk :
  NoDup (_files w).*1 → NoDup (_files (append_line q line w disk).1).*1.
Proof. intros H. rewrite append_line_keys by done. by apply lru_step_NoDup. Qed.

Lemma writer_close_contents w disk path :
  NoDup (_files w).*1 →
  file_contents (writer_close w disk).2 path = logical_contents (w, disk) path.
Proof.
  unfold writer_close, logical_contents. simpl.
  generalize (_files w) as files. intros files. revert disk.
  induction files as [|[k f] files IH]; intros disk Hnd; simpl.
  - by rewrite string_app_nil_r.
  - rewrite fmap_cons in Hnd. apply NoDup_cons in Hnd as [Hk Hnd]. simpl in Hk.
    rewrite IH by done. rewrite file_contents_close.
    destruct (decide (k = path)) as [->|Hne]; [|done].
    apply od_get_None in Hk. rewrite Hk. simpl. by rewrite string_app_nil_r.
Qed.

Lemma written_text_app path calls1 calls2 :
  written_text path (calls1 ++ calls2) =
  written_text path calls1 +:+ written_text path calls2.
Proof.
  induction calls1 as [|[p line] calls1 IH]; [done|]. simpl.
  case_decide; [|done]. by rewrite IH, !string_app_assoc.
Qed.

Lemma lastn_length {A} (n : nat) (l : list A) : (length (lastn n l) ≤ n)%nat.
Proof. unfold lastn. rewrite length_drop. lia. Qed.

Lemma append_lines_inv max_open calls disk0 :
  0 ≤ max_open →
  let st := append_lines calls (writer_init max_open, disk0) in
  _max_open st.1 = max_open
  ∧ NoDup (_files st.1).*1
  ∧ (_files st.1).*1 = lastn (Z.to_nat max_open) (recency calls.*1)
  ∧ ∀ path, logical_contents st path =
            file_contents disk0 path +:+ written_text path calls.
Proof.
  intros Hm. induction calls as [|[q line] calls IH] using rev_ind; simpl.
  - split; [done|]. split; [apply NoDup_nil_2|]. split; [done|].
    intros path. unfold logical_contents. simpl. done.
  - unfold append_lines in *. rewrite foldl_app. simpl.
    destruct IH as (Hmax & Hnd & Hkeys & Hlog).
    set (st := foldl _ _ calls) in *.
    rewrite append_line_max_open. split; [done|].
    split; [by apply append_line_NoDup|]. split.
    + rewrite append_line_keys by done. rewrite Hmax, Hkeys.
      unfold recency at 2. rewrite fmap_app, foldl_app. simpl.
      fold (recency calls.*1).
      apply lru_step_lastn; [done|].
      clear. induction (calls.*1) as [|p l IH] using rev_ind; [apply NoDup_nil_2|].
      unfold recency. rewrite foldl_app. simpl. fold (recency l).
      apply (lru_step_NoDup (Z.of_nat (S (length (recency l)))) p) in IH.
      unfold lru_step in IH.
      destruct (Z.ltb_spec (Z.of_nat (S (length (recency l))))
                  (Z.of_nat (length (filter (λ q, q ≠ p) (recency l) ++ [p]))))
        as [Hlt|Hlt]; [|done].
      rewrite length_app in Hlt. simpl in Hlt.
      pose proof (length_filter (λ q, q ≠ p) (recency l)). lia.
    + intros path. destruct st as [w disk]. simpl in *.
      rewrite append_line_logical by done.
      rewrite Hlog, written_text_app. simpl.
      rewrite string_app_assoc. by case_decide.
Qed.

Lemma append_line_bound path line w disk :
  Z.of_nat (length (_files w)) ≤ _max_open w →
  Z.of_nat (length (_files (append_line path line w disk).1)) ≤ _max_open w.
Proof.
  intros Hle. unfold append_line.
  pose proof (length_filter (λ e, e.1 ≠ path) (_files w)) as Hf.
  fold (od_remove path (_files w)) in Hf.
  destruct (od_get path (_files w)) as [f|].
  - set (files1 := od_remove path (_files w) ++ _).
    assert (length files1 ≤ S (length (_files w)))%nat as H1
      by (unfold files1; rewrite length_app; simpl; lia).
    clearbody files1.
    destruct (Z.ltb_spec (_max_open w) (Z.of_nat (length files1))); simpl; [|lia].
    destruct files1 as [|[old_path old_file] files2]; simpl in *; lia.
  - set (files1 := _files w ++ _).
    assert (length files1 ≤ S (length (_files w)))%nat as H1
      by (unfold files1; rewrite length_app; simpl; lia).
    clearbody files1.
    destruct (Z.ltb_spec (_max_open w) (Z.of_nat (length files1))); simpl; [|lia].
    destruct files1 as [|[old_path old_file] files2]; simpl in *; lia.
Qed.

(** C6: [append_line] keeps the number of open files at or below
    [max_open].  From a fresh writer with [max_open >= 0], after any
    sequence of [append_line] calls the open files are the [max_open] most
    recently written paths, eldest first (so each eviction took the least
    recently written one); each path's text on disk followed by the text
    its open file holds is what the disk held before followed by every line
    written to it, in order; after [close] all of that is on disk and
    nothing is open. *)
Theorem lru_writer_bounded_and_lossless :
  (∀ (path line : string) (w : LruAppendWriter) (disk : Disk),
     Z.of_nat (length (_files w)) ≤ _max_open w →
     Z.of_nat (length (_files (append_line path line w disk).1)) ≤ _max_open w)
  ∧ ∀ (max_open : Z) (calls : list (string * string)) (disk0 : Disk),
      0 ≤ max_open →
      let st := append_lines calls (writer_init max_open, disk0) in
      Z.of_nat (length (_files st.1)) ≤ max_open
      ∧ (_files st.1).*1 = lastn (Z.to_nat max_open) (recency calls.*1)
      ∧ (∀ path, logical_contents st path =
                 file_contents disk0 path +:+ written_text path calls)
      ∧ (∀ path, file_contents (writer_close st.1 st.2).2 path =
                 file_contents disk0 path +:+ written_text path calls)
      ∧ _files (writer_close st.1 st.2).1 = [].
Proof.
  split; [intros; by apply append_line_bound|].
  intros max_open calls disk0 Hm st.
  destruct (append_lines_inv max_open calls disk0 Hm) as (Hmax & Hnd & Hkeys & Hlog).
  fold st in Hmax, Hnd, Hkeys, Hlog.
  split; [|split; [done|split; [done|split; [|done]]]].
  - rewrite <- (length_fmap fst), Hkeys.
    pose proof (lastn_length (Z.to_nat max_open) (recency calls.*1)). lia.
  - intros path. rewrite writer_close_contents by done.
    rewrite <- Hlog. by destruct st.
Qed.

Lemma lru_writer_bounded_and_lossless_witness :
  Z.of_nat (length (_files (append_lines demo_calls (writer_init 2, ∅)).1)) ≤ 2.
Proof.
  exact (proj1 (proj2 lru_writer_bounded_and_lossless 2 demo_calls ∅ ltac:(lia))).
Defined.

(** ** Pipeline driver *)

(** C4, as stated, fails: the feature goes to tile (0,0), whose centre is
    (500, 500); the emitted vertices are relative to that centre and sum
    to (-2000, -2000), not to (0, 0). *)
Lemma building_square_local_sum :
  building_from_projected hypot_sqrt
    (mkContext (default_args "shape" "out" 1000) (0, 0)%float None)
    (building_height ∅) square100
  = Some [mkAppend "buildings" 0 0 (Building 12 square100_local)]
  ∧ vertex_sum square100_local = (-2000, -2000)%float.
Proof. split; vm_compute; reflexivity. Qed.

(** C4 (amended): with tile size 1000 and the other options at their
    defaults, the square with origin-relative vertices (-50,-50), (50,-50),
    (50,50), (-50,50) is assigned to tile (0,0); the emitted vertices are
    these minus the tile centre (500, 500) and sum to (-2000, -2000); it is
    the origin-relative vertices that sum to (0, 0). *)
Theorem building_square_round_trip :
  ∀ (shape_dir out : string) (origin : Point) (h : float),
    building_from_projected hypot_sqrt
      (mkContext (default_args shape_dir out 1000) origin None) h square100
    = Some [mkAppend "buildings" 0 0 (Building h square100_local)]
    ∧ square100_local = relative_to (tile_center 0 0 1000) square100
    ∧ vertex_sum square100 = (0, 0)%float
    ∧ vertex_sum square100_local = (-2000, -2000)%float.
Proof. intros. repeat split; vm_compute; reflexivity. Qed.

(** C7, as stated, fails in the shapefile converter: the height of a
    building comes from its [type] attribute alone, so a record with the
    height "12.5m" gets the default 12.0, or 9.0 when it is a house. *)
Lemma shp_building_height_ignores_height :
  building_height {[ "height" := "12.5m" ]} = 12%float
  ∧ building_height {[ "height" := "12.5m"; "type" := "house" ]} = 9%float.
Proof. split; vm_compute; reflexivity. Qed.

(** C7 (amended): the GeoJSON converter's [building_height_m] resolves a
    height "12.5m" to 12.5, "3" levels to 9.0 and no height to 12.0 (for
    any [float] that reads "12.5" as 12.5 and "3" as 3); the shapefile
    converter reads no height or levels attribute: the height is the
    default of the building's [type], 12.0 when it is absent or unknown. *)
Theorem building_height_resolution :
  ∀ (float_of_string : string → option float),
    float_of_string "12.5" = Some 12.5%float →
    float_of_string "3" = Some 3%float →
    building_height_m float_of_string {[ "height" := JString "12.5m" ]}
      = Some 12.5%float
    ∧ building_height_m float_of_string {[ "building:levels" := JString "3" ]}
      = Some 9%float
    ∧ building_height_m float_of_string {[ "building" := JString "yes" ]}
      = Some 12%float
    ∧ (∀ dbf_rec : DbfRec,
         building_height dbf_rec = building_height_default (rec_get dbf_rec "type"))
    ∧ (∀ dbf_rec : DbfRec,
         dbf_rec !! "type" = None → building_height dbf_rec = 12%float).
Proof.
  intros fos H125 H3. split; [|split; [|split; [|split]]].
  - unfold building_height_m.
    rewrite bool_decide_eq_false_2 by (apply insert_non_empty).
    unfold props_get. rewrite lookup_singleton_eq.
    simpl.
    replace (py_strip "12.5") with "12.5" by (vm_compute; reflexivity).
    by rewrite H125.
  - unfold building_height_m.
    rewrite bool_decide_eq_false_2 by (apply insert_non_empty).
    unfold props_get. rewrite lookup_singleton_eq.
    rewrite lookup_singleton_ne by done.
    simpl.
    replace (py_strip "3") with "3" by (vm_compute; reflexivity).
    rewrite H3. vm_compute. reflexivity.
  - vm_compute. reflexivity.
  - reflexivity.
  - intros dbf_rec Hnone. unfold building_height, rec_get. rewrite Hnone.
    vm_compute. reflexivity.
Qed.

Lemma building_height_resolution_witness :
  building_height_m decimal_of_string {[ "height" := JString "12.5m" ]}
  = Some 12.5%float.
Proof.
  apply (building_height_resolution decimal_of_string);
    vm_compute; reflexivity.
Defined.

Lemma for_parts_elem body parts out x :
  for_parts body parts = Some out → x ∈ out →
  ∃ part o, part ∈ parts ∧ body part = Some o ∧ x ∈ o.
Proof.
  revert out. induction parts as [|part parts IH]; intros out; simpl.
  - intros [= <-] Hx. inversion Hx.
  - destruct (body part) as [o|] eqn:Hb; simpl; [|done].
    destruct (for_parts body parts) as [rest|]; simpl; [|done].
    intros [= <-] [Hx|Hx]%elem_of_app.
    + exists part, o. split; [left|done].
    + destruct (IH rest eq_refl Hx) as (part' & o' & ? & ? & ?).
      exists part', o'. split; [by right|done].
Qed.

Lemma for_records_elem {R} (body : R → option (list Append)) recs out x :
  for_records body recs = Some out → x ∈ out →
  ∃ rec o, rec ∈ recs ∧ body rec = Some o ∧ x ∈ o.
Proof.
  revert out. induction recs as [|rec recs IH]; intros out; simpl.
  - intros [= <-] Hx. inversion Hx.
  - destruct (body rec) as [o|] eqn:Hb; simpl; [|done].
    destruct (for_records body recs) as [rest|]; simpl; [|done].
    intros [= <-] [Hx|Hx]%elem_of_app.
    + exists rec, o. split; [left|done].
    + destruct (IH rest eq_refl Hx) as (rec' & o' & ? & ? & ?).
      exists rec', o'. split; [by right|done].
Qed.

Lemma emit_segments_category ctx cat make tile_segments x :
  x ∈ emit_segments ctx cat make tile_segments → category x = cat.
Proof.
  unfold emit_segments. intros Hx.
  apply list_elem_of_bind in Hx as ([tile segments] & Hx & _).
  apply list_elem_of_bind in Hx as (seg & Hx & _).
  by apply list_elem_of_singleton in Hx as ->.
Qed.

Section Driver.
Variable math_hypot : float → float → float.
Variable math_log : float → option float.
Variable math_tan : float → option float.
Variable float_of_string : string → option float.
Variable codec_decode : list byte → string.

Lemma railway_part_category ctx part out x :
  railway_part math_hypot math_log math_tan ctx part = Some out → x ∈ out →
  category x = "railways".
Proof.
  unfold railway_part. intros H Hx. repeat step_in H.
  all: simplify_eq; try (by inversion Hx).
  by eapply emit_segments_category.
Qed.

Lemma railway_record_elem ctx rec out x :
  railway_record math_hypot math_log math_tan ctx rec = Some out → x ∈ out →
  named_rail rec.2 ∧ category x = "railways".
Proof.
  unfold railway_record, named_rail. intros H Hx.
  case_bool_decide as Htype; simpl in H; [|simplify_eq; by inversion Hx].
  case_bool_decide as Hname; [simplify_eq; by inversion Hx|].
  split; [done|].
  destruct (for_parts_elem _ _ _ _ H Hx) as (part & o & _ & Hp & Ho).
  by eapply railway_part_category.
Qed.

Lemma category_pass_skipped {A} files shape_dir base
    (reader : list byte → list A * stream_end) body :
  isfile files (path_join shape_dir (base +:+ ".shp"))
  && isfile files (path_join shape_dir (base +:+ ".dbf")) = false →
  category_pass codec_decode files shape_dir base reader body = Some [].
Proof. unfold category_pass. by intros ->. Qed.

Lemma main_no_inputs files a clip origin :
  lonlat_to_webmercator_m math_log math_tan (Args.origin_lon a) (Args.origin_lat a)
    = Some origin →
  no_inputs files (Args.shape_dir a) →
  main math_hypot math_log math_tan float_of_string codec_decode files a clip
    = Some (0, mkOutput [] [] 0).
Proof.
  intros Ho Hno. unfold main. rewrite Ho. simpl.
  assert (∀ base, base ∈ input_categories →
    ∀ A (reader : list byte → list A * stream_end) body,
    category_pass codec_decode files (Args.shape_dir a) base reader body = Some [])
    as Hskip.
  { intros base Hb A reader body. apply category_pass_skipped. by apply Hno. }
  rewrite !Hskip by (unfold input_categories; set_solver). simpl.
  unfold places_pass. simpl.
  change (path_join (Args.shape_dir a) "places.shp")
    with (path_join (Args.shape_dir a) ("places" +:+ ".shp")).
  change (path_join (Args.shape_dir a) "places.dbf")
    with (path_join (Args.shape_dir a) ("places" +:+ ".dbf")).
  rewrite (Hno "places") by (unfold input_categories; set_solver).
  reflexivity.
Qed.

End Driver.

(** C8, as stated, fails: with no input file at all [main] runs every
    guard, writes no tile and returns 0. *)
Lemma main_empty_directory_exits_zero :
  main hypot_sqrt libm_stub libm_stub decimal_of_string decode_ascii_ignore
       ∅ (default_args "shape" "out" 1024) None
  = Some (0, mkOutput [] [] 0).
Proof. vm_compute. reflexivity. Qed.

(** C8 (amended): when no category has both of its files, [main] (once
    the origin is projected) skips every pass, hands no fragment to the
    aggregator, writes no tile and returns the exit status 0. *)
Theorem main_without_inputs_exits_zero :
  ∀ math_hypot math_log math_tan float_of_string codec_decode
    (files : Files) (a : Args.t) (clip : option (list Point)) (origin : Point),
    lonlat_to_webmercator_m math_log math_tan (Args.origin_lon a) (Args.origin_lat a)
      = Some origin →
    no_inputs files (Args.shape_dir a) →
    main math_hypot math_log math_tan float_of_string codec_decode files a clip
      = Some (0, mkOutput [] [] 0).
Proof. intros. by eapply main_no_inputs. Qed.

Lemma main_without_inputs_exits_zero_witness :
  main hypot_sqrt libm_stub libm_stub decimal_of_string decode_ascii_ignore
       {[ "shape/roads.shp" := [] ]} (default_args "shape" "out" 1024) None
  = Some (0, mkOutput [] [] 0).
Proof.
  eapply (main_without_inputs_exits_zero hypot_sqrt libm_stub libm_stub
            decimal_of_string decode_ascii_ignore
            {[ "shape/roads.shp" := [] ]} (default_args "shape" "out" 1024) None).
  - vm_compute. reflexivity.
  - intros base Hb. unfold input_categories in Hb.
    repeat (apply elem_of_cons in Hb as [->|Hb]; [vm_compute; reflexivity|]).
    inversion Hb.
Defined.

(** C10: a railway record whose type is not "rail" (compared in lower
    case) or whose name is empty is dropped whole; every fragment the
    railway pass emits comes from a record of type "rail" with a non-empty
    name, and goes to the "railways" category. *)
Theorem railway_only_named_rail :
  ∀ math_hypot math_log math_tan (ctx : Context),
    (∀ rec : ShpRecord * DbfRec,
       ¬ named_rail rec.2 →
       railway_record math_hypot math_log math_tan ctx rec = Some [])
    ∧ (∀ (recs : list (ShpRecord * DbfRec)) out x,
         for_records (railway_record math_hypot math_log math_tan ctx) recs
           = Some out →
         x ∈ out →
         ∃ rec, rec ∈ recs
                ∧ py_lower (rec_get rec.2 "type") = "rail"
                ∧ rec_get rec.2 "name" ≠ ""
                ∧ category x = "railways").
Proof.
  intros hyp mlog mtan ctx. split.
  - intros rec Hn. unfold railway_record, named_rail in *.
    case_bool_decide as Htype; simpl; [|done].
    case_bool_decide as Hname; [done|]. by destruct Hn.
  - intros recs out x Hout Hx.
    destruct (for_records_elem _ _ _ _ Hout Hx) as (rec & o & Hrec & Ho & Hxo).
    destruct (railway_record_elem _ _ _ _ _ _ _ Ho Hxo) as [[Ht Hname] Hcat].
    exists rec. repeat split; try done.
    intros Hempty. apply Hname. by rewrite Hempty.
Qed.

Lemma railway_only_named_rail_witness :
  railway_record hypot_sqrt libm_stub libm_stub
    (mkContext (default_args "shape" "out" 1024) (0, 0)%float None)
    (mkShpRecord 3 [[(140.88, 38.26); (140.89, 38.27)]%float],
     {[ "type" := "subway"; "name" := "Namboku" ]})
  = Some [].
Proof.
  apply (proj1 (railway_only_named_rail hypot_sqrt libm_stub libm_stub
                  (mkContext (default_args "shape" "out" 1024) (0, 0)%float None))).
  unfold named_rail. intros [Ht _]. vm_compute in Ht. discriminate Ht.
Defined.

(** * Further properties *)

(** ** Tile partitioner: what the result holds *)

Lemma split_covers_push pt st seen :
  split_covers st seen → split_covers (push_point pt st) (seen ++ [pt]).
Proof.
  intros [H1 H2 H3]. split; simpl.
  - by destruct (current_segment st).
  - intros He. by rewrite (H2 He).
  - unfold split_trace in *. simpl.
    destruct (emitted st) as [|e log].
    + by apply sublist_app.
    + rewrite drop_app_le
        by (destruct (current_segment st); [done|simpl; lia]).
      rewrite app_assoc. by apply sublist_app.
Qed.

Lemma split_covers_cut pt tile st seen :
  split_covers st seen →
  split_covers (cut_at pt tile st) seen
  ∧ split_covers (cut_at pt tile st) (seen ++ [pt]).
Proof.
  intros [H1 H2 H3].
  assert (2 ≤ length (current_segment st ++ [pt]))%nat as Hlen.
  { rewrite length_app. simpl. destruct (current_segment st); [done|simpl; lia]. }
  assert (sublist (seen ++ [pt])
            (concat (emitted st ++ [(current_tile st, current_segment st ++ [pt])]).*2))
    as Hs.
  { rewrite fmap_app, concat_app. simpl. rewrite app_nil_r.
    unfold split_trace in H3. destruct (emitted st) as [|e log] eqn:He.
    - simpl. rewrite (H2 eq_refl). done.
    - rewrite app_assoc. apply sublist_app; [|done].
      etrans; [exact H3|]. apply sublist_app; [done|apply sublist_drop]. }
  assert (split_trace (cut_at pt tile st) =
          concat (emitted st ++ [(current_tile st, current_segment st ++ [pt])]).*2)
    as Htr.
  { unfold split_trace, cut_at, add_segment. simpl.
    rewrite bool_decide_eq_true_2 by done. simpl.
    destruct (emitted st); simpl; by rewrite ?app_nil_r. }
  assert (emitted (cut_at pt tile st) ≠ []) as Hne.
  { unfold cut_at, add_segment. simpl.
    rewrite bool_decide_eq_true_2 by done. simpl.
    intros He. by apply app_nil in He as [_ ?]. }
  split; split; try done.
  - rewrite Htr. etrans; [|exact Hs]. by apply sublist_inserts_r.
  - by rewrite Htr.
Qed.

Lemma split_covers_interp ts prev_pt curr_pt num_steps n step st st' seen :
  split_covers st seen →
  interp_steps ts prev_pt curr_pt num_steps n step st = Some st' →
  split_covers st' seen.
Proof.
  revert step st. induction n as [|n IH]; intros step st Hc; simpl.
  - by intros [= <-].
  - destruct (tile_of _ ts) as [interp_tile|]; simpl; [|done].
    apply IH. case_decide; [done|]. by apply split_covers_cut.
Qed.

Lemma split_covers_step hyp ts prev_pt curr_pt st st' seen :
  split_covers st seen →
  split_step hyp ts prev_pt curr_pt st = Some st' →
  split_covers st' (seen ++ [curr_pt]).
Proof.
  intros Hc. unfold split_step.
  destruct (tile_of curr_pt ts) as [curr_tile|]; simpl; [|done].
  case_decide. { intros [= <-]. by apply split_covers_push. }
  match goal with |- context [mbind _ ?m] => destruct m as [st1|] eqn:Hst1 end;
    simpl; [|done].
  assert (split_covers st1 seen) as Hc1.
  { destruct (Py.gt _ _); [|by injection Hst1 as <-].
    destruct (Py.truediv _ _) as [q|]; simpl in Hst1; [|done].
    destruct (Py.int q) as [k|]; simpl in Hst1; [|done].
    by eapply split_covers_interp. }
  case_decide; intros [= <-].
  - by apply split_covers_push.
  - by apply split_covers_cut.
Qed.

Lemma split_covers_loop hyp ts prev_pt rest st st' seen :
  split_covers st seen →
  split_loop hyp ts prev_pt rest st = Some st' →
  split_covers st' (seen ++ rest).
Proof.
  revert prev_pt st seen.
  induction rest as [|curr_pt rest IH]; intros prev_pt st seen Hc; simpl.
  - intros [= <-]. by rewrite app_nil_r.
  - destruct (split_step hyp ts prev_pt curr_pt st) as [st1|] eqn:Hs; simpl; [|done].
    intros Hl. rewrite (cons_middle curr_pt seen rest), app_assoc.
    eapply IH; [|exact Hl]. by eapply split_covers_step.
Qed.

Lemma split_run_covers hyp pts ts st :
  (2 ≤ length pts)%nat →
  split_run hyp pts ts = Some st →
  sublist pts (concat (emitted st).*2).
Proof.
  unfold split_run. intros Hlen. destruct pts as [|p0 rest]; [done|].
  destruct (tile_of p0 ts) as [t0|]; simpl; [|done].
  destruct (split_loop _ _ _ _ _) as [st1|] eqn:Hl; simpl; [|done].
  intros [= <-].
  assert (split_covers (mkSplit [] [] [p0] t0) [p0]) as H0 by (by split).
  pose proof (split_covers_loop _ _ _ _ _ _ _ H0 Hl) as [H1 H2 H3].
  change ([p0] ++ rest) with (p0 :: rest) in *.
  unfold add_segment, split_trace in *. case_bool_decide as Hcur; simpl.
  - rewrite fmap_app, concat_app. simpl. rewrite app_nil_r.
    destruct (emitted st1) as [|e log].
    + done.
    + etrans; [exact H3|]. apply sublist_app; [done|apply sublist_drop].
  - destruct (emitted st1) as [|e log].
    + rewrite (H2 eq_refl) in Hcur. done.
    + destruct (current_segment st1) as [|q [|q' cur]]; [done| |simpl in Hcur; lia].
      simpl in H3. by rewrite app_nil_r in H3.
Qed.

Lemma dict_append_keeps tile segment d t segs seg :
  (t, segs) ∈ d → seg ∈ segs →
  ∃ segs', (t, segs') ∈ dict_append tile segment d ∧ seg ∈ segs'.
Proof.
  induction d as [|[k v] d IH]; simpl; [intros H; inversion H|].
  rewrite elem_of_cons. intros [[= -> ->]|Hin] Hs.
  - case_decide.
    + exists (v ++ [segment]). split; [left|]. apply elem_of_app. by left.
    + exists v. split; [left|done].
  - destruct (IH Hin Hs) as (segs' & ? & ?).
    case_decide; [exists segs|exists segs']; split; try done; by right.
Qed.

Lemma dict_append_adds tile segment d :
  ∃ segs, (tile, segs) ∈ dict_append tile segment d ∧ segment ∈ segs.
Proof.
  induction d as [|[k v] d IH]; simpl.
  - exists [segment]. split; apply list_elem_of_here.
  - case_decide as Hk.
    + subst k. exists (v ++ [segment]). split; [left|].
      apply elem_of_app. right. apply list_elem_of_here.
    + destruct IH as (segs & ? & ?). exists segs. split; [by right|done].
Qed.

Lemma replay_complete log t seg :
  (t, seg) ∈ log → ∃ segs, (t, segs) ∈ replay log ∧ seg ∈ segs.
Proof.
  unfold replay. induction log as [|e log IH] using rev_ind.
  { intros H; inversion H. }
  rewrite foldl_app. simpl.
  intros [Hin|Heq%list_elem_of_singleton]%elem_of_app.
  - destruct (IH Hin) as (segs & ? & ?). by eapply dict_append_keeps.
  - subst e. apply dict_append_adds.
Qed.

Lemma dict_append_keys tile segment d :
  (dict_append tile segment d).*1 =
  if bool_decide (tile ∈ d.*1) then d.*1 else d.*1 ++ [tile].
Proof.
  induction d as [|[k v] d IH]; [done|]. cbn [dict_append].
  destruct (decide (k = tile)) as [->|Hk]; rewrite !fmap_cons; cbn [fst].
  - rewrite bool_decide_eq_true_2 by left. done.
  - rewrite IH. case_bool_decide as Hin.
    + rewrite bool_decide_eq_true_2 by (by right). done.
    + rewrite bool_decide_eq_false_2; [done|].
      intros [?|?]%elem_of_cons; [by subst|done].
Qed.

Lemma dict_append_ok tile segment d :
  (2 ≤ length segment)%nat → dict_ok d → dict_ok (dict_append tile segment d).
Proof.
  intros Hlen [Hk Hv]. split.
  - rewrite dict_append_keys. case_bool_decide as Hin; [done|].
    apply NoDup_app. split; [done|]. split; [|apply NoDup_singleton].
    intros x Hx ->%list_elem_of_singleton. done.
  - intros t segs Hin. split.
    + clear Hk. induction d as [|[k v] d IH]; simpl in Hin.
      * by apply list_elem_of_singleton in Hin as [= _ ->].
      * case_decide.
        -- apply elem_of_cons in Hin as [[= _ ->]|Hin].
           ++ by destruct v.
           ++ apply (Hv t segs). by right.
        -- apply elem_of_cons in Hin as [[= -> ->]|Hin].
           ++ apply (Hv k v). by left.
           ++ apply IH; [|done]. intros t' s' H'. apply (Hv t' s'). by right.
    + intros seg Hs.
      destruct (dict_append_elem _ _ _ _ _ _ Hin Hs) as [[_ ->]|(segs' & H1 & H2)];
        [done|]. by eapply (Hv t segs').
Qed.

Lemma replay_ok log :
  (∀ e, e ∈ log → (2 ≤ length e.2)%nat) → dict_ok (replay log).
Proof.
  unfold replay. induction log as [|e log IH] using rev_ind; intros Hs.
  - split; [apply NoDup_nil_2|]. intros t segs H; inversion H.
  - rewrite foldl_app. simpl. apply dict_append_ok.
    + apply Hs. apply elem_of_app. right. apply list_elem_of_here.
    + apply IH. intros e' He'. apply Hs. apply elem_of_app. by left.
Qed.

(** The fragments of a dict, as many as the log that built it has entries. *)
Lemma dict_append_count tile segment d :
  length (concat (dict_append tile segment d).*2) = S (length (concat d.*2)).
Proof.
  induction d as [|[k v] d IH]; [done|]. cbn [dict_append].
  case_decide; rewrite !fmap_cons; cbn [snd concat]; rewrite !length_app;
    [|rewrite IH; lia].
  simpl. lia.
Qed.

Lemma replay_count log : length (concat (replay log).*2) = length log.
Proof.
  unfold replay. induction log as [|e log IH] using rev_ind; [done|].
  rewrite foldl_app. simpl. rewrite dict_append_count, IH, length_app. simpl. lia.
Qed.

Lemma split_loop_one_tile hyp ts t prev_pt rest st :
  current_tile st = t →
  Forall (λ p, tile_of p ts = Some t) rest →
  split_loop hyp ts prev_pt rest st =
  Some (mkSplit (result st) (emitted st) (current_segment st ++ rest) t).
Proof.
  revert prev_pt st. induction rest as [|p rest IH]; intros prev_pt st Ht Hall; simpl.
  - rewrite app_nil_r. by destruct st; simpl in *; subst.
  - apply Forall_cons in Hall as [Hp Hall].
    unfold split_step. rewrite Hp. simpl. rewrite decide_True by done. simpl.
    rewrite (IH p (push_point p st)) by done. simpl.
    by rewrite <- app_assoc.
Qed.

Lemma elem_of_concat {A} (x : A) (ls : list (list A)) :
  x ∈ concat ls → ∃ l, l ∈ ls ∧ x ∈ l.
Proof.
  induction ls as [|l ls IH]; simpl; [intros H; inversion H|].
  intros [H|H]%elem_of_app.
  - exists l. split; [left|done].
  - destruct (IH H) as (l' & ? & ?). exists l'. split; [by right|done].
Qed.

Lemma emit_segments_length ctx cat make (d : TileDict) :
  (∀ tile segs seg, (tile, segs) ∈ d → seg ∈ segs → (2 ≤ length seg)%nat) →
  length (emit_segments ctx cat make d) = length (concat d.*2).
Proof.
  unfold emit_segments. induction d as [|[tile segs] d IH]; intros Hd; [done|].
  rewrite bind_cons, fmap_cons. cbn [snd concat]. rewrite !length_app.
  rewrite IH by (intros t s g ?; apply (Hd t s g); by right). f_equal.
  assert (∀ seg, seg ∈ segs → (2 ≤ length seg)%nat) as Hs
    by (intros seg; apply (Hd tile segs seg); left).
  clear IH Hd. induction segs as [|seg segs IH]; [done|].
  rewrite filter_cons_True by (specialize (Hs seg ltac:(left)); lia).
  rewrite bind_cons, length_app. simpl. f_equal.
  apply IH. intros g ?. apply Hs. by right.
Qed.

Lemma truediv_zero x ts : PrimFloat.eqb ts 0 = true → Py.truediv x ts = None.
Proof. unfold Py.truediv. intros H. by rewrite H. Qed.

Lemma tile_of_zero p ts : PrimFloat.eqb ts 0 = true → tile_of p ts = None.
Proof. intros H. unfold tile_of, tile_xy. by rewrite (truediv_zero p.1 ts H). Qed.

Lemma tile_of_nan p ts : PrimFloat.is_nan ts = true → tile_of p ts = None.
Proof.
  intros H. unfold tile_of, tile_xy, Py.truediv.
  assert (Prim2SF ts = S754_nan) as Hts.
  { unfold PrimFloat.is_nan in H. rewrite FloatAxioms.eqb_spec in H.
    destruct (Prim2SF ts) as [[]|[]| |[] m e]; try done.
    all: cbn in H; rewrite Z.compare_refl, Pos.compare_cont_refl in H; done. }
  assert (PrimFloat.eqb ts 0 = false) as ->.
  { rewrite FloatAxioms.eqb_spec, Hts. done. }
  simpl. unfold Py.floor, Py.to_Z. rewrite (div_spec p.1 ts), Hts.
  by destruct (Prim2SF p.1) as [[]|[]| |[] m e].
Qed.

(** X1: a polyline of at least two points whose vertices all lie in one
    tile is returned whole, as the single fragment of that tile. *)
Theorem split_single_tile_identity :
  ∀ math_hypot (pts : list Point) (tile_size : float) (t : Tile),
    (2 ≤ length pts)%nat →
    Forall (λ p, tile_of p tile_size = Some t) pts →
    split_polyline_by_tiles math_hypot pts tile_size = Some [(t, [pts])].
Proof.
  intros hyp pts ts t Hlen Hall. unfold split_polyline_by_tiles.
  rewrite bool_decide_eq_false_2 by lia.
  unfold split_run. destruct pts as [|p0 rest]; [simpl in Hlen; lia|].
  apply Forall_cons in Hall as [H0 Hall]. rewrite H0. simpl.
  rewrite (split_loop_one_tile hyp ts t) by done. simpl.
  unfold add_segment. simpl. rewrite bool_decide_eq_true_2 by (simpl in *; lia).
  done.
Qed.

Lemma split_single_tile_identity_witness :
  split_polyline_by_tiles hypot_sqrt [(10, 20); (30, 40); (50, 60)]%float 1000
  = Some [((0, 0), [[(10, 20); (30, 40); (50, 60)]%float])].
Proof.
  apply (split_single_tile_identity hypot_sqrt
           [(10, 20); (30, 40); (50, 60)]%float 1000 (0, 0)).
  - simpl. lia.
  - repeat constructor.
Defined.

(** X2: the partitioner loses no vertex.  For a polyline of at least two
    points the input vertices all appear, in their order, in the stored
    fragments read end to end in the order they were stored; so every
    input vertex is in some fragment of the returned dict. *)
Theorem split_keeps_every_vertex :
  ∀ math_hypot (pts : list Point) (tile_size : float),
    (2 ≤ length pts)%nat →
    (∀ log, split_emitted math_hypot pts tile_size = Some log →
            sublist pts (concat log.*2))
    ∧ (∀ d p, split_polyline_by_tiles math_hypot pts tile_size = Some d →
              p ∈ pts →
              ∃ tile segs seg, (tile, segs) ∈ d ∧ seg ∈ segs ∧ p ∈ seg).
Proof.
  intros hyp pts ts Hlen.
  unfold split_emitted, split_polyline_by_tiles.
  rewrite !bool_decide_eq_false_2 by lia.
  destruct (split_run hyp pts ts) as [st|] eqn:Hrun; simpl; [|done].
  pose proof (split_run_covers _ _ _ _ Hlen Hrun) as Hsub.
  split; [by intros log [= <-]|].
  intros d p [= <-] Hp.
  apply split_run_ok in Hrun as [Hc _]. rewrite Hc.
  pose proof (elem_of_sublist _ _ _ Hp Hsub) as Hc'.
  apply elem_of_concat in Hc' as (seg & Hseg & Hps).
  apply list_elem_of_fmap in Hseg as ([t seg'] & -> & Hin).
  destruct (replay_complete _ _ _ Hin) as (segs & ? & ?).
  by exists t, segs, seg'.
Qed.

(** X3: in the returned dict the tile keys are distinct, no key has an
    empty list and every fragment has at least two points; so the
    [len(seg) < 2] test of the callers never skips a fragment, and they
    emit one object per stored fragment. *)
Theorem split_dict_well_formed :
  ∀ math_hypot (pts : list Point) (tile_size : float) (d : TileDict),
    split_polyline_by_tiles math_hypot pts tile_size = Some d →
    dict_ok d
    ∧ ∀ ctx cat make,
        length (emit_segments ctx cat make d) = length (concat d.*2).
Proof.
  intros hyp pts ts d. unfold split_polyline_by_tiles.
  assert (∀ d, dict_ok d → dict_ok d ∧ ∀ ctx cat make,
            length (emit_segments ctx cat make d) = length (concat d.*2)) as Hw.
  { intros d' Hd. split; [done|]. intros. apply emit_segments_length.
    intros tile segs seg H1 H2. by eapply (dict_values _ Hd). }
  case_bool_decide.
  { intros [= <-]. apply Hw. split; [apply NoDup_nil_2|].
    intros t s H'; inversion H'. }
  destruct (split_run hyp pts ts) as [st|] eqn:Hrun; simpl; [|done].
  intros [= <-]. apply split_run_ok in Hrun as [Hc [_ Hs _]].
  apply Hw. rewrite Hc. by apply replay_ok.
Qed.

(** X4: with a tile size of zero (of either sign) or NaN the partitioner
    raises as soon as it has two points to work on (ZeroDivisionError from
    [tile_xy], ValueError from [math.floor]); with fewer than two points it
    returns the empty dict without looking at the tile size. *)
Theorem split_bad_tile_size :
  ∀ math_hypot (pts : list Point) (tile_size : float),
    PrimFloat.eqb tile_size 0 = true ∨ PrimFloat.is_nan tile_size = true →
    split_polyline_by_tiles math_hypot pts tile_size =
    if bool_decide (length pts < 2)%nat then Some [] else None.
Proof.
  intros hyp pts ts Hts. unfold split_polyline_by_tiles.
  case_bool_decide as Hlen; [done|].
  unfold split_run. destruct pts as [|p0 rest]; [done|].
  by destruct Hts as [H|H];
    [rewrite (tile_of_zero _ _ H)|rewrite (tile_of_nan _ _ H)].
Qed.

Lemma split_keeps_every_vertex_witness :
  sublist road3000
    [(0, 0)%float; road3000_cut1; road3000_cut1; road3000_cut2;
     road3000_cut2; (3000, 0)%float].
Proof.
  apply (proj1 (split_keeps_every_vertex hypot_sqrt road3000 1000%float
                  ltac:(simpl; lia))
           [((0, 0), [(0, 0)%float; road3000_cut1]);
            ((1, 0), [road3000_cut1; road3000_cut2]);
            ((2, 0), [road3000_cut2; (3000, 0)%float])]).
  vm_compute. reflexivity.
Defined.

Lemma split_dict_well_formed_witness :
  dict_ok [((0, 0), [[(0, 0)%float; road3000_cut1]]);
           ((1, 0), [[road3000_cut1; road3000_cut2]]);
           ((2, 0), [[road3000_cut2; (3000, 0)%float]])].
Proof.
  apply (proj1 (split_dict_well_formed hypot_sqrt road3000 1000%float _
                  ltac:(vm_compute; reflexivity))).
Defined.

Lemma split_bad_tile_size_witness :
  split_polyline_by_tiles hypot_sqrt road3000 (-0)%float =
  if bool_decide (length road3000 < 2)%nat then Some [] else None.
Proof.
  apply (split_bad_tile_size hypot_sqrt road3000 (-0)%float).
  left. vm_compute. reflexivity.
Defined.

(** ** Point in polygon, area and projection *)

Lemma pip_loop_no_crossing p vj rest inside b :
  Py.gt vj.2 p.2 = b →
  Forall (λ v : Point, Py.gt v.2 p.2 = b) rest →
  pip_loop p vj rest inside = Some inside.
Proof.
  revert vj inside. induction rest as [|vi rest IH]; intros vj inside Hj Hall; [done|].
  apply Forall_cons in Hall as [Hi Hall]. simpl.
  unfold edge_crosses. rewrite Hi, Hj, xorb_nilpotent. simpl. by apply IH.
Qed.

(** X5: a query point that no vertex of the ring is strictly above, or
    that every vertex is strictly above, is reported outside, and the test
    does not raise: no edge passes the first half of the crossing test, so
    no division is made. *)
Theorem pip_outside_band :
  ∀ (p : Point) (poly : list Point) (b : bool),
    Forall (λ v : Point, Py.gt v.2 p.2 = b) poly →
    point_in_polygon p poly = Some false.
Proof.
  intros p poly b Hall. unfold point_in_polygon. case_bool_decide as Hlen; [done|].
  destruct (last poly) as [vj|] eqn:Hl; simpl.
  - apply (pip_loop_no_crossing p vj poly false b); [|done].
    apply last_Some_elem_of in Hl.
    by apply (proj1 (Forall_forall _ _) Hall).
  - apply last_None in Hl. subst poly. simpl in *. lia.
Qed.

Lemma pip_rotate p (l1 l2 : list Point) :
  l1 ≠ [] → l2 ≠ [] → (3 ≤ length (l1 ++ l2))%nat →
  point_in_polygon p (l1 ++ l2) =
  (x ← pip_loop p (default (0, 0)%float (last l2)) l1 false;
   y ← pip_loop p (default (0, 0)%float (last l1)) l2 false;
   Some (xorb x y)).
Proof.
  intros H1 H2 Hlen. unfold point_in_polygon.
  rewrite bool_decide_eq_false_2 by lia.
  destruct l2 as [|q l2 _] using rev_ind; [done|].
  destruct l1 as [|q1 l1 _] using rev_ind; [done|].
  rewrite (app_assoc _ l2 [q]), !last_snoc. simpl.
  rewrite <- app_assoc. rewrite pip_loop_app, last_snoc. simpl.
  destruct (pip_loop p q (l1 ++ [q1]) false) as [x|]; simpl; [|done].
  rewrite pip_loop_parity.
  by destruct (pip_loop p q1 (l2 ++ [q]) false).
Qed.

(** X6: the test does not depend on the vertex the ring starts at: a
    ring and each of its rotations give the same answer, or raise alike. *)
Theorem pip_rotation_invariant :
  ∀ (p : Point) (l1 l2 : list Point),
    point_in_polygon p (l1 ++ l2) = point_in_polygon p (l2 ++ l1).
Proof.
  intros p l1 l2.
  destruct (decide (l1 = [])) as [->|H1]; [by rewrite app_nil_r|].
  destruct (decide (l2 = [])) as [->|H2]; [by rewrite app_nil_r|].
  destruct (decide (length (l1 ++ l2) < 3)%nat) as [Hlen|Hlen].
  - unfold point_in_polygon. rewrite !bool_decide_eq_true_2; [done| |done].
    rewrite length_app in *. lia.
  - rewrite !pip_rotate; try done; [|rewrite length_app in *; lia..].
    destruct (pip_loop p _ l1 false) as [x|], (pip_loop p _ l2 false) as [y|];
      simpl; try done.
    by rewrite xorb_comm.
Qed.

Lemma binary_round_aux_sign s mx ex lx :
  match binary_round_aux prec emax s mx ex lx with
  | S754_zero s' | S754_infinity s' | S754_finite s' _ _ => s' = s
  | S754_nan => True
  end.
Proof.
  unfold binary_round_aux.
  destruct (shr_fexp prec emax mx ex lx) as [mrs' e'].
  destruct (shr_fexp prec emax _ e' loc_Exact) as [mrs'' e''].
  destruct (shr_m mrs''); [done| |done].
  by destruct (_ <=? _).
Qed.

Lemma abs_half_not_negative a :
  sf_not_negative (Prim2SF (PrimFloat.abs a * 0.5)).
Proof.
  rewrite mul_spec, abs_spec.
  assert (∃ m e, Prim2SF 0.5 = S754_finite false m e) as (m & e & ->)
    by (do 2 eexists; vm_compute; reflexivity).
  destruct (Prim2SF a) as [s|s| |s ma ea]; try done.
  unfold SF64mul, SFmul, SFabs. simpl xorb.
  pose proof (binary_round_aux_sign false (Z.pos (ma * m)) (ea + e) loc_Exact) as H.
  by destruct (binary_round_aux _ _ _ _ _ _).
Qed.

Lemma not_negative_not_below x m :
  sf_not_negative (Prim2SF x) → PrimFloat.leb m 0 = true → Py.lt x m = false.
Proof.
  unfold Py.lt. rewrite leb_spec, ltb_spec.
  change (Prim2SF 0) with (S754_zero false).
  unfold SFleb, SFltb.
  destruct (Prim2SF x) as [sx|sx| |sx mx ex], (Prim2SF m) as [sm|sm| |sm mm em];
    simpl; try done.
  all: try (intros ->); try destruct sm; try destruct sx; try done.
Qed.

(** X7: [polygon_area] is never negative: it is below no number that is
    [<= 0] (it can be NaN), so an area threshold of zero or less drops
    nothing; with fewer than 3 points it is 0. *)
Theorem polygon_area_not_negative :
  ∀ (points : list Point) (m : float),
    PrimFloat.leb m 0 = true →
    Py.lt (polygon_area points) m = false
    ∧ ((length points < 3)%nat → polygon_area points = 0%float).
Proof.
  intros points m Hm. unfold polygon_area.
  destruct points as [|first rest]; [by split; [apply not_negative_not_below|]|].
  case_bool_decide as Hlen.
  - split; [by apply not_negative_not_below|done].
  - split; [|done]. apply not_negative_not_below; [|done].
    apply abs_half_not_negative.
Qed.

Lemma clamp_above c d lat :
  Py.gt lat c = true → Py.max (Py.min lat c) d = Py.max (Py.min c c) d.
Proof.
  unfold Py.min, Py.max, Py.gt, Py.lt. intros H. rewrite H.
  by destruct (PrimFloat.ltb c c).
Qed.

Lemma clamp_below lat :
  Py.lt lat (-85.05112878)%float = true →
  Py.max (Py.min lat 85.05112878) (-85.05112878) = (-85.05112878)%float.
Proof.
  unfold Py.min, Py.max, Py.gt, Py.lt. intros H.
  assert (PrimFloat.ltb 85.05112878 lat = false) as ->.
  { revert H. rewrite !ltb_spec. unfold SFltb.
    assert (∃ m e, Prim2SF 85.05112878 = S754_finite false m e
                   ∧ Prim2SF (-85.05112878) = S754_finite true m e)
      as (m & e & -> & ->) by (do 2 eexists; split; vm_compute; reflexivity).
    destruct (Prim2SF lat) as [s|s| |s ml el]; simpl; try done.
    - by destruct s.
    - by destruct s. }
  by rewrite H.
Qed.

(** X8: the projection clamps the latitude: a latitude above 85.05112878
    projects as 85.05112878 itself, one below -85.05112878 as
    -85.05112878. *)
Theorem lonlat_latitude_clamped :
  ∀ math_log math_tan (lon lat : float),
    (Py.gt lat 85.05112878 = true →
     lonlat_to_webmercator_m math_log math_tan lon lat =
     lonlat_to_webmercator_m math_log math_tan lon 85.05112878)
    ∧ (Py.lt lat (-85.05112878) = true →
       lonlat_to_webmercator_m math_log math_tan lon lat =
       lonlat_to_webmercator_m math_log math_tan lon (-85.05112878)).
Proof.
  intros mlog mtan lon lat. unfold lonlat_to_webmercator_m. split; intros H.
  - by rewrite (clamp_above _ _ _ H).
  - rewrite (clamp_below _ H).
    replace (Py.max (Py.min (-85.05112878) 85.05112878) (-85.05112878))
      with (-85.05112878)%float by (vm_compute; reflexivity).
    done.
Qed.

Lemma pip_outside_band_witness :
  point_in_polygon (1, 10)%float [(0, 0); (4, 0); (0, 4)]%float = Some false.
Proof.
  apply (pip_outside_band (1, 10)%float [(0, 0); (4, 0); (0, 4)]%float false).
  repeat constructor.
Defined.

Lemma polygon_area_not_negative_witness :
  Py.lt (polygon_area [(0, 0); (4, 0); (0, 4)]%float) 0 = false.
Proof.
  apply (polygon_area_not_negative [(0, 0); (4, 0); (0, 4)]%float 0%float).
  vm_compute. reflexivity.
Defined.

Lemma lonlat_latitude_clamped_witness :
  lonlat_to_webmercator_m libm_stub libm_stub 10 90 =
  lonlat_to_webmercator_m libm_stub libm_stub 10 85.05112878.
Proof.
  apply (proj1 (lonlat_latitude_clamped libm_stub libm_stub 10%float 90%float)).
  vm_compute. reflexivity.
Defined.

(** ** Binary vector decoder: what it yields and when it raises *)









Lemma decode_shape_type content r :
  decode_shape content = Some (Some r) → shape_type r ∈ [3; 5; 13; 15].
Proof.
  unfold decode_shape. intros H.
  step_in H. step_in H. step_in H.
  destruct (negb _) eqn:Hn; [done|].
  apply negb_false_iff, bool_decide_eq_true in Hn.
  repeat step_in H. all: by injection H as <-.
Qed.

(** Whatever the loop yields was decoded from a stretch of the file. *)
Lemma shp_loop_elem {A} (decode : list byte → option (option A)) fuel rest r :
  r ∈ (shp_loop decode fuel rest).1 → ∃ content, decode content = Some (Some r).
Proof.
  revert rest. induction fuel as [|fuel IH]; intros rest; simpl.
  { intros H; inversion H. }
  case_bool_decide; [intros H'; inversion H'|].
  case_bool_decide; simpl; [|intros H'; inversion H'].
  destruct (unpack_be_i32 _) as [words|]; [|intros H'; inversion H'].
  destruct (file_read _ _) as [[content rest2]|]; [|intros H'; inversion H'].
  case_bool_decide; simpl; [|intros H'; inversion H'].
  destruct (decode content) as [[r0|]|] eqn:Hd;
    [|apply IH|intros H'; inversion H'].
  destruct (shp_loop decode fuel rest2) as [rs e] eqn:Hl. simpl.
  intros [->|Hin]%elem_of_cons; [by exists content|].
  apply (IH rest2). by rewrite Hl.
Qed.

(** X9: every record [iter_shp_records] yields has shape type 3, 5, 13 or
    15 (PolyLine, Polygon and their Z variants); null shapes, points and
    every other type are skipped. *)
Theorem shp_records_shape_types :
  ∀ (file : list byte) (r : ShpRecord),
    r ∈ (iter_shp_records file).1 → shape_type r ∈ [3; 5; 13; 15].
Proof.
  intros file r. unfold iter_shp_records.
  case_bool_decide; cbn [negb]; [|intros H'; inversion H'].
  intros Hr. apply shp_loop_elem in Hr as [content Hc].
  by eapply decode_shape_type.
Qed.



Lemma shp_loop_short {A} (decode : list byte → option (option A)) fuel rest :
  (length rest < 8)%nat → shp_loop decode (S fuel) rest = ([], Exhausted).
Proof.
  intros Hlen. simpl. case_bool_decide; [done|].
  rewrite bool_decide_eq_false_2; [done|]. rewrite length_take. lia.
Qed.

Lemma shp_loop_truncate {A} (decode : list byte → option (option A))
    fuel rest rs m fuel' :
  shp_loop decode fuel rest = (rs, Exhausted) →
  (length (take m rest) < fuel')%nat →
  ∃ k, shp_loop decode fuel' (take m rest) = (take k rs, Exhausted).
Proof.
  revert rest rs m fuel'.
  induction fuel as [|fuel IH]; intros rest rs m fuel' Hfull Hfuel; [done|].
  destruct fuel' as [|fuel']; [lia|].
  destruct (decide (length (take m rest) < 8)%nat) as [Hshort|Hlong].
  { exists 0%nat. rewrite take_0. by apply shp_loop_short. }
  rewrite length_take in Hlong, Hfuel.
  simpl in Hfull. simpl.
  rewrite take_take, (Nat.min_l 8 m) by lia.
  rewrite bool_decide_eq_false_2 in Hfull by (by destruct rest; [simpl in Hlong; lia|]).
  rewrite bool_decide_eq_false_2 by (by destruct rest; [simpl in Hlong; lia|]).
  rewrite bool_decide_eq_true_2 in Hfull by (rewrite length_take; lia).
  rewrite bool_decide_eq_true_2 by (rewrite length_take; lia).
  simpl in *.
  destruct (unpack_be_i32 (drop 4 (take 8 rest))) as [words|]; [|done].
  unfold file_read in *.
  destruct (Z.ltb_spec (words * 2) (-1)); [done|].
  destruct (Z.eqb_spec (words * 2) (-1)); [lia|].
  set (c := Z.to_nat (words * 2)) in *.
  assert (Z.of_nat c = words * 2) as Hc by lia.
  replace (drop 8 (take m rest)) with (take (m - 8) (drop 8 rest))
    by (rewrite take_drop_commute; f_equal; f_equal; lia).
  rewrite <- Hc in *. clearbody c.
  case_bool_decide as Hcontent; simpl in Hfull.
  2:{ injection Hfull as <-. exists 0%nat.
      rewrite bool_decide_eq_false_2; [done|].
      rewrite !length_take, length_drop in *. lia. }
  rewrite length_take, length_drop in Hcontent.
  destruct (decide (m - 8 < c)%nat) as [Hcut|Hkeep].
  { exists 0%nat. rewrite bool_decide_eq_false_2; [by rewrite take_0|].
    rewrite !length_take, length_drop. lia. }
  rewrite bool_decide_eq_true_2 by (rewrite !length_take, length_drop; lia).
  simpl. rewrite take_take, (Nat.min_l c (m - 8)) by lia.
  replace (drop c (take (m - 8) (drop 8 rest)))
    with (take (m - 8 - c) (drop c (drop 8 rest)))
    by (rewrite take_drop_commute; f_equal; f_equal; lia).
  assert (length (take (m - 8 - c) (drop c (drop 8 rest))) < fuel')%nat as Hf.
  { rewrite length_take, !length_drop. lia. }
  destruct (decode (take c (drop 8 rest))) as [[r|]|]; [| |done].
  - destruct (shp_loop decode fuel (drop c (drop 8 rest))) as [rs2 e2] eqn:Hl.
    injection Hfull as <- ->.
    destruct (IH _ _ (m - 8 - c)%nat fuel' Hl Hf) as [k ->].
    by exists (S k).
  - destruct (IH _ _ (m - 8 - c)%nat fuel' Hfull Hf) as [k ->].
    by exists k.
Qed.

(** X11: a file cut short after its header is read without error: if a
    file is read to its end, then any prefix of it that keeps the 100-byte
    header yields a prefix of the same records (or points) and ends
    normally. *)
Theorem shp_truncated_file_yields_prefix :
  ∀ (file : list byte) (n : nat),
    (100 ≤ n)%nat →
    (∀ rs, iter_shp_records file = (rs, Exhausted) →
           ∃ k, iter_shp_records (take n file) = (take k rs, Exhausted))
    ∧ (∀ ps, iter_shp_point_records file = (ps, Exhausted) →
             ∃ k, iter_shp_point_records (take n file) = (take k ps, Exhausted)).
Proof.
  intros file n Hn. unfold iter_shp_records, iter_shp_point_records.
  case_bool_decide as Hh; cbn [negb]; [|by split].
  rewrite length_take in Hh.
  rewrite take_take, (Nat.min_l 100 n) by lia.
  rewrite bool_decide_eq_true_2 by (rewrite length_take; lia). cbn [negb].
  replace (drop 100 (take n file)) with (take (n - 100) (drop 100 file))
    by (rewrite take_drop_commute; f_equal; f_equal; lia).
  split; intros rs Hfull;
    (eapply shp_loop_truncate; [exact Hfull|]);
    rewrite !length_take, length_drop; lia.
Qed.

Lemma shp_records_shape_types_witness :
  5 ∈ [3; 5; 13; 15].
Proof.
  apply (shp_records_shape_types shp_two_point_polygon
           (mkShpRecord 5 [[(0, 0); (1, 1)]%float])).
  vm_compute. apply list_elem_of_here.
Defined.


Lemma shp_truncated_file_yields_prefix_witness :
  ∃ k, iter_shp_records (take 120 shp_two_point_polygon) =
       (take k [mkShpRecord 5 [[(0, 0); (1, 1)]%float]], Exhausted).
Proof.
  apply (proj1 (shp_truncated_file_yields_prefix shp_two_point_polygon 120
                  ltac:(lia))).
  vm_compute. reflexivity.
Defined.

(** ** Attribute decoder *)

Section Dbf.
Variable codec_decode : list byte → string.

Lemma dbf_row_dom rec fields offset (out_ : DbfRec) :
  dom (dbf_row codec_decode rec fields offset out_) = dom out_ ∪ field_names fields.
Proof.
  revert offset out_. induction fields as [|[[name ftype] flen] fields IH];
    intros offset out_; simpl.
  - unfold field_names. simpl. by rewrite (right_id_L ∅ (∪)).
  - rewrite IH, dom_insert_L. unfold field_names. simpl.
    by rewrite (comm_L (∪) {[name]} (dom out_)), <- (assoc_L (∪)).
Qed.

Lemma dbf_rows_spec n record_len fields rest r :
  (length (dbf_rows codec_decode n record_len fields rest) ≤ n)%nat
  ∧ (r ∈ dbf_rows codec_decode n record_len fields rest →
     dom r = field_names fields).
Proof.
  revert rest. induction n as [|n IH]; intros rest; simpl.
  - split; [lia|]. intros H; inversion H.
  - case_bool_decide; simpl; [|split; [lia|intros H'; inversion H']].
    destruct (IH (drop (Z.to_nat record_len) rest)) as [IH1 IH2].
    case_bool_decide; [split; [lia|done]|].
    split; [simpl; lia|].
    intros [->|Hin]%elem_of_cons; [|by apply IH2].
    by rewrite dbf_row_dom, dom_empty_L, (left_id_L ∅ (∪)).
Qed.

End Dbf.

Lemma dbf_fields_fuel fuel fuel' rest :
  (length rest < fuel)%nat → (length rest < fuel')%nat →
  dbf_fields fuel rest = dbf_fields fuel' rest.
Proof.
  revert fuel' rest. induction fuel as [|fuel IH]; intros fuel' rest H1 H2; [lia|].
  destruct fuel' as [|fuel']; [lia|]. simpl.
  destruct (take 32 rest) as [|d0 desc] eqn:Ht; [done|].
  case_decide; [done|].
  destruct (_ !! 11%nat); simpl; [|done].
  destruct (_ !! _); simpl; [|done].
  assert (length (drop 32 rest) < length rest)%nat.
  { rewrite length_drop. destruct rest; [done|simpl; lia]. }
  rewrite (IH fuel' (drop 32 rest)) by lia. done.
Qed.

(** X12: [read_dbf_records] yields at most as many records as the header
    announces, and every record has exactly the declared field names as
    its keys.  The loop over the field descriptors ends within the file:
    more fuel than the file has bytes changes nothing. *)
Theorem dbf_records_follow_header :
  ∀ codec_decode (file : list byte) recs e,
    read_dbf_records codec_decode file = (recs, e) →
    (length recs ≤ Z.to_nat (le_uint (py_slice (take 32 file) 4 8)))%nat
    ∧ (∀ fields r,
         dbf_fields (S (length file)) (drop 32 file) = Some fields →
         r ∈ recs → dom r = field_names fields)
    ∧ (∀ fuel, (length file < fuel)%nat →
         dbf_fields fuel (drop 32 file) =
         dbf_fields (S (length file)) (drop 32 file)).
Proof.
  intros codec file recs e. unfold read_dbf_records.
  assert (∀ fuel, (length file < fuel)%nat →
            dbf_fields fuel (drop 32 file) =
            dbf_fields (S (length file)) (drop 32 file)) as Hfuel.
  { intros fuel Hf. apply dbf_fields_fuel; rewrite length_drop; lia. }
  case_bool_decide; cbn [negb].
  2:{ intros [= <- <-]. split; [simpl; lia|]. split; [|done].
      intros fields r _ H'. inversion H'. }
  destruct (dbf_fields _ _) as [fields|].
  2:{ intros [= <- <-]. split; [simpl; lia|]. split; [|done].
      intros fields r _ H'. inversion H'. }
  intros [= <- <-]. split; [|split; [|done]].
  - apply (dbf_rows_spec codec _ _ _ _ ∅).
  - intros fields' r [= <-]. apply dbf_rows_spec.
Qed.

Lemma dbf_records_follow_header_witness :
  (length [({[ "type" := "primary" ]} : DbfRec)]
   ≤ Z.to_nat (le_uint (py_slice (take 32 demo_roads_dbf) 4 8)))%nat.
Proof.
  assert (read_dbf_records decode_ascii_ignore demo_roads_dbf =
          ([({[ "type" := "primary" ]} : DbfRec)], Exhausted)) as Hread
    by (vm_compute; reflexivity).
  exact (proj1 (dbf_records_follow_header decode_ascii_ignore demo_roads_dbf
                  _ _ Hread)).
Defined.

(** ** Streaming aggregator with any bound *)

Lemma append_lines_logical max_open calls disk0 :
  let st := append_lines calls (writer_init max_open, disk0) in
  NoDup (_files st.1).*1
  ∧ _max_open st.1 = max_open
  ∧ ∀ path, logical_contents st path =
            file_contents disk0 path +:+ written_text path calls.
Proof.
  induction calls as [|[q line] calls IH] using rev_ind; simpl.
  - split; [apply NoDup_nil_2|]. split; [done|].
    intros path. unfold logical_contents. simpl. done.
  - unfold append_lines in *. rewrite foldl_app. simpl.
    destruct IH as (Hnd & Hmax & Hlog).
    set (st := foldl _ _ calls) in *.
    split; [by apply append_line_NoDup|].
    split; [by rewrite append_line_max_open|].
    intros path. destruct st as [w disk]. simpl in *.
    rewrite append_line_logical by done.
    rewrite Hlog, written_text_app. simpl.
    rewrite string_app_assoc. by case_decide.
Qed.

Lemma append_lines_none_open max_open calls disk0 :
  max_open ≤ 0 →
  _files (append_lines calls (writer_init max_open, disk0)).1 = [].
Proof.
  intros Hm. induction calls as [|[q line] calls IH] using rev_ind;
    [reflexivity|].
  destruct (append_lines_logical max_open calls disk0) as (Hnd & Hmax & _).
  unfold append_lines in *. rewrite foldl_app. simpl.
  set (st := foldl _ _ calls) in *.
  apply fmap_nil_inv with (f := fst).
  rewrite append_line_keys by done. rewrite IH, Hmax. unfold lru_step. simpl.
  destruct (Z.ltb_spec max_open (Z.of_nat 1)); [done|exfalso; lia].
Qed.

(** X13: the aggregator loses no line whatever its bound, zero and
    negative bounds included: after any sequence of [append_line] calls
    and [close], each file holds what it held before followed by the lines
    written to it, in order.  With a bound of zero or less every call
    closes the file it has just written, so nothing stays open and the
    lines are on disk after each call. *)
Theorem lru_writer_lossless_any_bound :
  ∀ (max_open : Z) (calls : list (string * string)) (disk0 : Disk),
    let st := append_lines calls (writer_init max_open, disk0) in
    (∀ path, file_contents (writer_close st.1 st.2).2 path =
             file_contents disk0 path +:+ written_text path calls)
    ∧ (max_open ≤ 0 →
       _files st.1 = []
       ∧ ∀ path, file_contents st.2 path =
                 file_contents disk0 path +:+ written_text path calls).
Proof.
  intros max_open calls disk0 st.
  destruct (append_lines_logical max_open calls disk0) as (Hnd & Hmax & Hlog).
  fold st in Hnd, Hmax, Hlog. split.
  - intros path. rewrite writer_close_contents by done.
    rewrite <- Hlog. by destruct st.
  - intros Hm. pose proof (append_lines_none_open max_open calls disk0 Hm) as He.
    fold st in He. split; [done|].
    intros path. rewrite <- Hlog. unfold logical_contents. rewrite He. simpl.
    by rewrite string_app_nil_r.
Qed.

Lemma lru_writer_lossless_any_bound_witness :
  _files (append_lines demo_calls (writer_init 0, ∅)).1 = [].
Proof.
  apply (proj2 (lru_writer_lossless_any_bound 0 demo_calls ∅)). lia.
Defined.

(** ** Principal axes, clip sampling and places *)

(* ---------- pca ---------- *)
(** X18: [pca_obb] and [pca_extents] agree: one raises exactly when the
    other does; with fewer than 3 points both return None; and when
    [pca_obb] returns corners there are 4 of them and [pca_extents]
    returns two extents, neither below 0.2. *)
Theorem pca_obb_extents_agree :
  ∀ math_hypot (points : list Point),
    (pca_obb math_hypot points = None ↔ pca_extents math_hypot points = None)
    ∧ ((length points < 3)%nat →
       pca_obb math_hypot points = Some None
       ∧ pca_extents math_hypot points = Some None)
    ∧ (∀ corners, pca_obb math_hypot points = Some (Some corners) →
         length corners = 4%nat
         ∧ ∃ eu ev, pca_extents math_hypot points = Some (Some (eu, ev))
                    ∧ Py.lt eu 0.2 = false ∧ Py.lt ev 0.2 = false).
Proof.
  intros hyp points. unfold pca_obb, pca_extents. split; [|split].
  - destruct (principal_axis hyp points) as [[[[[mx my] ux] uy]|]|]; simpl;
      [|done|done].
    destruct (axis_ranges points mx my ux uy) as [[[min_u max_u] min_v] max_v].
    by destruct (_ || _).
  - intros Hlen. unfold principal_axis.
    by rewrite bool_decide_eq_true_2.
  - intros corners.
    destruct (principal_axis hyp points) as [[[[[mx my] ux] uy]|]|]; simpl;
      [|done|done].
    destruct (axis_ranges points mx my ux uy) as [[[min_u max_u] min_v] max_v].
    destruct (Py.lt (max_u - min_u) 0.2) eqn:Hu; [done|].
    destruct (Py.lt (max_v - min_v) 0.2) eqn:Hv; [done|].
    simpl. intros [= <-]. split; [done|]. eauto.
Qed.

(* ---------- clip sampling ---------- *)
Lemma every_nth_from_sublist {A} skip step (l : list A) :
  sublist (every_nth_from skip step l) l.
Proof.
  revert skip. induction l as [|x l IH]; intros skip; simpl; [done|].
  destruct skip; [by apply sublist_skip|by apply sublist_cons].
Qed.

Lemma every_nth_from_length {A} skip step (l : list A) :
  (1 ≤ step)%nat →
  (step * length (every_nth_from skip step l) ≤ length l + step - 1 - skip
   ∨ (length l ≤ skip ∧ every_nth_from skip step l = []))%nat.
Proof.
  intros Hs. revert skip. induction l as [|x l IH]; intros skip; simpl.
  - destruct skip; right; split; (lia || done).
  - destruct skip as [|skip]; simpl.
    + left. destruct (IH (step - 1)%nat) as [H|[H ->]]; simpl; lia.
    + destruct (IH skip) as [H|[H ->]]; [left; lia|right; split; [lia|done]].
Qed.

Lemma every_nth_one {A} (l : list A) : every_nth 1 l = l.
Proof.
  unfold every_nth. induction l as [|x l IH]; [done|]. simpl. by rewrite IH.
Qed.

Lemma sample_bound {A} (k : nat) (l : list A) :
  (1 ≤ k)%nat →
  (length (every_nth (Nat.max 1 (length l / k)) l) ≤ 2 * k - 1)%nat.
Proof.
  intros Hk. unfold every_nth.
  set (n := length l). set (s := Nat.max 1 (n / k)).
  assert (1 ≤ s)%nat as Hs by lia.
  destruct (every_nth_from_length 0 s l Hs) as [H|[_ ->]]; [|simpl; lia].
  fold n in H. set (c := length (every_nth_from 0 s l)) in *. clearbody c.
  pose proof (Nat.div_mod_eq n k) as Hdm.
  pose proof (Nat.mod_upper_bound n k ltac:(lia)) as Hub.
  set (q := (n / k)%nat) in *. set (r := (n mod k)%nat) in *.
  clearbody q r. subst s.
  destruct (decide (q = 0)%nat) as [->|Hq].
  - replace (Nat.max 1 0) with 1%nat in H by lia. lia.
  - replace (Nat.max 1 q) with q in H by lia. nia.
Qed.

Lemma any_inside_true ctx clip sample :
  any_inside ctx clip sample = Some true →
  ∃ p, p ∈ sample
       ∧ point_in_polygon
           ((p.1 + (origin ctx).1)%float, (p.2 + (origin ctx).2)%float) clip
         = Some true.
Proof.
  induction sample as [|p sample IH]; simpl; [done|].
  destruct (point_in_polygon _ clip) as [[|]|] eqn:Hp; simpl;
    [|..|intros H; discriminate H].
  - intros _. exists p. split; [left|done].
  - intros H. destruct (IH H) as (q & ? & ?). exists q. split; [by right|done].
Qed.

Lemma any_inside_false ctx clip sample p :
  any_inside ctx clip sample = Some false → p ∈ sample →
  point_in_polygon
    ((p.1 + (origin ctx).1)%float, (p.2 + (origin ctx).2)%float) clip
  = Some false.
Proof.
  induction sample as [|q sample IH]; simpl; [intros _ H; inversion H|].
  intros H Hin.
  match type of H with
  | mbind _ ?m = _ => destruct m as [[|]|] eqn:Hq; simpl in H; try done
  end.
  apply elem_of_cons in Hin as [->|Hin]; [done|by apply IH].
Qed.

(** X19: the clip test of a polyline.  It tests a sample of the vertices,
    at most 31 of them; a line is kept only if one of its vertices is
    inside the clip polygon; and a line of fewer than 32 points is dropped
    only if none of its vertices is inside. *)
Theorem keep_line_by_clip_sampling :
  ∀ (ctx : Context) (clip points_local : list Point),
    clip_poly_abs ctx = Some clip →
    (∃ sample, keep_line_by_clip ctx points_local = any_inside ctx clip sample
               ∧ sublist sample points_local
               ∧ (length sample ≤ 31)%nat)
    ∧ (keep_line_by_clip ctx points_local = Some true →
       ∃ p, p ∈ points_local
            ∧ point_in_polygon
                ((p.1 + (origin ctx).1)%float, (p.2 + (origin ctx).2)%float) clip
              = Some true)
    ∧ ((length points_local < 32)%nat →
       keep_line_by_clip ctx points_local = Some false →
       ∀ p, p ∈ points_local →
         point_in_polygon
           ((p.1 + (origin ctx).1)%float, (p.2 + (origin ctx).2)%float) clip
         = Some false).
Proof.
  intros ctx clip pts Hclip. unfold keep_line_by_clip. rewrite Hclip.
  split; [|split].
  - eexists. split; [done|]. split; [apply every_nth_from_sublist|].
    exact (sample_bound 16 pts ltac:(lia)).
  - intros H. apply any_inside_true in H as (p & Hp & Hin).
    exists p. split; [|done].
    eapply elem_of_sublist; [exact Hp|apply every_nth_from_sublist].
  - intros Hlen H p Hp.
    assert (Nat.max 1 (length pts / 16) = 1%nat) as Hstep.
    { assert (length pts / 16 < 2)%nat as Hd
        by (apply Nat.Div0.div_lt_upper_bound; clear -Hlen; lia).
      apply Nat.max_l. clear -Hd. lia. }
    rewrite Hstep, every_nth_one in H. by eapply any_inside_false.
Qed.

(* ---------- places ---------- *)
Section Places.
Variable math_hypot : float → float → float.
Variable math_log : float → option float.
Variable math_tan : float → option float.
Variable float_of_string : string → option float.
Variable codec_decode : list byte → string.

Lemma place_record_elem ctx rec out e :
  place_record math_log math_tan ctx rec = Some out → e ∈ out →
  e.1.1 = py_lower (rec_get rec.2 "type")
  ∧ e.1.1 ∈ ["neighbourhood"; "quarter"; "suburb"; "city"]
  ∧ e.1.2 = rec_get rec.2 "name" ∧ e.1.2 ≠ "".
Proof.
  unfold place_record. intros H He.
  case_bool_decide as Ht; simpl in H; [|simplify_eq; by inversion He].
  case_bool_decide as Hn; [simplify_eq; by inversion He|].
  step_in H. injection H as <-. by apply list_elem_of_singleton in He as ->.
Qed.

Lemma for_places_elem ctx recs out e :
  for_places math_log math_tan ctx recs = Some out → e ∈ out →
  ∃ rec o, rec ∈ recs ∧ place_record math_log math_tan ctx rec = Some o ∧ e ∈ o.
Proof.
  revert out. induction recs as [|rec recs IH]; intros out; simpl.
  - intros [= <-] Hx. inversion Hx.
  - destruct (place_record _ _ _ rec) as [o|] eqn:Hb; simpl; [|done].
    destruct (for_places _ _ _ recs) as [rest|]; simpl; [|done].
    intros [= <-] [Hx|Hx]%elem_of_app.
    + exists rec, o. split; [left|done].
    + destruct (IH rest eq_refl Hx) as (rec' & o' & ? & ? & ?).
      exists rec', o'. split; [by right|done].
Qed.

(** X17: every entry [main] writes to places.json has one of the types
    neighbourhood, quarter, suburb and city (in lower case) and a name that
    is not empty. *)
Theorem main_places_named_and_typed :
  ∀ (files : Files) (a : Args.t) (clip : option (list Point)) status out e,
    main math_hypot math_log math_tan float_of_string codec_decode files a clip
      = Some (status, out) →
    e ∈ places out →
    e.1.1 ∈ ["neighbourhood"; "quarter"; "suburb"; "city"] ∧ e.1.2 ≠ "".
Proof.
  intros files a clip status out e. unfold main. intros H He.
  repeat step_in H. injection H as <- <-. simpl in He.
  match goal with Hp : places_pass _ _ _ _ _ = Some _ |- _ => rename Hp into Hpl end.
  unfold places_pass in Hpl.
  destruct (_ && _); [|simplify_eq; by inversion He].
  destruct (iter_shp_point_records _) as [xs ex].
  destruct (read_dbf_records _ _) as [ys ey].
  step_in Hpl.
  destruct (for_places_elem _ _ _ _ Hpl He) as (rec & o & _ & Hr & Ho).
  by destruct (place_record_elem _ _ _ _ Hr Ho) as (_ & ? & _ & ?).
Qed.

End Places.

Lemma main_places_named_and_typed_witness :
  ∃ status out e,
    demo_run = Some (status, out) ∧ e ∈ places out
    ∧ e.1.1 ∈ ["neighbourhood"; "quarter"; "suburb"; "city"] ∧ e.1.2 ≠ "".
Proof.
  eexists _, _, _. split; [vm_compute; reflexivity|].
  split; [apply list_elem_of_here|].
  eapply (main_places_named_and_typed hypot_sqrt libm_stub libm_stub
            decimal_of_string decode_ascii_ignore demo_files demo_args None).
  - vm_compute. reflexivity.
  - apply list_elem_of_here.
Defined.

Lemma pca_obb_extents_agree_witness :
  pca_obb hypot_sqrt [(0, 0); (1, 1)]%float = Some None
  ∧ pca_extents hypot_sqrt [(0, 0); (1, 1)]%float = Some None.
Proof.
  apply (proj1 (proj2 (pca_obb_extents_agree hypot_sqrt [(0, 0); (1, 1)]%float))).
  simpl. lia.
Defined.

Lemma keep_line_by_clip_sampling_witness :
  ∃ p, p ∈ [(5, 5); (1, 1)]%float
       ∧ point_in_polygon ((p.1 + 0)%float, (p.2 + 0)%float)
           [(0, 0); (4, 0); (0, 4)]%float = Some true.
Proof.
  apply (proj1 (proj2 (keep_line_by_clip_sampling
           (mkContext demo_args (0, 0)%float (Some [(0, 0); (4, 0); (0, 4)]%float))
           [(0, 0); (4, 0); (0, 4)]%float [(5, 5); (1, 1)]%float eq_refl))).
  vm_compute. reflexivity.
Defined.

(** ** The fragments a run emits *)

(** Membership in a list that is written out. *)
Ltac in_list := repeat first [apply list_elem_of_here | apply list_elem_of_further].

Lemma building_height_default_range s :
  building_height_default s ∈ [9; 10; 12; 15; 18; 24; 30]%float.
Proof. unfold building_height_default. repeat case_decide; in_list. Qed.

Lemma road_width_default_range s :
  road_width_default s ∈ [2; 2.5; 4; 6; 8; 10; 12; 16; 18]%float.
Proof. unfold road_width_default. repeat case_decide; in_list. Qed.

Lemma relative_to_length c pts : length (relative_to c pts) = length pts.
Proof. unfold relative_to. by rewrite length_fmap. Qed.

Lemma emit_segments_elem ctx cat make tile_segments x :
  x ∈ emit_segments ctx cat make tile_segments →
  ∃ pts, category x = cat ∧ obj x = make pts ∧ (2 ≤ length pts)%nat.
Proof.
  unfold emit_segments. intros Hx.
  apply list_elem_of_bind in Hx as ([tile segments] & Hx & _).
  apply list_elem_of_bind in Hx as (seg & Hx & Hseg).
  apply list_elem_of_singleton in Hx as ->.
  apply list_elem_of_filter in Hseg as [Hlen _].
  eexists. split; [done|]. split; [done|]. rewrite relative_to_length. lia.
Qed.

Lemma pca_obb_corners hyp points corners :
  pca_obb hyp points = Some (Some corners) → length corners = 4%nat.
Proof.
  unfold pca_obb. intros H.
  destruct (principal_axis hyp points) as [[[[[mx my] ux] uy]|]|]; simpl in H;
    try done.
  destruct (axis_ranges points mx my ux uy) as [[[min_u max_u] min_v] max_v].
  destruct (_ || _); [done|]. by injection H as <-.
Qed.

Lemma place_ring_length ctx ring tx ty vertices :
  place_ring ctx ring = Some (tx, ty, vertices) → length vertices = length ring.
Proof.
  unfold place_ring. intros H. repeat step_in H.
  injection H as <- <- <-. apply relative_to_length.
Qed.

Section Fragments.
Variable math_hypot : float → float → float.
Variable math_log : float → option float.
Variable math_tan : float → option float.
Variable float_of_string : string → option float.
Variable codec_decode : list byte → string.

Ltac nothing Hx := simplify_eq; by inversion Hx.

Lemma building_rect_ok ctx h pts out x :
  h ∈ [9; 10; 12; 15; 18; 24; 30]%float →
  building_rect math_hypot ctx h pts = Some out → x ∈ out → fragment_ok x.
Proof.
  unfold building_rect. intros Hh H Hx.
  destruct (pca_obb math_hypot pts) as [obb|] eqn:Hobb; simpl in H; [|done].
  match type of H with
  | mbind _ ?m = _ => destruct m as [corners|] eqn:Hc; simpl in H; [|done]
  end.
  assert (length corners = 4%nat) as Hlen.
  { destruct obb as [c|].
    - injection Hc as ->. by eapply pca_obb_corners.
    - repeat step_in Hc. by injection Hc as <-. }
  step_in H. injection H as <-.
  apply list_elem_of_singleton in Hx as ->.
  split; simpl; [done| |done]. rewrite relative_to_length. lia.
Qed.

Lemma building_part_ok ctx h part out x :
  h ∈ [9; 10; 12; 15; 18; 24; 30]%float →
  building_part math_hypot math_log math_tan ctx h part = Some out → x ∈ out →
  fragment_ok x.
Proof.
  unfold building_part, building_from_projected. intros Hh H Hx.
  case_bool_decide; [nothing Hx|].
  step_in H. step_in H; [nothing Hx|].
  do 4 step_in H. step_in H; [nothing Hx|].
  step_in H; [by eapply building_rect_ok|].
  step_in H. case_bool_decide as Hlen; [nothing Hx|].
  step_in H. step_in H; simpl in H; [nothing Hx|].
  step_in H. destruct p as [[tx ty] vertices]. injection H as <-.
  apply list_elem_of_singleton in Hx as ->.
  split; simpl; [done| |done].
  erewrite place_ring_length by done. lia.
Qed.

Lemma building_record_ok ctx rec out x :
  building_record math_hypot math_log math_tan ctx rec = Some out → x ∈ out →
  fragment_ok x.
Proof.
  unfold building_record. intros H Hx.
  destruct (for_parts_elem _ _ _ _ H Hx) as (part & o & _ & Hp & Ho).
  eapply building_part_ok; [|done..]. apply building_height_default_range.
Qed.

Lemma road_record_ok ctx rec out x :
  road_record math_hypot math_log math_tan ctx rec = Some out → x ∈ out →
  fragment_ok x.
Proof.
  unfold road_record. intros H Hx.
  destruct (for_parts_elem _ _ _ _ H Hx) as (part & o & _ & Hp & Ho).
  unfold road_part in Hp. repeat step_in Hp. all: try nothing Ho.
  injection Hp as <-.
  apply emit_segments_elem in Ho as (pts & Hc & Hobj & Hlen).
  split; rewrite ?Hobj; simpl; [done|done|apply road_width_default_range].
Qed.

Lemma railway_record_ok ctx rec out x :
  railway_record math_hypot math_log math_tan ctx rec = Some out → x ∈ out →
  fragment_ok x.
Proof.
  unfold railway_record. intros H Hx.
  repeat step_in H. all: try nothing Hx.
  destruct (for_parts_elem _ _ _ _ H Hx) as (part & o & _ & Hp & Ho).
  unfold railway_part in Hp. repeat step_in Hp. all: try nothing Ho.
  injection Hp as <-.
  apply emit_segments_elem in Ho as (pts & Hc & Hobj & Hlen).
  split; rewrite ?Hobj; simpl; done.
Qed.

Lemma waterway_record_ok ctx rec out x :
  waterway_record math_hypot math_log math_tan float_of_string ctx rec = Some out →
  x ∈ out → fragment_ok x.
Proof.
  unfold waterway_record. intros H Hx.
  destruct (for_parts_elem _ _ _ _ H Hx) as (part & o & _ & Hp & Ho).
  unfold waterway_part in Hp. repeat step_in Hp. all: try nothing Ho.
  injection Hp as <-.
  apply emit_segments_elem in Ho as (pts & Hc & Hobj & Hlen).
  split; rewrite ?Hobj; simpl; [done|done|].
  repeat case_match; simplify_eq; try done.
Qed.

Lemma classify_polygon_cases s target kind :
  classify_polygon s = Some (target, kind) →
  (target = "water" ∧ kind = None)
  ∨ (target = "landcover" ∧ (kind = Some "forest" ∨ kind = Some "grass")).
Proof.
  unfold classify_polygon. intros H.
  repeat case_bool_decide; simplify_eq; auto.
Qed.

Lemma area_record_ok ctx rec out x :
  area_record math_hypot math_log math_tan ctx rec = Some out → x ∈ out →
  fragment_ok x.
Proof.
  unfold area_record. intros H Hx.
  destruct (classify_polygon _) as [[target kind]|] eqn:Hc; [|nothing Hx].
  apply classify_polygon_cases in Hc.
  destruct (for_parts_elem _ _ _ _ H Hx) as (part & o & _ & Hp & Ho).
  clear H Hx. unfold area_part in Hp.
  case_bool_decide; [nothing Ho|].
  do 2 step_in Hp. case_bool_decide as Hlen; [nothing Ho|].
  step_in Hp. step_in Hp; simpl in Hp; [nothing Ho|].
  step_in Hp; [nothing Ho|]. step_in Hp; [nothing Ho|].
  step_in Hp. step_in Hp; [nothing Ho|].
  step_in Hp. destruct p as [[tx ty] vertices].
  match goal with
  | Hpr : place_ring _ _ = Some _ |- _ => apply place_ring_length in Hpr
  end.
  case_bool_decide as Hw; injection Hp as <-;
    apply list_elem_of_singleton in Ho as ->.
  - split; simpl; [done|lia|done].
  - split; simpl; [done|lia|].
    destruct Hc as [[? ?]|[_ [->| ->]]]; [done|left|right]; done.
Qed.

Lemma poi_record_ok ctx rec out x :
  poi_record math_log math_tan ctx rec = Some out → x ∈ out → fragment_ok x.
Proof.
  unfold poi_record. intros H Hx.
  case_bool_decide as Ht; simpl in H; [|nothing Hx].
  do 2 step_in H. step_in H; simpl in H; [nothing Hx|].
  step_in H. injection H as <-. apply list_elem_of_singleton in Hx as ->.
  split; simpl; [done|lia|done].
Qed.

Lemma category_pass_elem {A} files shape_dir base
    (reader : list byte → list A * stream_end) body out x :
  category_pass codec_decode files shape_dir base reader body = Some out →
  x ∈ out → ∃ rec o, body rec = Some o ∧ x ∈ o.
Proof.
  unfold category_pass. intros H Hx.
  destruct (_ && _); [|nothing Hx].
  destruct (reader _) as [xs ex].
  destruct (read_dbf_records _ _) as [ys ey].
  step_in H.
  destruct (for_records_elem _ _ _ _ H Hx) as (rec & o & _ & Hb & Ho).
  eauto.
Qed.

(** Every fragment a run of [main] hands to the aggregator. *)
Lemma main_fragments_ok files a clip status out x :
  main math_hypot math_log math_tan float_of_string codec_decode files a clip
    = Some (status, out) →
  x ∈ appends out → fragment_ok x.
Proof.
  unfold main. intros H Hx.
  repeat step_in H. injection H as <- <-. simpl in Hx.
  repeat (apply elem_of_app in Hx as [Hx|Hx]).
  all: match goal with
       | Hp : category_pass _ _ _ _ _ _ = Some ?l, Hx : _ ∈ ?l |- _ =>
           destruct (category_pass_elem _ _ _ _ _ _ _ Hp Hx) as (rec & o & Hb & Ho)
       end.
  - by eapply building_record_ok.
  - by eapply road_record_ok.
  - by eapply area_record_ok.
  - by eapply area_record_ok.
  - by eapply waterway_record_ok.
  - by eapply railway_record_ok.
  - by eapply poi_record_ok.
Qed.

End Fragments.

(** X14: every fragment a run of [main] hands to the aggregator is filed
    under the category of its shape: a building under "buildings", a road
    under "roads", and so on, which are the seven categories
    [write_tile_jsons] collects. *)
Theorem main_fragments_filed_by_shape :
  ∀ math_hypot math_log math_tan float_of_string codec_decode
    (files : Files) (a : Args.t) (clip : option (list Point)) status out x,
    main math_hypot math_log math_tan float_of_string codec_decode files a clip
      = Some (status, out) →
    x ∈ appends out →
    category x = fragment_category (obj x)
    ∧ category x ∈ ["buildings"; "roads"; "waters"; "waterways"; "landcovers";
                    "railways"; "pois"].
Proof.
  intros hyp mlog mtan fos codec files a clip status out x Hrun Hx.
  destruct (main_fragments_ok _ _ _ _ _ _ _ _ _ _ _ Hrun Hx) as [Hc _ _].
  split; [done|]. rewrite Hc. destruct (obj x); simpl; in_list.
Qed.

Lemma main_fragments_filed_by_shape_witness :
  ∃ status out x,
    demo_run = Some (status, out) ∧ x ∈ appends out
    ∧ category x = fragment_category (obj x)
    ∧ category x ∈ ["buildings"; "roads"; "waters"; "waterways"; "landcovers";
                    "railways"; "pois"].
Proof.
  eexists _, _, _. split; [vm_compute; reflexivity|].
  split; [apply list_elem_of_here|].
  eapply (main_fragments_filed_by_shape hypot_sqrt libm_stub libm_stub
            decimal_of_string decode_ascii_ignore demo_files demo_args None).
  - vm_compute. reflexivity.
  - apply list_elem_of_here.
Defined.

(** X15: every polygon fragment [main] emits (building, water, landcover)
    has at least 3 vertices and every polyline fragment (road, waterway,
    railway) at least 2 points. *)
Theorem main_fragments_have_enough_points :
  ∀ math_hypot math_log math_tan float_of_string codec_decode
    (files : Files) (a : Args.t) (clip : option (list Point)) status out x,
    main math_hypot math_log math_tan float_of_string codec_decode files a clip
      = Some (status, out) →
    x ∈ appends out →
    (fragment_min_points (obj x) ≤ length (fragment_points (obj x)))%nat.
Proof.
  intros hyp mlog mtan fos codec files a clip status out x Hrun Hx.
  by destruct (main_fragments_ok _ _ _ _ _ _ _ _ _ _ _ Hrun Hx).
Qed.

Lemma main_fragments_have_enough_points_witness :
  ∃ status out x,
    demo_run = Some (status, out) ∧ x ∈ appends out
    ∧ (fragment_min_points (obj x) ≤ length (fragment_points (obj x)))%nat.
Proof.
  eexists _, _, _. split; [vm_compute; reflexivity|].
  split; [apply list_elem_of_here|].
  eapply (main_fragments_have_enough_points hypot_sqrt libm_stub libm_stub
            decimal_of_string decode_ascii_ignore demo_files demo_args None).
  - vm_compute. reflexivity.
  - apply list_elem_of_here.
Defined.

(** X16: the attributes of the fragments [main] emits take their values
    from the tables: a building height is one of 9, 10, 12, 15, 18, 24, 30;
    a road width one of 2, 2.5, 4, 6, 8, 10, 12, 16, 18; a railway is 4
    wide; a landcover is "forest" with density 800 or "grass" with density
    250; a waterway width is never [<= 0]; a POI is a "station" or a
    "subway_entrance". *)
Theorem main_fragments_attribute_values :
  ∀ math_hypot math_log math_tan float_of_string codec_decode
    (files : Files) (a : Args.t) (clip : option (list Point)) status out x,
    main math_hypot math_log math_tan float_of_string codec_decode files a clip
      = Some (status, out) →
    x ∈ appends out →
    fragment_attributes_ok (obj x).
Proof.
  intros hyp mlog mtan fos codec files a clip status out x Hrun Hx.
  by destruct (main_fragments_ok _ _ _ _ _ _ _ _ _ _ _ Hrun Hx).
Qed.

Lemma main_fragments_attribute_values_witness :
  ∃ status out x,
    demo_run = Some (status, out) ∧ x ∈ appends out
    ∧ fragment_attributes_ok (obj x).
Proof.
  eexists _, _, _. split; [vm_compute; reflexivity|].
  split; [apply list_elem_of_here|].
  eapply (main_fragments_attribute_values hypot_sqrt libm_stub libm_stub
            decimal_of_string decode_ascii_ignore demo_files demo_args None).
  - vm_compute. reflexivity.
  - apply list_elem_of_here.
Defined.

(** ** Douglas-Peucker simplification: tolerance and size *)

Lemma SFltb_rank x y :
  SFltb x y = true ↔
  ∃ a b, sf_rank x = Some a ∧ sf_rank y = Some b ∧ rank_lt a b.
Proof.
  unfold SFltb, SFcompare, rank_lt.
  destruct x as [sx|sx| |sx mx ex], y as [sy|sy| |sy my ey]; simpl.
  all: try destruct sx; try destruct sy; simpl.
  all: try (split; [done|intros (a & b & [= <-] & [= <-] & H); simpl in H; lia]).
  all: try (split; [intros _; do 2 eexists; split; [done|split; [done|simpl; lia]]|done]).
  all: try (split; [done|by intros (a & b & ? & ? & _)]).
  - change (Pos.compare_cont Eq mx my) with (Pos.compare mx my).
    destruct (Z.compare_spec ex ey) as [->|Hlt|Hgt].
    + destruct (Pos.compare_spec mx my) as [->|Hm|Hm]; simpl.
      all: split; [try done|intros (a & b & [= <-] & [= <-] & H); simpl in H; lia].
      intros _. do 2 eexists. split; [done|]. split; [done|]. simpl. lia.
    + split; [done|intros (a & b & [= <-] & [= <-] & H); simpl in H; lia].
    + split; [|done]. intros _. do 2 eexists. split; [done|]. split; [done|].
      simpl. lia.
  - change (Pos.compare_cont Eq mx my) with (Pos.compare mx my).
    destruct (Z.compare_spec ex ey) as [->|Hlt|Hgt].
    + destruct (Pos.compare_spec mx my) as [->|Hm|Hm]; simpl.
      all: split; [try done|intros (a & b & [= <-] & [= <-] & H); simpl in H; lia].
      intros _. do 2 eexists. split; [done|]. split; [done|]. simpl. lia.
    + split; [|done]. intros _. do 2 eexists. split; [done|]. split; [done|].
      simpl. lia.
    + split; [done|intros (a & b & [= <-] & [= <-] & H); simpl in H; lia].
Qed.

Lemma ltb_rank x y :
  PrimFloat.ltb x y = true ↔
  ∃ a b, sf_rank (Prim2SF x) = Some a ∧ sf_rank (Prim2SF y) = Some b ∧ rank_lt a b.
Proof. rewrite ltb_spec. apply SFltb_rank. Qed.

Lemma ltb_false_rank x y a b :
  PrimFloat.ltb x y = false →
  sf_rank (Prim2SF x) = Some a → sf_rank (Prim2SF y) = Some b → ¬ rank_lt a b.
Proof.
  intros H Ha Hb Hlt.
  assert (PrimFloat.ltb x y = true) as H' by (apply ltb_rank; eauto).
  congruence.
Qed.

(** [a < a'] and [not (a < d)] give [not (a' < d)]. *)
Lemma ltb_raise a a' d :
  PrimFloat.ltb a a' = true → PrimFloat.ltb a d = false → PrimFloat.ltb a' d = false.
Proof.
  intros H1 H2. destruct (PrimFloat.ltb a' d) eqn:H3; [|done].
  apply ltb_rank in H1 as (ra & ra' & Ha & Ha' & H1).
  apply ltb_rank in H3 as (ra'' & rd & Ha'' & Hd & H3).
  rewrite Ha' in Ha''. injection Ha'' as <-.
  exfalso. apply (ltb_false_rank _ _ _ _ H2 Ha Hd).
  unfold rank_lt in *. lia.
Qed.

(** [not (m < d)] and [not (e < m)] give [not (e < d)] when [m] is a number. *)
Lemma ltb_chain m d e :
  is_Some (sf_rank (Prim2SF m)) →
  PrimFloat.ltb m d = false → PrimFloat.ltb e m = false → PrimFloat.ltb e d = false.
Proof.
  intros [rm Hm] H1 H2. destruct (PrimFloat.ltb e d) eqn:H3; [|done].
  apply ltb_rank in H3 as (re & rd & He & Hd & H3).
  pose proof (ltb_false_rank _ _ _ _ H1 Hm Hd) as H1'.
  pose proof (ltb_false_rank _ _ _ _ H2 He Hm) as H2'.
  exfalso. unfold rank_lt in *. lia.
Qed.

Lemma ltb_trans a b c :
  PrimFloat.ltb a b = true → PrimFloat.ltb b c = true → PrimFloat.ltb a c = true.
Proof.
  intros (ra & rb & Ha & Hb & H1)%ltb_rank (rb' & rc & Hb' & Hc & H2)%ltb_rank.
  rewrite Hb in Hb'. injection Hb' as <-.
  apply ltb_rank. exists ra, rc. split; [done|]. split; [done|].
  unfold rank_lt in *. lia.
Qed.

Lemma ltb_irrefl a : PrimFloat.ltb a a = false.
Proof.
  destruct (PrimFloat.ltb a a) eqn:H; [|done].
  apply ltb_rank in H as (x & y & Hx & Hy & H).
  rewrite Hx in Hy. injection Hy as <-. unfold rank_lt in H. lia.
Qed.

Lemma ltb_true_number_l x y :
  PrimFloat.ltb x y = true → is_Some (sf_rank (Prim2SF x)).
Proof. intros (a & b & -> & _)%ltb_rank. eauto. Qed.

Lemma ltb_true_number_r x y :
  PrimFloat.ltb x y = true → is_Some (sf_rank (Prim2SF y)).
Proof. intros (a & b & _ & -> & _)%ltb_rank. eauto. Qed.

(** A distance that is not negative and not above -1 is NaN, and so is
    above nothing. *)
Lemma not_above_minus_one d e :
  Py.lt d 0 = false → Py.gt d (-1) = false → Py.gt d e = false.
Proof.
  unfold Py.lt, Py.gt. intros H0 H1.
  destruct (PrimFloat.ltb e d) eqn:H3; [|done].
  apply ltb_rank in H3 as (re & rd & He & Hd & H3).
  assert (sf_rank (Prim2SF 0) = Some (0, 0, 0)) as Hz by (vm_compute; reflexivity).
  assert (∃ m x, sf_rank (Prim2SF (-1)) = Some (-1, m, x)) as (m & x & Hm)
    by (do 2 eexists; vm_compute; reflexivity).
  pose proof (ltb_false_rank _ _ _ _ H0 Hd Hz) as H0'.
  pose proof (ltb_false_rank _ _ _ _ H1 Hm Hd) as H1'.
  exfalso. unfold rank_lt in *. simpl in *. lia.
Qed.

Section ToleranceProofs.
Variable math_hypot : float → float → float.
Hypothesis hypot_not_negative : ∀ x y, Py.lt (math_hypot x y) 0 = false.

Lemma point_line_distance_not_negative q a b d :
  point_line_distance math_hypot q a b = Some d → Py.lt d 0 = false.
Proof using hypot_not_negative.
  unfold point_line_distance. destruct (Py.lt _ _).
  - intros [= <-]. apply hypot_not_negative.
  - destruct (Py.truediv _ _); simpl; [|done].
    intros [= <-]. apply hypot_not_negative.
Qed.

(** The running maximum of the scan: a number, not below where it
    started, and no scanned distance is above it. *)
Lemma farthest_max pts a b idxs acc r :
  is_Some (sf_rank (Prim2SF acc.1)) →
  farthest math_hypot pts a b idxs acc = Some r →
  is_Some (sf_rank (Prim2SF r.1))
  ∧ PrimFloat.ltb r.1 acc.1 = false
  ∧ (r.2 = None → r.1 = acc.1 ∧ acc.2 = None)
  ∧ (∀ i, r.2 = Some i → acc.2 = Some i ∨ i ∈ idxs)
  ∧ ∀ i q d, i ∈ idxs → pts !! i = Some q →
      point_line_distance math_hypot q a b = Some d → Py.gt d r.1 = false.
Proof.
  revert acc. induction idxs as [|i idxs IH]; intros acc Hacc; simpl.
  - intros [= <-]. split; [done|]. split; [by apply ltb_irrefl|].
    split; [done|]. split; [by left|]. intros i q d Hi. inversion Hi.
  - destruct (pts !! i) as [q0|] eqn:Hq0; simpl; [|done].
    destruct (point_line_distance math_hypot q0 a b) as [d0|] eqn:Hd0; simpl; [|done].
    intros Hr. unfold Py.gt in *.
    destruct (PrimFloat.ltb acc.1 d0) eqn:Hgt.
    + (* the maximum moves to [d0] *)
      destruct (IH (d0, Some i)) as (H1 & H2 & H3 & Hi & H4); [|exact Hr|].
      { simpl. by eapply ltb_true_number_r. }
      simpl in *. split; [done|]. split; [|split; [|split]].
      * destruct (PrimFloat.ltb r.1 acc.1) eqn:H5; [|done].
        by rewrite (ltb_trans _ _ _ H5 Hgt) in H2.
      * intros Hn. by destruct (H3 Hn).
      * intros j Hj. right.
        destruct (Hi j Hj) as [[= ->]|?]; [left|by right].
      * intros j q d [->|Hj]%elem_of_cons Hq Hd.
        -- rewrite Hq0 in Hq. injection Hq as <-.
           rewrite Hd0 in Hd. by injection Hd as <-.
        -- by eapply H4.
    + destruct (IH acc Hacc Hr) as (H1 & H2 & H3 & Hi & H4).
      split; [done|]. split; [done|]. split; [done|]. split.
      { intros j Hj. destruct (Hi j Hj); [by left|right; by right]. }
      intros j q d [->|Hj]%elem_of_cons Hq Hd.
      * rewrite Hq0 in Hq. injection Hq as <-.
        rewrite Hd0 in Hd. injection Hd as <-.
        by eapply (ltb_chain acc.1).
      * by eapply H4.
Qed.

Lemma consecutive_kept_same keep s e s' e' i :
  consecutive_kept keep s e → consecutive_kept keep s' e' →
  (s < i < e)%nat → (s' < i < e')%nat → s' = s ∧ e' = e.
Proof.
  intros (Hse & Hs & He & Hb) (Hse' & Hs' & He' & Hb') Hi Hi'.
  split.
  - destruct (Nat.lt_trichotomy s' s) as [Hlt|[?|Hlt]]; [|done|].
    + rewrite (Hb' s) in Hs by lia. done.
    + rewrite (Hb s') in Hs' by lia. done.
  - destruct (Nat.lt_trichotomy e' e) as [Hlt|[?|Hlt]]; [|done|].
    + rewrite (Hb e') in He' by lia. done.
    + rewrite (Hb' e) in He by lia. done.
Qed.

Lemma dp_inv_settle pts epsilon s e stack keep :
  dp_inv math_hypot pts epsilon ((s, e) :: stack) keep →
  within_tolerance math_hypot pts epsilon s e →
  dp_inv math_hypot pts epsilon stack keep.
Proof.
  intros [H1 H2 H3 H4] Hw. apply NoDup_cons in H2 as [Hnot H2].
  split; [done|done| |].
  - intros s0 e0 Hin. apply H3. by right.
  - intros s0 e0 Hc. destruct (H4 s0 e0 Hc) as [Hin|?]; [|by right].
    apply elem_of_cons in Hin as [[= -> ->]|Hin]; [by right|by left].
Qed.

Lemma dp_inv_split pts epsilon s e idx stack keep :
  dp_inv math_hypot pts epsilon ((s, e) :: stack) keep →
  (s < idx < e)%nat →
  dp_inv math_hypot pts epsilon ((idx, e) :: (s, idx) :: stack) (<[idx := true]> keep).
Proof.
  intros [H1 H2 H3 H4] Hidx.
  pose proof (H3 s e ltac:(left)) as Hse.
  destruct Hse as (Hlt & Hs & He & Hb).
  assert (keep !! idx = Some false) as Hfalse by (apply Hb; lia).
  assert (idx < length keep)%nat as Hlen by (by eapply lookup_lt_Some).
  assert (∀ i, i ≠ idx → <[idx := true]> keep !! i = keep !! i) as Hne
    by (intros i Hi; by rewrite list_lookup_insert_ne).
  assert (<[idx := true]> keep !! idx = Some true) as Heq
    by (by apply list_lookup_insert_eq).
  apply NoDup_cons in H2 as [Hnot H2].
  assert (∀ s0 e0, (s0, e0) ∈ stack → s0 ≠ idx ∧ e0 ≠ idx
            ∧ ¬ (s0 < idx < e0)%nat) as Hstack.
  { intros s0 e0 Hin.
    pose proof (H3 s0 e0 ltac:(by right)) as Hc.
    pose proof Hc as (Hlt0 & Hs0 & He0 & Hb0).
    split; [intros ->; congruence|]. split; [intros ->; congruence|].
    intros Hin0.
    assert (consecutive_kept keep s e) as Hc' by (by repeat split).
    destruct (consecutive_kept_same keep s e s0 e0 idx Hc' Hc Hidx Hin0)
      as [-> ->].
    done. }
  split.
  - by rewrite length_insert.
  - apply NoDup_cons. split.
    + intros [[= ? ?]|Hin]%elem_of_cons; [lia|].
      by destruct (Hstack _ _ Hin) as (? & _ & _).
    + apply NoDup_cons. split; [|done].
      intros Hin. by destruct (Hstack _ _ Hin) as (_ & ? & _).
  - intros s0 e0 [[= -> ->]|[[= -> ->]|Hin]%elem_of_cons]%elem_of_cons.
    + repeat split; [lia|done|by rewrite Hne by lia|].
      intros i Hi. rewrite Hne by lia. apply Hb. lia.
    + repeat split; [lia|by rewrite Hne by lia|done|].
      intros i Hi. rewrite Hne by lia. apply Hb. lia.
    + destruct (Hstack _ _ Hin) as (Hs0 & He0 & Hn0).
      pose proof (H3 s0 e0 ltac:(by right)) as (Hlt0 & Hs0' & He0' & Hb0).
      repeat split; [done|by rewrite Hne|by rewrite Hne|].
      intros i Hi. rewrite Hne by lia. by apply Hb0.
  - intros s0 e0 (Hlt0 & Hs0 & He0 & Hb0).
    destruct (decide (e0 = idx)) as [->|He0idx].
    { (* the pair ends at the new mark: it starts at [s] *)
      assert (s0 = s) as ->.
      { rewrite Hne in Hs0 by lia.
        destruct (Nat.lt_trichotomy s0 s) as [Hl|[?|Hl]]; [|done|].
        - specialize (Hb0 s ltac:(lia)). rewrite Hne in Hb0 by lia. congruence.
        - specialize (Hb s0 ltac:(lia)). congruence. }
      left. right. left. }
    destruct (decide (s0 = idx)) as [->|Hs0idx].
    { assert (e0 = e) as ->.
      { rewrite Hne in He0 by lia.
        destruct (Nat.lt_trichotomy e0 e) as [Hl|[?|Hl]]; [|done|].
        - specialize (Hb e0 ltac:(lia)). congruence.
        - specialize (Hb0 e ltac:(lia)). rewrite Hne in Hb0 by lia. congruence. }
      left. left. }
    assert (¬ (s0 < idx < e0)%nat) as Hout.
    { intros Hin. specialize (Hb0 idx Hin). congruence. }
    assert (consecutive_kept keep s0 e0) as Hc.
    { repeat split; [done|by rewrite <- Hne|by rewrite <- Hne|].
      intros i Hi. rewrite <- Hne by lia. by apply Hb0. }
    destruct (H4 s0 e0 Hc) as [Hin|Hw]; [|by right].
    apply elem_of_cons in Hin as [[= -> ->]|Hin]; [lia|].
    left. right. by right.
Qed.

Lemma dp_loop_settles fuel pts epsilon stack keep keep' :
  dp_inv math_hypot pts epsilon stack keep →
  dp_loop math_hypot fuel pts epsilon stack keep = Some keep' →
  dp_inv math_hypot pts epsilon [] keep'.
Proof using hypot_not_negative.
  revert stack keep. induction fuel as [|fuel IH]; intros stack keep Hinv.
  - destruct stack as [|[s e] stack]; simpl; [by intros [= <-]|done].
  - destruct stack as [|[s e] stack]; simpl; [by intros [= <-]|].
    destruct (pts !! s) as [a|] eqn:Ha; simpl; [|done].
    destruct (pts !! e) as [b|] eqn:Hb; simpl; [|done].
    destruct (farthest _ _ _ _ _ _) as [[max_dist idx]|] eqn:Hf; simpl; [|done].
    apply farthest_max in Hf as (Hnum & _ & Hnone & Hidx & Hmax);
      [|simpl; by (eexists; vm_compute)].
    simpl in *.
    assert (∀ i q, (s < i < e)%nat → pts !! i = Some q →
              ∃ d, point_line_distance math_hypot q a b = Some d
                   ∧ Py.gt d max_dist = false) as Hall.
    { intros i q Hi Hq.
      destruct (point_line_distance_total math_hypot q a b) as [d Hd].
      exists d. split; [done|].
      eapply (Hmax i q d); [|done|done]. apply elem_of_seq. lia. }
    destruct idx as [idx|].
    + destruct (Py.gt max_dist epsilon) eqn:Hgt.
      * intros Hl. eapply IH; [|exact Hl].
        apply dp_inv_split; [done|].
        destruct (Hidx idx eq_refl) as [?|Hin%elem_of_seq]; [done|lia].
      * intros Hl. eapply IH; [|exact Hl].
        eapply dp_inv_settle; [exact Hinv|].
        intros i q a' b' Hi Hq Ha' Hb'. simplify_eq.
        destruct (Hall i q Hi Hq) as (d & Hd & Hdm).
        exists d. split; [done|]. unfold Py.gt in *.
        by eapply (ltb_chain max_dist).
    + intros Hl. eapply IH; [|exact Hl].
      eapply dp_inv_settle; [exact Hinv|].
      intros i q a' b' Hi Hq Ha' Hb'. simplify_eq.
      destruct (Hall i q Hi Hq) as (d & Hd & Hdm).
      exists d. split; [done|].
      destruct (Hnone eq_refl) as [-> _].
      apply not_above_minus_one; [|done].
      by eapply point_line_distance_not_negative.
Qed.

Lemma dp_inv_init pts epsilon :
  (2 ≤ length pts)%nat →
  dp_inv math_hypot pts epsilon [(0, length pts - 1)%nat]
    (<[(length pts - 1)%nat := true]> (<[0%nat := true]> (replicate (length pts) false))).
Proof.
  intros Hn. set (n := length pts) in *.
  set (keep := <[(n - 1)%nat := true]> (<[0%nat := true]> (replicate n false))).
  assert (length keep = n) as Hlen
    by (unfold keep; by rewrite !length_insert, length_replicate).
  assert (∀ i, keep !! i = Some true → i = 0%nat ∨ i = (n - 1)%nat) as Hmarks.
  { intros i Hi. unfold keep in Hi.
    destruct (decide (i = n - 1)%nat) as [?|H1]; [by right|].
    rewrite list_lookup_insert_ne in Hi by done.
    destruct (decide (i = 0)%nat) as [?|H0]; [by left|].
    rewrite list_lookup_insert_ne in Hi by done.
    by apply lookup_replicate in Hi as [? _]. }
  assert (consecutive_kept keep 0 (n - 1)) as Hc.
  { repeat split; [lia| | |].
    - unfold keep. rewrite list_lookup_insert_ne by lia.
      apply list_lookup_insert_eq. rewrite length_replicate. lia.
    - unfold keep. apply list_lookup_insert_eq.
      rewrite length_insert, length_replicate. lia.
    - intros i Hi. unfold keep. rewrite !list_lookup_insert_ne by lia.
      apply lookup_replicate. split; [done|lia]. }
  split; [done|apply NoDup_singleton| |].
  - by intros s e [= -> ->]%list_elem_of_singleton.
  - intros s e (Hlt & Hs & He & _). left.
    destruct (Hmarks s Hs), (Hmarks e He); subst; try lia.
    apply list_elem_of_here.
Qed.

Lemma kept_two pts keep :
  length keep = length pts → (2 ≤ length pts)%nat →
  keep !! 0%nat = Some true → keep !! (length pts - 1)%nat = Some true →
  (2 ≤ length (kept pts keep))%nat.
Proof.
  intros Hlen Hn H0 Hl.
  destruct pts as [|p0 pts]; [simpl in Hn; lia|].
  destruct pts as [|pl pts _] using rev_ind; [simpl in Hn; lia|].
  destruct keep as [|k0 keep]; [done|].
  destruct keep as [|kl keep _] using rev_ind.
  { simpl in Hlen. rewrite length_app in Hlen. simpl in Hlen. lia. }
  simpl in H0. injection H0 as ->.
  simpl in Hlen. rewrite !length_app in Hlen. simpl in Hlen.
  assert (kl = true) as ->.
  { simpl in Hl. rewrite length_app in Hl. simpl in Hl.
    replace (length pts + 1 - 0)%nat with (S (length keep)) in Hl by lia.
    simpl in Hl. rewrite lookup_app_r in Hl by lia.
    rewrite Nat.sub_diag in Hl. by injection Hl. }
  unfold kept.
  change (zip (p0 :: pts ++ [pl]) (true :: keep ++ [true]))
    with ((p0, true) :: zip (pts ++ [pl]) (keep ++ [true])).
  rewrite zip_with_app by lia.
  change (zip [pl] [true]) with [(pl, true)].
  rewrite filter_cons_True by done. rewrite filter_app, filter_cons_True by done.
  rewrite fmap_cons, fmap_app, length_cons, length_app. simpl. lia.
Qed.

End ToleranceProofs.

(** The marks the function ends with, and its result in their terms. *)
Lemma simplify_marks math_hypot points epsilon p0 pl :
  head points = Some p0 → last points = Some pl →
  let closed := point_eqb p0 pl in
  let pts := if closed then drop_last points else points in
  (4 ≤ length pts)%nat →
  ∃ keep,
    dp_loop math_hypot (2 * length pts) pts epsilon [(0, length pts - 1)%nat]
      (<[(length pts - 1)%nat := true]>
         (<[0%nat := true]> (replicate (length pts) false))) = Some keep
    ∧ length keep = length pts
    ∧ keep !! 0%nat = Some true ∧ keep !! (length pts - 1)%nat = Some true
    ∧ simplify_douglas_peucker math_hypot points epsilon =
      Some (if closed then kept pts keep ++ [p0] else kept pts keep).
Proof.
  intros Hh Hl closed pts Hn. subst closed.
  assert (length pts ≤ length points)%nat as Hle.
  { unfold pts, drop_last. destruct (point_eqb p0 pl); [|done].
    rewrite length_take. lia. }
  assert (head pts = Some p0) as Hp0.
  { revert Hn. unfold pts. destruct (point_eqb p0 pl); [|done].
    destruct points as [|q points]; [done|]. simpl in Hh. injection Hh as ->.
    unfold drop_last. rewrite length_take. simpl.
    destruct (length points); [lia|done]. }
  unfold simplify_douglas_peucker.
  rewrite bool_decide_eq_false_2 by lia. rewrite Hh, Hl.
  cbn [mbind option_bind]. fold pts. rewrite bool_decide_eq_false_2 by lia.
  destruct (dp_loop_total math_hypot (2 * length pts) pts epsilon
              [(0, length pts - 1)%nat]
              (<[(length pts - 1)%nat := true]>
                 (<[0%nat := true]> (replicate (length pts) false))))
    as (keep & Hloop & Hlen & Hmono).
  { apply Forall_cons; split; [simpl; lia|by apply Forall_nil]. }
  { rewrite stack_weight_cons. unfold stack_weight. simpl. lia. }
  rewrite Hloop. cbn [mbind option_bind].
  assert (keep !! 0%nat = Some true) as Hk0.
  { apply Hmono. rewrite list_lookup_insert_ne by lia.
    apply list_lookup_insert_eq. rewrite length_replicate. lia. }
  assert (keep !! (length pts - 1)%nat = Some true) as Hkn.
  { apply Hmono. apply list_lookup_insert_eq.
    rewrite length_insert, length_replicate. lia. }
  exists keep. split; [done|]. split.
  { by rewrite Hlen, !length_insert, length_replicate. }
  split; [done|]. split; [done|].
  destruct (point_eqb p0 pl); [|done].
  by rewrite (kept_head pts keep Hk0), Hp0.
Qed.

Lemma sqrt_not_negative z : sf_not_negative (Prim2SF (PrimFloat.sqrt z)).
Proof.
  rewrite sqrt_spec. unfold SF64sqrt, SFsqrt.
  destruct (Prim2SF z) as [s|[]| |[] m e]; try done.
  destruct (SFsqrt_core_binary prec emax (Z.pos m) e) as [[mz ez] lz].
  pose proof (binary_round_aux_sign false mz ez lz) as H.
  by destruct (binary_round_aux _ _ _ _ _ _).
Qed.

Lemma hypot_sqrt_not_negative x y : Py.lt (hypot_sqrt x y) 0 = false.
Proof.
  apply not_negative_not_below; [apply sqrt_not_negative|].
  vm_compute. reflexivity.
Qed.

(** X20: the guarantee of the Douglas-Peucker simplification.  With a
    [math.hypot] that is never negative, when the function works on at
    least 4 vertices (the input, less its closure vertex when the input is
    closed), it marks the first, the last and some others to keep and
    returns the marked vertices (and the first once more for a closed
    input); every dropped vertex lies between two marked ones with no
    mark between them, and its distance to the chord joining these two is
    not above the tolerance. *)
Theorem simplify_within_tolerance :
  ∀ math_hypot,
    (∀ x y, Py.lt (math_hypot x y) 0 = false) →
    ∀ (points : list Point) (epsilon : float) (p0 pl : Point),
      head points = Some p0 → last points = Some pl →
      let closed := point_eqb p0 pl in
      let pts := if closed then drop_last points else points in
      (4 ≤ length pts)%nat →
      ∃ keep,
        length keep = length pts
        ∧ keep !! 0%nat = Some true ∧ keep !! (length pts - 1)%nat = Some true
        ∧ simplify_douglas_peucker math_hypot points epsilon =
          Some (if closed then kept pts keep ++ [p0] else kept pts keep)
        ∧ ∀ s e, consecutive_kept keep s e →
            within_tolerance math_hypot pts epsilon s e.
Proof.
  intros hyp Hhyp points eps p0 pl Hh Hl closed pts Hn. subst pts closed.
  destruct (simplify_marks hyp points eps p0 pl Hh Hl Hn)
    as (keep & Hloop & Hlen & Hk0 & Hkn & Hout).
  set (pts := if point_eqb p0 pl then drop_last points else points) in *.
  exists keep. split; [done|]. split; [done|]. split; [done|]. split; [done|].
  assert (dp_inv hyp pts eps [] keep) as [_ _ _ H4].
  { eapply (dp_loop_settles hyp Hhyp); [|exact Hloop]. apply dp_inv_init.
    clearbody pts. clear -Hn. lia. }
  intros s e Hc. destruct (H4 s e Hc) as [Hin|?]; [inversion Hin|done].
Qed.

(** X21: the simplification never returns more points than it is given,
    and given at least 2 points it returns at least 2. *)
Theorem simplify_length_bounds :
  ∀ math_hypot (points : list Point) (epsilon : float) (out : list Point),
    simplify_douglas_peucker math_hypot points epsilon = Some out →
    (length out ≤ length points)%nat
    ∧ ((2 ≤ length points)%nat → (2 ≤ length out)%nat).
Proof.
  intros hyp points eps out Hout.
  destruct (decide (length points < 4)%nat) as [Hshort|Hlong].
  { unfold simplify_douglas_peucker in Hout.
    rewrite bool_decide_eq_true_2 in Hout by done. by injection Hout as <-. }
  destruct points as [|p0 rest] eqn:Hpts; [simpl in Hlong; lia|].
  destruct (last (p0 :: rest)) as [pl|] eqn:Hl;
    [|by apply last_None in Hl].
  rewrite <- Hpts in *.
  assert (head points = Some p0) as Hh by (by rewrite Hpts).
  set (pts := if point_eqb p0 pl then drop_last points else points).
  destruct (decide (length pts < 4)%nat) as [Hshort|Hlong'].
  { unfold simplify_douglas_peucker in Hout.
    rewrite bool_decide_eq_false_2, Hh, Hl in Hout by done.
    cbn [mbind option_bind] in Hout. fold pts in Hout.
    rewrite bool_decide_eq_true_2 in Hout by done. by injection Hout as <-. }
  assert (4 ≤ length pts)%nat as Hn by (clear -Hlong'; lia).
  destruct (simplify_marks hyp points eps p0 pl Hh Hl Hn)
    as (keep & _ & Hlen & Hk0 & Hkn & Hres).
  fold pts in Hlen, Hk0, Hkn, Hres. rewrite Hres in Hout. injection Hout as <-.
  pose proof (sublist_length _ _ (kept_sublist pts keep ltac:(lia))) as Hup.
  pose proof (kept_two pts keep Hlen ltac:(lia) Hk0 Hkn) as Hlow.
  assert (length pts ≤ length points
          ∧ (point_eqb p0 pl = true → S (length pts) = length points))%nat
    as [Hle Hcl].
  { unfold pts, drop_last. destruct (point_eqb p0 pl); [|by split].
    rewrite length_take. split; [lia|]. intros _. lia. }
  destruct (point_eqb p0 pl).
  - rewrite length_app. simpl. specialize (Hcl eq_refl). lia.
  - lia.
Qed.

Lemma simplify_within_tolerance_witness :
  ∃ keep,
    length keep = length zigzag
    ∧ keep !! 0%nat = Some true ∧ keep !! (length zigzag - 1)%nat = Some true
    ∧ simplify_douglas_peucker hypot_sqrt zigzag 1 = Some (kept zigzag keep)
    ∧ ∀ s e, consecutive_kept keep s e →
        within_tolerance hypot_sqrt zigzag 1 s e.
Proof.
  exact (simplify_within_tolerance hypot_sqrt hypot_sqrt_not_negative zigzag
           1%float (0, 0)%float (5, 7)%float eq_refl eq_refl
           ltac:(simpl; lia)).
Defined.

Lemma simplify_length_bounds_witness :
  (length [(0, 0); (4, 0)]%float ≤ length collinear4)%nat
  ∧ ((2 ≤ length collinear4)%nat → (2 ≤ length [(0, 0); (4, 0)]%float)%nat).
Proof.
  apply (simplify_length_bounds hypot_sqrt collinear4 0%float).
  vm_compute. reflexivity.
Defined.

(** ** Elevation tiles: the Paeth predictor and the filling of missing samples *)

(** X22: the Paeth predictor returns one of its three arguments, one that
    is nearest to [a + b - c]; among the nearest it prefers [a], then
    [b]. *)
Theorem paeth_nearest :
  ∀ a b c : Z,
    let p := a + b - c in
    let r := _paeth a b c in
    (r = a ∨ r = b ∨ r = c)
    ∧ Z.abs (p - r) ≤ Z.abs (p - a)
    ∧ Z.abs (p - r) ≤ Z.abs (p - b)
    ∧ Z.abs (p - r) ≤ Z.abs (p - c)
    ∧ (r ≠ a → Z.abs (p - r) < Z.abs (p - a))
    ∧ (r ≠ a ∧ r ≠ b → Z.abs (p - r) < Z.abs (p - b)).
Proof.
  intros a b c p r. subst p r. unfold _paeth.
  destruct (Z.leb_spec (Z.abs (a + b - c - a)) (Z.abs (a + b - c - b)));
    destruct (Z.leb_spec (Z.abs (a + b - c - a)) (Z.abs (a + b - c - c)));
    destruct (Z.leb_spec (Z.abs (a + b - c - b)) (Z.abs (a + b - c - c)));
    simpl; lia.
Qed.

Lemma paeth_nearest_witness :
  Z.abs (10 + 20 - 15 - _paeth 10 20 15) < Z.abs (10 + 20 - 15 - 20).
Proof.
  apply (proj2 (proj2 (proj2 (proj2 (proj2 (paeth_nearest 10 20 15)))))).
  vm_compute. split; discriminate.
Defined.

Lemma py_index_lt {A} (l : list A) i k :
  py_index l i = Some k → (k < length l)%nat.
Proof.
  unfold py_index. intros H.
  destruct (Z.leb_spec 0 i), (Z.ltb_spec i (Z.of_nat (length l))); simpl in H;
    try (injection H as <-; lia).
  all: destruct (Z.leb_spec (- Z.of_nat (length l)) i), (Z.ltb_spec i 0);
    simpl in H; try done; injection H as <-; lia.
Qed.

Lemma py_index_in_range {A} (l : list A) i :
  0 ≤ i < Z.of_nat (length l) → py_index l i = Some (Z.to_nat i).
Proof.
  intros Hi. unfold py_index.
  destruct (Z.leb_spec 0 i), (Z.ltb_spec i (Z.of_nat (length l))); simpl; (done || lia).
Qed.

Lemma py_getitem_in_range {A} (l : list A) i :
  0 ≤ i < Z.of_nat (length l) → is_Some (py_getitem l i).
Proof.
  intros Hi. unfold py_getitem. rewrite py_index_in_range by done. simpl.
  apply lookup_lt_is_Some_2. lia.
Qed.

Lemma for_each_inv {A S} (body : A → S → option S) (P : S → Prop) xs st st' :
  (∀ x s s', P s → body x s = Some s' → P s') →
  P st → for_each body xs st = Some st' → P st'.
Proof.
  intros Hbody. revert st. induction xs as [|x xs IH]; intros st Hst; simpl.
  - by intros [= <-].
  - destruct (body x st) as [s1|] eqn:Hb; simpl; [|done].
    apply IH. by eapply Hbody.
Qed.

Lemma for_each_total {A S} (body : A → S → option S) (Q : S → Prop) xs st :
  (∀ x s, x ∈ xs → Q s → ∃ s', body x s = Some s' ∧ Q s') →
  Q st → ∃ st', for_each body xs st = Some st' ∧ Q st'.
Proof.
  revert st. induction xs as [|x xs IH]; intros st Hbody Hst; simpl; [eauto|].
  destruct (Hbody x st ltac:(left) Hst) as (s1 & -> & H1). simpl.
  apply IH; [|done]. intros y s Hy. apply Hbody. by right.
Qed.

Lemma elem_of_py_range n i : i ∈ py_range n ↔ 0 ≤ i < n.
Proof.
  unfold py_range. rewrite list_elem_of_fmap. split.
  - intros (k & -> & Hk%elem_of_seq). lia.
  - intros Hi. exists (Z.to_nat i). split; [lia|]. apply elem_of_seq. lia.
Qed.

Lemma keeps_data_refl l : keeps_data l l.
Proof. by split. Qed.

Lemma fill_cell_keeps before grid_w grid_h row col st st' :
  keeps_data before st.1 → fill_cell grid_w grid_h row col st = Some st' →
  keeps_data before st'.1.
Proof.
  intros [Hlen Hkeep]. unfold fill_cell, py_getitem, py_setitem.
  destruct (py_index st.1 (row * grid_w + col)) as [k|] eqn:Hk;
    cbn [mbind option_bind]; [|done].
  destruct (st.1 !! k) as [v|] eqn:Hv; cbn [mbind option_bind]; [|done].
  destruct (has_data v) eqn:Hd; [by intros [= <-]|].
  destruct (neighbour_sum st.1 grid_w grid_h row col neighbour_offsets 0 0)
    as [tc|]; cbn [mbind option_bind]; [|done].
  destruct (0 <? tc.2); [|by intros [= <-]].
  destruct (Py.truediv _ _) as [q|]; cbn [mbind option_bind]; [|done].
  intros [= <-]. cbn [fst]. split; [by rewrite length_insert|].
  intros i v0 Hi Hv0. destruct (decide (i = k)) as [->|Hne].
  - rewrite (Hkeep k v0 Hi Hv0) in Hv. injection Hv as ->. congruence.
  - rewrite list_lookup_insert_ne by done. by apply Hkeep.
Qed.

Lemma fill_pass_keeps before grid_w grid_h heights r :
  keeps_data before heights → fill_pass grid_w grid_h heights = Some r →
  keeps_data before r.1.
Proof.
  intros Hk. unfold fill_pass.
  apply (for_each_inv _ (λ st, keeps_data before st.1)); [|done].
  intros row s s' Hs. apply (for_each_inv _ (λ st, keeps_data before st.1)); [|done].
  intros col s1 s1' Hs1. by apply fill_cell_keeps.
Qed.

Lemma fill_sweeps_keeps n before grid_w grid_h heights out :
  keeps_data before heights → fill_sweeps n grid_w grid_h heights = Some out →
  keeps_data before out.
Proof.
  revert heights. induction n as [|n IH]; intros heights Hk; simpl.
  - by intros [= <-].
  - destruct (fill_pass grid_w grid_h heights) as [r|] eqn:Hp; simpl; [|done].
    pose proof (fill_pass_keeps _ _ _ _ _ Hk Hp) as Hr.
    destruct (negb r.2); [by intros [= <-]|]. by apply IH.
Qed.

Lemma fill_remaining_spec before heights :
  keeps_data before heights →
  keeps_data before (fill_remaining heights)
  ∧ ∀ x, x ∈ fill_remaining heights → has_data x = true.
Proof.
  intros [Hlen Hkeep]. unfold fill_remaining. split; [split|].
  - by rewrite length_fmap.
  - intros i v Hi Hv. rewrite list_lookup_fmap, (Hkeep i v Hi Hv). simpl.
    unfold has_data in Hv. apply negb_true_iff in Hv. by rewrite Hv.
  - intros x (h & -> & _)%list_elem_of_fmap. unfold has_data.
    destruct (PrimFloat.eqb h NO_DATA_SENTINEL) eqn:Hh; [done|].
    by rewrite Hh.
Qed.

Lemma neighbour_sum_total heights grid_w grid_h row col offsets total count :
  0 ≤ grid_w → grid_w * grid_h ≤ Z.of_nat (length heights) →
  ∃ tc, neighbour_sum heights grid_w grid_h row col offsets total count = Some tc
        ∧ count ≤ tc.2 ≤ count + Z.of_nat (length offsets).
Proof.
  intros Hw Hsize. revert total count.
  induction offsets as [|[dr dc] offsets IH]; intros total count; simpl.
  - eexists. split; [done|]. simpl. lia.
  - destruct (Z.leb_spec 0 (row + dr)), (Z.ltb_spec (row + dr) grid_h),
      (Z.leb_spec 0 (col + dc)), (Z.ltb_spec (col + dc) grid_w); simpl.
    2-16: destruct (IH total count) as (tc & -> & ?); eexists; split; [done|lia].
    destruct (py_getitem_in_range heights ((row + dr) * grid_w + (col + dc)))
      as [nv ->]; [nia|]. simpl.
    destruct (has_data nv).
    + destruct (IH (total + nv)%float (count + 1)) as (tc & -> & ?).
      eexists; split; [done|lia].
    + destruct (IH total count) as (tc & -> & ?). eexists; split; [done|lia].
Qed.

Lemma of_int_count_not_zero n :
  0 < n ≤ 8 → PrimFloat.eqb (Py.of_int n) 0 = false.
Proof.
  intros Hn.
  assert (n = 1 ∨ n = 2 ∨ n = 3 ∨ n = 4 ∨ n = 5 ∨ n = 6 ∨ n = 7 ∨ n = 8)
    as Hcases by lia.
  destruct Hcases as [->|[->|[->|[->|[->|[->|[->| ->]]]]]]];
    vm_compute; reflexivity.
Qed.

Lemma fill_cell_total grid_w grid_h row col st :
  0 ≤ row < grid_h → 0 ≤ col < grid_w →
  grid_w * grid_h ≤ Z.of_nat (length st.1) →
  ∃ st', fill_cell grid_w grid_h row col st = Some st'
         ∧ length st'.1 = length st.1.
Proof.
  intros Hrow Hcol Hsize. unfold fill_cell.
  assert (0 ≤ row * grid_w + col < Z.of_nat (length st.1)) as Hidx by nia.
  destruct (py_getitem_in_range st.1 _ Hidx) as [v ->]. cbn [mbind option_bind].
  destruct (has_data v); [eauto|].
  destruct (neighbour_sum_total st.1 grid_w grid_h row col neighbour_offsets 0 0)
    as (tc & -> & Hc); [lia|done|]. cbn [mbind option_bind].
  change (Z.of_nat (length neighbour_offsets)) with 8 in Hc.
  destruct (Z.ltb_spec 0 tc.2); [|eauto].
  unfold Py.truediv. rewrite of_int_count_not_zero by lia.
  cbn [mbind option_bind].
  unfold py_setitem. rewrite py_index_in_range by done. cbn [mbind option_bind].
  eexists. split; [done|]. cbn [fst]. by rewrite length_insert.
Qed.

Lemma fill_pass_total grid_w grid_h heights :
  grid_w * grid_h ≤ Z.of_nat (length heights) →
  ∃ r, fill_pass grid_w grid_h heights = Some r ∧ length r.1 = length heights.
Proof.
  intros Hsize. unfold fill_pass.
  apply (for_each_total _ (λ st, length st.1 = length heights)); [|done].
  intros row s Hrow%elem_of_py_range Hs.
  apply (for_each_total _ (λ st, length st.1 = length heights)); [|done].
  intros col s1 Hcol%elem_of_py_range Hs1.
  destruct (fill_cell_total grid_w grid_h row col s1) as (s' & ? & ?);
    [done|done|rewrite Hs1; lia|].
  exists s'. split; [done|congruence].
Qed.

Lemma fill_sweeps_total n grid_w grid_h heights :
  grid_w * grid_h ≤ Z.of_nat (length heights) →
  is_Some (fill_sweeps n grid_w grid_h heights).
Proof.
  revert heights. induction n as [|n IH]; intros heights Hsize; simpl; [done|].
  destruct (fill_pass_total grid_w grid_h heights Hsize) as (r & -> & Hlen).
  simpl. destruct (negb r.2); [done|]. apply IH. rewrite Hlen. done.
Qed.

(** X23: [fill_nodata] changes no sample that has data, keeps the length
    of the list and leaves no sample without data; it raises no
    IndexError when the list has at least [grid_w * grid_h] samples. *)
Theorem fill_nodata_fills_only_the_holes :
  ∀ (heights : list float) (grid_w grid_h : Z),
    (∀ out, fill_nodata heights grid_w grid_h = Some out →
       length out = length heights
       ∧ (∀ i v, heights !! i = Some v → has_data v = true → out !! i = Some v)
       ∧ ∀ x, x ∈ out → has_data x = true)
    ∧ (grid_w * grid_h ≤ Z.of_nat (length heights) →
       is_Some (fill_nodata heights grid_w grid_h)).
Proof.
  intros heights grid_w grid_h. unfold fill_nodata. split.
  - intros out.
    destruct (fill_sweeps 3 grid_w grid_h heights) as [hs|] eqn:Hs; simpl; [|done].
    intros [= <-].
    pose proof (fill_sweeps_keeps _ _ _ _ _ _ (keeps_data_refl heights) Hs) as Hk.
    destruct (fill_remaining_spec heights hs Hk) as [[Hlen Hkeep] Hall].
    done.
  - intros Hsize.
    destruct (fill_sweeps_total 3 grid_w grid_h heights Hsize) as [hs ->].
    done.
Qed.

Lemma fill_nodata_fills_only_the_holes_witness :
  is_Some (fill_nodata grid_with_hole 2 2).
Proof.
  apply (proj2 (fill_nodata_fills_only_the_holes grid_with_hole 2 2)).
  simpl. lia.
Defined.

(** ** The overview image: squares and lines *)

Lemma elem_of_py_range_from a b i : i ∈ py_range_from a b ↔ a ≤ i < b.
Proof.
  unfold py_range_from. rewrite list_elem_of_fmap. split.
  - intros (k & -> & Hk%elem_of_seq). lia.
  - intros Hi. exists (Z.to_nat (i - a)). split; [lia|]. apply elem_of_seq. lia.
Qed.

Lemma in_image_true width height x y :
  in_image width height x y = true ↔ (0 ≤ x < width ∧ 0 ≤ y < height).
Proof. unfold in_image. rewrite !andb_true_iff. lia. Qed.

Lemma painted_refl width height color S pixels :
  painted width height color S pixels pixels.
Proof. split; [done|by right|done]. Qed.

Lemma painted_trans width height color S p1 p2 p3 :
  painted width height color S p1 p2 → painted width height color S p2 p3 →
  painted width height color S p1 p3.
Proof.
  intros [H1 H2 H3] [H1' H2' H3']. split.
  - congruence.
  - intros x y Hin. destruct (H2' x y Hin) as [?|Heq]; [by left|].
    destruct (H2 x y Hin) as [[? Hc]|Heq2].
    + left. split; [done|congruence].
    + right. congruence.
  - intros x y Hin Hc. by apply H3', H3.
Qed.

Lemma painted_weaken width height color (S S' : Z → Z → Prop) p1 p2 :
  (∀ x y, S x y → S' x y) →
  painted width height color S p1 p2 → painted width height color S' p1 p2.
Proof.
  intros HS [H1 H2 H3]. split; [done| |done].
  intros x y Hin. destruct (H2 x y Hin) as [[? ?]|?]; [left; auto|by right].
Qed.

(** [set_pixel] inside the image: the pixel takes the colour, the others
    keep theirs. *)
Lemma set_pixel_in_image pixels width height x y r g b :
  image_buffer width height pixels →
  is_byte r → is_byte g → is_byte b →
  in_image width height x y = true →
  ∃ out, set_pixel pixels width x y r g b = Some out
         ∧ length out = length pixels
         ∧ pixel_at out width x y = Some (r, g, b)
         ∧ ∀ x' y', in_image width height x' y' = true → (x', y') ≠ (x, y) →
             pixel_at out width x' y' = pixel_at pixels width x' y'.
Proof.
  intros (Hw & Hh & Hlen) Hr Hg Hb Hin. apply in_image_true in Hin as [Hx Hy].
  unfold set_pixel, bytearray_set, is_byte in *.
  destruct (Z.leb_spec 0 x), (Z.ltb_spec x width); try lia. simpl.
  destruct (Z.leb_spec 0 r), (Z.ltb_spec r 256); try lia.
  destruct (Z.leb_spec 0 g), (Z.ltb_spec g 256); try lia.
  destruct (Z.leb_spec 0 b), (Z.ltb_spec b 256); try lia. simpl.
  set (idx := (y * width + x) * 3).
  assert (0 ≤ idx ∧ idx + 2 < Z.of_nat (length pixels)) as Hidx
    by (unfold idx; nia).
  unfold py_setitem.
  rewrite py_index_in_range by lia. simpl.
  rewrite py_index_in_range by (rewrite length_insert; lia). simpl.
  rewrite py_index_in_range by (rewrite !length_insert; lia). simpl.
  eexists. split; [done|]. split; [by rewrite !length_insert|].
  set (k := Z.to_nat idx).
  replace (Z.to_nat (idx + 1)) with (S k) by lia.
  replace (Z.to_nat (idx + 2)) with (S (S k)) by lia.
  split.
  - unfold pixel_at. fold idx. fold k.
    assert (S (S k) < length pixels)%nat as Hk by (unfold k; lia).
    clearbody k. clear - Hk.
    assert (<[S (S k):=b]> (<[S k:=g]> (<[k:=r]> pixels)) !! k = Some r) as ->.
    { rewrite list_lookup_insert_ne by lia.
      rewrite list_lookup_insert_ne by lia.
      apply list_lookup_insert_eq. lia. }
    assert (<[S (S k):=b]> (<[S k:=g]> (<[k:=r]> pixels)) !! S k = Some g) as ->.
    { rewrite list_lookup_insert_ne by lia.
      apply list_lookup_insert_eq. rewrite length_insert. lia. }
    assert (<[S (S k):=b]> (<[S k:=g]> (<[k:=r]> pixels)) !! S (S k) = Some b)
      as ->.
    { apply list_lookup_insert_eq. rewrite !length_insert. lia. }
    done.
  - intros x' y' [Hx' Hy']%in_image_true Hne. unfold pixel_at.
    set (k' := Z.to_nat ((y' * width + x') * 3)).
    assert (S (S k') < k ∨ S (S k) < k')%nat as Hfar.
    { assert (y' * width + x' ≠ y * width + x) as Hd.
      { intros Heq. apply Hne.
        assert (y' = y) as -> by nia. f_equal. lia. }
      unfold k, k', idx. nia. }
    assert (∀ j, (j = k' ∨ j = S k' ∨ j = S (S k'))%nat →
      <[S (S k):=b]> (<[S k:=g]> (<[k:=r]> pixels)) !! j = pixels !! j) as Hsame.
    { intros j Hj. rewrite !list_lookup_insert_ne by lia. done. }
    rewrite !Hsame by lia. done.
Qed.

Lemma image_buffer_painted width height color S before after :
  image_buffer width height before →
  painted width height color S before after →
  image_buffer width height after.
Proof.
  intros (? & ? & Hlen) [Hl _ _]. split; [done|]. split; [done|].
  by rewrite Hl.
Qed.

Section Painting.
Variables width height r g b : Z.
Hypothesis Hr : is_byte r.
Hypothesis Hg : is_byte g.
Hypothesis Hb : is_byte b.

(** The guarded call of [set_pixel] that [fill_rect] and [draw_line]
    make. *)
Lemma guarded_set_pixel (S : Z → Z → Prop) pixels x y :
  image_buffer width height pixels →
  (in_image width height x y = true → S x y) →
  ∃ out,
    (if in_image width height x y
     then set_pixel pixels width x y r g b else Some pixels) = Some out
    ∧ painted width height (r, g, b) S pixels out
    ∧ (in_image width height x y = true →
       pixel_at out width x y = Some (r, g, b)).
Proof using Hr Hg Hb.
  intros Hbuf HS. destruct (in_image width height x y) eqn:Hin.
  - destruct (set_pixel_in_image pixels width height x y r g b
                Hbuf Hr Hg Hb Hin) as (out & -> & Hlen & Hset & Hrest).
    exists out. split; [done|]. split; [|done]. split; [done| |].
    + intros x' y' Hin'. destruct (decide ((x', y') = (x, y))) as [[= -> ->]|Hne].
      * left. auto.
      * right. by apply Hrest.
    + intros x' y' Hin' Hc. destruct (decide ((x', y') = (x, y))) as [[= -> ->]|Hne].
      * done.
      * by rewrite Hrest.
  - exists pixels. split; [done|]. split; [apply painted_refl|done].
Qed.

(** A loop whose every round paints inside [S] and covers [C a]. *)
Lemma for_each_painted {A} (body : A → list Z → option (list Z))
    (C : A → Z → Z → Prop) (S : Z → Z → Prop) xs pixels :
  image_buffer width height pixels →
  (∀ a p, a ∈ xs → image_buffer width height p →
     ∃ out, body a p = Some out
            ∧ painted width height (r, g, b) S p out
            ∧ ∀ x y, in_image width height x y = true → C a x y →
                pixel_at out width x y = Some (r, g, b)) →
  ∃ out, for_each body xs pixels = Some out
         ∧ painted width height (r, g, b) S pixels out
         ∧ ∀ a x y, a ∈ xs → in_image width height x y = true → C a x y →
             pixel_at out width x y = Some (r, g, b).
Proof.
  revert pixels. induction xs as [|a xs IH]; intros pixels Hbuf Hbody.
  - exists pixels. split; [done|]. split; [apply painted_refl|].
    intros a x y Ha. by apply elem_of_nil in Ha.
  - destruct (Hbody a pixels ltac:(left) Hbuf) as (p1 & Hb1 & Hp1 & Hc1).
    destruct (IH p1) as (out & Hrest & Hp & Hc).
    { by eapply image_buffer_painted. }
    { intros a' p Ha'. apply Hbody. by right. }
    exists out. simpl. rewrite Hb1. simpl. split; [done|].
    split; [by eapply painted_trans|].
    intros a' x y [->|Ha']%elem_of_cons Hin HC.
    + eapply painted_stays; [exact Hp|done|]. by apply Hc1.
    + by eapply Hc.
Qed.

Section Line.
Variables X0 Y0 x1 y1 dx dy sx sy : Z.
Hypothesis Hdx : dx = Z.abs (x1 - X0).
Hypothesis Hdy : dy = Z.abs (y1 - Y0).
Hypothesis Hsx : sx = if X0 <? x1 then 1 else -1.
Hypothesis Hsy : sy = if Y0 <? y1 then 1 else -1.

Lemma near_line_steps i j :
  0 ≤ i ≤ dx → 0 ≤ j ≤ dy →
  2 * Z.abs (j * dx - i * dy) ≤ Z.max dx dy →
  near_line X0 Y0 x1 y1 (X0 + sx * i) (Y0 + sy * j).
Proof using Hdx Hdy Hsx Hsy.
  unfold near_line. cbv zeta. rewrite <- Hdx, <- Hdy.
  intros Hi Hj Hd.
  assert (Z.abs (X0 + sx * i - X0) = i) as ->
    by (rewrite Hsx; destruct (Z.ltb_spec X0 x1); lia).
  assert (Z.abs (Y0 + sy * j - Y0) = j) as ->
    by (rewrite Hsy; destruct (Z.ltb_spec Y0 y1); lia).
  split; [rewrite Hsx; destruct (Z.ltb_spec X0 x1); lia|].
  split; [rewrite Hsy; destruct (Z.ltb_spec Y0 y1); lia|]. done.
Qed.

Lemma draw_line_loop_spec fuel :
  ∀ i j pixels x0 y0 err,
    0 ≤ i ≤ dx → 0 ≤ j ≤ dy →
    2 * Z.abs (j * dx - i * dy) ≤ Z.max dx dy →
    x0 = X0 + sx * i → y0 = Y0 + sy * j →
    err = (j + 1) * dx - (i + 1) * dy →
    (dx - i) + (dy - j) < Z.of_nat fuel →
    image_buffer width height pixels →
    ∃ out,
      draw_line_loop fuel pixels width height x0 y0 x1 y1
        dx dy sx sy err r g b = Some out
      ∧ painted width height (r, g, b) (near_line X0 Y0 x1 y1) pixels out
      ∧ (in_image width height x0 y0 = true →
         pixel_at out width x0 y0 = Some (r, g, b))
      ∧ (in_image width height x1 y1 = true →
         pixel_at out width x1 y1 = Some (r, g, b)).
Proof using Hr Hg Hb Hdx Hdy Hsx Hsy.
  induction fuel as [|fuel IH];
    intros i j pixels x0 y0 err Hi Hj Hd Hx Hy Herr Hfuel Hbuf; [lia|].
  cbn [draw_line_loop].
  destruct (guarded_set_pixel (near_line X0 Y0 x1 y1) pixels x0 y0 Hbuf)
    as (p1 & -> & Hp1 & Hc1).
  { intros _. subst x0 y0. by apply near_line_steps. }
  cbn [mbind option_bind].
  assert (x0 = x1 ↔ i = dx) as Hxend.
  { subst x0. rewrite Hsx. destruct (Z.ltb_spec X0 x1); lia. }
  assert (y0 = y1 ↔ j = dy) as Hyend.
  { subst y0. rewrite Hsy. destruct (Z.ltb_spec Y0 y1); lia. }
  destruct ((x0 =? x1) && (y0 =? y1)) eqn:Hend.
  - apply andb_true_iff in Hend as [->%Z.eqb_eq ->%Z.eqb_eq].
    exists p1. auto.
  - assert (i < dx ∨ j < dy) as Hmore.
    { apply andb_false_iff in Hend as [Hne%Z.eqb_neq|Hne%Z.eqb_neq]; lia. }
    assert (image_buffer width height p1) as Hbuf1
      by (by eapply image_buffer_painted).
    set (i' := if - dy <? 2 * err then i + 1 else i).
    set (j' := if 2 * err <? dx then j + 1 else j).
    assert (0 ≤ i' ≤ dx ∧ 0 ≤ j' ≤ dy
            ∧ 2 * Z.abs (j' * dx - i' * dy) ≤ Z.max dx dy
            ∧ i + j < i' + j') as (Hi' & Hj' & Hd' & Hprog).
    { unfold i', j'.
      clear IH Hp1 Hc1 Hbuf Hbuf1 Hxend Hyend Hend Hx Hy Hdx Hdy Hsx Hsy.
      subst err.
      destruct (Z.ltb_spec (- dy) (2 * ((j + 1) * dx - (i + 1) * dy))),
               (Z.ltb_spec (2 * ((j + 1) * dx - (i + 1) * dy)) dx);
        nia. }
    destruct (IH i' j' p1 (X0 + sx * i') (Y0 + sy * j')
                ((j' + 1) * dx - (i' + 1) * dy))
      as (out & Hloop & Hp & _ & Hc); try done; [lia|].
    exists out. split.
    + rewrite <- Hloop. subst x0 y0 err. unfold i', j'.
      destruct (- dy <? _), (_ <? dx); cbn [fst snd]; f_equal; lia.
    + split; [by eapply painted_trans|]. split; [|done].
      intros Hin. eapply painted_stays; [exact Hp|done|]. by apply Hc1.
Qed.
End Line.
End Painting.

(** X24. [fill_rect] on a buffer of the size of the image, with a colour
    of three bytes, raises nothing and paints exactly the part of the
    square of side [2 * radius + 1] about [(cx, cy)] that is in the image:
    these pixels take the colour, every other pixel keeps its own, and the
    buffer keeps its length. *)
Theorem fill_rect_paints_the_square :
  ∀ (pixels : list Z) (width height cx cy radius r g b : Z),
    image_buffer width height pixels →
    is_byte r → is_byte g → is_byte b →
    ∃ out,
      fill_rect pixels width height cx cy radius r g b = Some out
      ∧ length out = length pixels
      ∧ ∀ x y, in_image width height x y = true →
          (in_square cx cy radius x y →
           pixel_at out width x y = Some (r, g, b))
          ∧ (¬ in_square cx cy radius x y →
             pixel_at out width x y = pixel_at pixels width x y).
Proof.
  intros pixels width height cx cy radius r g b Hbuf Hr Hg Hb.
  unfold fill_rect.
  destruct (for_each_painted width height r g b
    (λ dy, for_each (λ dx pixels,
       if in_image width height (cx + dx) (cy + dy)
       then set_pixel pixels width (cx + dx) (cy + dy) r g b
       else Some pixels) (py_range_from (- radius) (radius + 1)))
    (λ dy x y, y = cy + dy ∧ Z.abs (x - cx) ≤ radius)
    (in_square cx cy radius)
    (py_range_from (- radius) (radius + 1)) pixels Hbuf)
    as (out & Hrun & Hp & Hc).
  { intros dy p Hdy%elem_of_py_range_from Hp.
    destruct (for_each_painted width height r g b
      (λ dx pixels,
         if in_image width height (cx + dx) (cy + dy)
         then set_pixel pixels width (cx + dx) (cy + dy) r g b
         else Some pixels)
      (λ dx x y, x = cx + dx ∧ y = cy + dy)
      (in_square cx cy radius)
      (py_range_from (- radius) (radius + 1)) p Hp)
      as (out & Hrun & Hpo & Hc).
    { intros dx q Hdx%elem_of_py_range_from Hq.
      destruct (guarded_set_pixel width height r g b Hr Hg Hb
                  (in_square cx cy radius) q (cx + dx) (cy + dy) Hq)
        as (o & Ho & Hpo & Hco).
      { intros _. unfold in_square. lia. }
      exists o. split; [done|]. split; [done|].
      intros x y Hin [-> ->]. by apply Hco. }
    exists out. split; [done|]. split; [done|].
    intros x y Hin [-> Hx]. apply (Hc (x - cx)); [|done|lia].
    apply elem_of_py_range_from. lia. }
  exists out. split; [done|]. split; [apply Hp|].
  intros x y Hin. split.
  - intros [Hx Hy]. apply (Hc (y - cy)); [|done|lia].
    apply elem_of_py_range_from. lia.
  - intros Hout. destruct (painted_pixels _ _ _ _ _ _ Hp x y Hin) as [[? _]|?];
      done.
Qed.

Lemma white_image_buffer : image_buffer 4 3 white_image.
Proof. unfold image_buffer, white_image. rewrite length_replicate. lia. Qed.

Lemma fill_rect_paints_the_square_witness :
  ∃ out,
    fill_rect white_image 4 3 0 0 1 180 180 185 = Some out
    ∧ length out = length white_image
    ∧ ∀ x y, in_image 4 3 x y = true →
        (in_square 0 0 1 x y → pixel_at out 4 x y = Some (180, 180, 185))
        ∧ (¬ in_square 0 0 1 x y →
           pixel_at out 4 x y = pixel_at white_image 4 x y).
Proof.
  apply (fill_rect_paints_the_square white_image 4 3 0 0 1 180 180 185).
  - exact white_image_buffer.
  - unfold is_byte; lia.
  - unfold is_byte; lia.
  - unfold is_byte; lia.
Defined.

(** X25. [draw_line] on a buffer of the size of the image, with a colour
    of three bytes, returns (its loop ends within [dx + dy + 1] rounds and
    raises nothing) and keeps the buffer's length. Each end of the segment
    that is in the image is painted. Every pixel of the image either keeps
    its colour or is painted, and a painted pixel is in the box of the two
    ends and off the segment by at most half a step:
    [2 * | |y - y0| * dx - |x - x0| * dy | <= max dx dy]. *)
Theorem draw_line_follows_the_segment :
  ∀ (pixels : list Z) (width height x0 y0 x1 y1 r g b : Z),
    image_buffer width height pixels →
    is_byte r → is_byte g → is_byte b →
    ∃ out,
      draw_line pixels width height x0 y0 x1 y1 r g b = Some out
      ∧ length out = length pixels
      ∧ (in_image width height x0 y0 = true →
         pixel_at out width x0 y0 = Some (r, g, b))
      ∧ (in_image width height x1 y1 = true →
         pixel_at out width x1 y1 = Some (r, g, b))
      ∧ ∀ x y, in_image width height x y = true →
          pixel_at out width x y = pixel_at pixels width x y
          ∨ (pixel_at out width x y = Some (r, g, b)
             ∧ near_line x0 y0 x1 y1 x y).
Proof.
  intros pixels width height x0 y0 x1 y1 r g b Hbuf Hr Hg Hb.
  unfold draw_line.
  destruct (draw_line_loop_spec width height r g b Hr Hg Hb
    x0 y0 x1 y1 (Z.abs (x1 - x0)) (Z.abs (y1 - y0))
    (if x0 <? x1 then 1 else -1) (if y0 <? y1 then 1 else -1)
    eq_refl eq_refl eq_refl eq_refl
    (S (Z.to_nat (Z.abs (x1 - x0) + Z.abs (y1 - y0)))) 0 0 pixels x0 y0
    (Z.abs (x1 - x0) - Z.abs (y1 - y0)))
    as (out & Hrun & Hp & Hc0 & Hc1); try lia; [done|].
  exists out. split; [done|]. split; [apply Hp|]. split; [done|].
  split; [done|].
  intros x y Hin.
  destruct (painted_pixels _ _ _ _ _ _ Hp x y Hin) as [[? ?]|?]; auto.
Qed.

Lemma draw_line_follows_the_segment_witness :
  ∃ out,
    draw_line white_image 4 3 0 0 5 2 90 90 95 = Some out
    ∧ length out = length white_image
    ∧ (in_image 4 3 0 0 = true → pixel_at out 4 0 0 = Some (90, 90, 95))
    ∧ (in_image 4 3 5 2 = true → pixel_at out 4 5 2 = Some (90, 90, 95))
    ∧ ∀ x y, in_image 4 3 x y = true →
        pixel_at out 4 x y = pixel_at white_image 4 x y
        ∨ (pixel_at out 4 x y = Some (90, 90, 95) ∧ near_line 0 0 5 2 x y).
Proof.
  apply (draw_line_follows_the_segment white_image 4 3 0 0 5 2 90 90 95).
  - exact white_image_buffer.
  - unfold is_byte; lia.
  - unfold is_byte; lia.
  - unfold is_byte; lia.
Defined.

(** ** The names of the fragment files *)

Lemma string_length_app (a b : string) :
  String.length (a +:+ b) = (String.length a + String.length b)%nat.
Proof. induction a as [|x a IH]; simpl; [done|]. by rewrite IH. Qed.

Lemma substring_all (a : string) : substring 0 (String.length a) a = a.
Proof. induction a as [|x a IH]; simpl; [done|]. by rewrite IH. Qed.

Lemma substring_app_l (a b : string) :
  substring 0 (String.length a) (a +:+ b) = a.
Proof.
  induction a as [|x a IH]; simpl; [by destruct b|]. by rewrite IH.
Qed.

Lemma substring_app_r (a b : string) :
  substring (String.length a) (String.length b) (a +:+ b) = b.
Proof. induction a as [|x a IH]; simpl; [apply substring_all|done]. Qed.

Lemma endswith_app (a b : string) : endswith (a +:+ b) b = true.
Proof.
  unfold endswith. rewrite string_length_app.
  apply andb_true_iff. split; [apply Nat.leb_le; lia|].
  replace (String.length a + String.length b - String.length b)%nat
    with (String.length a) by lia.
  rewrite substring_app_r. apply String.eqb_refl.
Qed.

Lemma py_drop_last_app (a b : string) :
  py_drop_last (String.length b) (a +:+ b) = a.
Proof.
  unfold py_drop_last. rewrite string_length_app.
  replace (String.length a + String.length b - String.length b)%nat
    with (String.length a) by lia.
  apply substring_app_l.
Qed.

Lemma py_split_not_nil sep s : py_split sep s ≠ [].
Proof.
  destruct s as [|a s]; simpl; [done|].
  destruct (Ascii.eqb a sep); [done|]. by destruct (py_split sep s).
Qed.

Lemma py_split_no_sep sep s : has_char sep s = false → py_split sep s = [s].
Proof.
  induction s as [|a s IH]; simpl; [done|].
  intros [Ha Hs]%orb_false_iff. rewrite Ha, (IH Hs). done.
Qed.

Lemma py_split_app sep a rest :
  has_char sep a = false →
  py_split sep (a +:+ String sep rest) = a :: py_split sep rest.
Proof.
  induction a as [|x a IH]; simpl.
  - intros _. by rewrite Ascii.eqb_refl.
  - intros [Hx Ha]%orb_false_iff. rewrite Hx, (IH Ha). done.
Qed.

Lemma string_of_uint_no_sep (d : Decimal.uint) :
  has_char "_" (DecimalString.NilEmpty.string_of_uint d) = false.
Proof. induction d; simpl; done. Qed.

Lemma py_str_int_no_sep (n : Z) : has_char "_" (py_str_int n) = false.
Proof.
  unfold py_str_int. destruct (Z.to_int n) as [d|d]; simpl.
  - destruct d; try done; apply (string_of_uint_no_sep (_ d)).
  - destruct d; try done; apply (string_of_uint_no_sep (_ d)).
Qed.

Lemma int_of_decimal_str (n : Z) : int_of_decimal (py_str_int n) = Some n.
Proof.
  unfold int_of_decimal, py_str_int.
  rewrite DecimalString.NilZero.isi.
  - simpl. by rewrite DecimalZ.of_to.
  - destruct n as [|p|p]; simpl; [done| |done].
    intros [= H]. by apply (DecimalPos.Unsigned.to_uint_nonnil p).
  - destruct n as [|p|p]; simpl; [done|done|].
    intros [= H]. by apply (DecimalPos.Unsigned.to_uint_nonnil p).
Qed.

Section WriteTileJsonsProofs.
Variable py_int : string → option Z.
Hypothesis py_int_str : ∀ n, py_int (py_str_int n) = Some n.

Lemma parse_fragment_file_name c tx ty :
  has_char "_" c = false →
  parse_fragment_name py_int (fragment_file_name c tx ty)
  = Some (Some (c, tx, ty)).
Proof using py_int_str.
  intros Hc. unfold parse_fragment_name, fragment_file_name.
  set (stem := c +:+ "_" +:+ py_str_int tx +:+ "_" +:+ py_str_int ty).
  assert (c +:+ "_" +:+ py_str_int tx +:+ "_" +:+ py_str_int ty +:+ ".jsonl"
          = stem +:+ ".jsonl") as ->.
  { unfold stem. by rewrite !string_app_assoc. }
  rewrite endswith_app. cbn [negb].
  change 6%nat with (String.length ".jsonl"). rewrite py_drop_last_app.
  assert (py_split "_" stem = [c; py_str_int tx; py_str_int ty]) as ->.
  { unfold stem.
    change (c +:+ "_" +:+ py_str_int tx +:+ "_" +:+ py_str_int ty)
      with (c +:+ String "_" (py_str_int tx +:+ String "_" (py_str_int ty))).
    rewrite (py_split_app _ _ _ Hc).
    rewrite (py_split_app _ _ _ (py_str_int_no_sep tx)).
    by rewrite (py_split_no_sep _ _ (py_str_int_no_sep ty)). }
  cbn. by rewrite !py_int_str.
Qed.

Lemma gather_fragment_file_name tmp_dir tiles c tx ty :
  has_char "_" c = false →
  gather_fragment py_int tmp_dir (fragment_file_name c tx ty) tiles
  = Some (<[(tx, ty) := <[c := path_join tmp_dir (fragment_file_name c tx ty)]>
                          (default ∅ (tiles !! (tx, ty)))]> tiles).
Proof using py_int_str.
  intros Hc. unfold gather_fragment.
  by rewrite (parse_fragment_file_name c tx ty Hc).
Qed.

Lemma gathered_step tmp_dir done tiles c tx ty :
  gathered tmp_dir done tiles →
  gathered tmp_dir (done ++ [(c, tx, ty)])
    (<[(tx, ty) := <[c := path_join tmp_dir (fragment_file_name c tx ty)]>
                     (default ∅ (tiles !! (tx, ty)))]> tiles).
Proof.
  intros [Hin Hout]. split.
  - intros c' tx' ty' [Hold|Hnew%list_elem_of_singleton]%elem_of_app.
    + destruct (Hin _ _ _ Hold) as (m & Hm & Hc').
      destruct (decide ((tx', ty') = (tx, ty))) as [[= -> ->]|Hne].
      * rewrite lookup_insert_eq. eexists. split; [done|].
        rewrite Hm. cbn [default].
        destruct (decide (c' = c)) as [->|Hcne].
        -- by rewrite lookup_insert_eq.
        -- by rewrite lookup_insert_ne.
      * rewrite lookup_insert_ne by done. eauto.
    + injection Hnew as -> -> ->.
      rewrite lookup_insert_eq. eexists. split; [done|].
      by rewrite lookup_insert_eq.
  - intros tx' ty' m.
    destruct (decide ((tx', ty') = (tx, ty))) as [[= -> ->]|Hne].
    + rewrite lookup_insert_eq. intros [= <-]. split.
      * exists c. rewrite lookup_insert_eq. by eexists.
      * intros c' p. destruct (decide (c' = c)) as [->|Hcne].
        -- intros _. apply elem_of_app. right. by apply list_elem_of_singleton.
        -- rewrite lookup_insert_ne by done.
           destruct (tiles !! (tx, ty)) as [m|] eqn:Hm; cbn [default].
           ++ intros Hp. apply elem_of_app. left.
              by apply (proj2 (Hout _ _ _ Hm) c' p).
           ++ by rewrite lookup_empty.
    + rewrite lookup_insert_ne by done. intros Hm.
      destruct (Hout _ _ _ Hm) as [Hne' Hall]. split; [done|].
      intros c' p Hp. apply elem_of_app. left. by eapply Hall.
Qed.

Lemma gather_loop tmp_dir apps :
  ∀ done tiles,
    (∀ c tx ty, (c, tx, ty) ∈ apps → has_char "_" c = false) →
    gathered tmp_dir done tiles →
    ∃ tiles',
      for_each (gather_fragment py_int tmp_dir)
        ((λ a, fragment_file_name a.1.1 a.1.2 a.2) <$> apps) tiles
      = Some tiles'
      ∧ gathered tmp_dir (done ++ apps) tiles'.
Proof using py_int_str.
  induction apps as [|[[c tx] ty] apps IH]; intros done tiles Hc Hg.
  - exists tiles. by rewrite app_nil_r.
  - change ((λ a : string * Z * Z, fragment_file_name a.1.1 a.1.2 a.2)
              <$> (c, tx, ty) :: apps)
      with (fragment_file_name c tx ty
            :: ((λ a : string * Z * Z, fragment_file_name a.1.1 a.1.2 a.2)
                <$> apps)).
    cbn [for_each].
    rewrite gather_fragment_file_name by (eapply Hc; left).
    cbn [mbind option_bind].
    destruct (IH (done ++ [(c, tx, ty)]) _
                (λ c' tx' ty' H, Hc c' tx' ty' ltac:(by right))
                (gathered_step tmp_dir done tiles c tx ty Hg))
      as (tiles' & Hrun & Hg').
    exists tiles'. split; [done|]. by rewrite <- app_assoc in Hg'.
Qed.
End WriteTileJsonsProofs.

Lemma gathered_empty tmp_dir : gathered tmp_dir [] ∅.
Proof.
  split.
  - intros c tx ty H. by apply elem_of_nil in H.
  - intros tx ty m H. by rewrite lookup_empty in H.
Qed.

(** X26. The name [append] gives a fragment file is read back by the first
    loop of [write_tile_jsons] as the same category and tile, negative
    tile numbers included, when the category has no underscore (as the
    seven that [main] uses) and [int] reads back what [str] prints; and
    two fragments of different categories or tiles never share a file. *)
Theorem fragment_file_name_round_trip :
  ∀ (py_int : string → option Z) (category : string) (tx ty : Z),
    (∀ n, py_int (py_str_int n) = Some n) →
    has_char "_" category = false →
    parse_fragment_name py_int (fragment_file_name category tx ty)
    = Some (Some (category, tx, ty))
    ∧ ∀ category' tx' ty',
        has_char "_" category' = false →
        fragment_file_name category' tx' ty'
        = fragment_file_name category tx ty →
        (category', tx', ty') = (category, tx, ty).
Proof.
  intros py_int c tx ty Hint Hc. split.
  - by apply parse_fragment_file_name.
  - intros c' tx' ty' Hc' Heq.
    pose proof (parse_fragment_file_name int_of_decimal int_of_decimal_str
                  c tx ty Hc) as H1.
    pose proof (parse_fragment_file_name int_of_decimal int_of_decimal_str
                  c' tx' ty' Hc') as H2.
    rewrite Heq in H2. congruence.
Qed.

Lemma fragment_file_name_round_trip_witness :
  parse_fragment_name int_of_decimal (fragment_file_name "roads" (-3) 12)
  = Some (Some ("roads", -3, 12))
  ∧ ∀ category' tx' ty',
      has_char "_" category' = false →
      fragment_file_name category' tx' ty'
      = fragment_file_name "roads" (-3) 12 →
      (category', tx', ty') = ("roads", -3, 12).
Proof.
  apply (fragment_file_name_round_trip int_of_decimal "roads" (-3) 12).
  - exact int_of_decimal_str.
  - reflexivity.
Defined.

(** X27. From the names of the fragment files that [append] wrote under
    [tmp_dir], in whatever order [os.listdir] gives them, the first loop
    of [write_tile_jsons] raises nothing and builds a dict that has
    exactly the tiles that got a fragment, each with exactly the
    categories appended for it, every category with the path of its
    file. *)
Theorem write_tile_jsons_gathers_the_appends :
  ∀ (py_int : string → option Z) (tmp_dir : string)
    (apps : list (string * Z * Z)),
    (∀ n, py_int (py_str_int n) = Some n) →
    (∀ c tx ty, (c, tx, ty) ∈ apps → has_char "_" c = false) →
    ∃ tiles,
      gather_fragments py_int tmp_dir
        ((λ a, fragment_file_name a.1.1 a.1.2 a.2) <$> apps) = Some tiles
      ∧ gathered tmp_dir apps tiles.
Proof.
  intros py_int tmp_dir apps Hint Hc. unfold gather_fragments.
  apply (gather_loop py_int Hint tmp_dir apps [] ∅ Hc (gathered_empty tmp_dir)).
Qed.

Lemma write_tile_jsons_gathers_the_appends_witness :
  ∃ tiles,
    gather_fragments int_of_decimal "out/_tmp_tiles"
      ((λ a, fragment_file_name a.1.1 a.1.2 a.2) <$> demo_appends) = Some tiles
    ∧ gathered "out/_tmp_tiles" demo_appends tiles.
Proof.
  apply (write_tile_jsons_gathers_the_appends int_of_decimal "out/_tmp_tiles"
           demo_appends).
  - exact int_of_decimal_str.
  - intros c tx ty Hin. unfold demo_appends in Hin.
    repeat (apply elem_of_cons in Hin as [[= -> -> ->]|Hin]; [reflexivity|]).
    by apply elem_of_nil in Hin.
Defined.

(** ** The overview image: filled polygons *)

Lemma elem_of_py_range_step start stop step i :
  0 < step → i ∈ py_range_step start stop step → start ≤ i < stop.
Proof.
  intros Hstep. unfold py_range_step.
  intros (k & -> & Hk%elem_of_seq)%list_elem_of_fmap.
  pose proof (Z.mul_div_le (stop - start + step - 1) step Hstep) as Hle.
  set (q := (stop - start + step - 1) `div` step) in *.
  assert (Z.of_nat k + 1 ≤ q) as Hkq by lia.
  split; [nia|]. nia.
Qed.

Lemma py_getitem_elem_of {A} (l : list A) i v :
  py_getitem l i = Some v → v ∈ l.
Proof.
  unfold py_getitem. destruct (py_index l i) as [k|]; simpl; [|done].
  apply list_elem_of_lookup_2.
Qed.

Lemma scan_crossing_between xi xj yi yj y :
  yi ≤ y < yj →
  Z.min xi xj ≤ xi + ((y - yi) * (xj - xi)) `div` (yj - yi) ≤ Z.max xi xj.
Proof.
  intros Hy.
  assert (∀ t w d, 0 < d → 0 ≤ t < d →
            Z.min 0 w ≤ (t * w) `div` d ≤ Z.max 0 w) as Hq.
  { clear. intros t w d Hd Ht.
    destruct (Z.le_gt_cases 0 w) as [Hw|Hw].
    - rewrite Z.min_l, Z.max_r by lia. split.
      + apply Z.div_pos; nia.
      + apply Z.div_le_upper_bound; nia.
    - rewrite Z.min_r, Z.max_l by lia. split.
      + apply Z.div_le_lower_bound; nia.
      + apply Z.div_le_upper_bound; nia. }
  specialize (Hq (y - yi) (xj - xi) (yj - yi) ltac:(lia) ltac:(lia)).
  lia.
Qed.

Lemma scan_intersections_spec points y :
  points ≠ [] →
  ∃ intersections,
    scan_intersections points y = Some intersections
    ∧ ∀ v, v ∈ intersections →
        ∃ p q, p ∈ points ∧ q ∈ points ∧ p.2 ≤ y < q.2
               ∧ Z.min p.1 q.1 ≤ v ≤ Z.max p.1 q.1.
Proof.
  intros Hne. unfold scan_intersections.
  set (n := Z.of_nat (length points)).
  assert (0 < n) as Hn by (unfold n; destruct points; [done|simpl; lia]).
  apply (for_each_total _ (λ acc : list Z, ∀ v, v ∈ acc →
           ∃ p q, p ∈ points ∧ q ∈ points ∧ p.2 ≤ y < q.2
                  ∧ Z.min p.1 q.1 ≤ v ≤ Z.max p.1 q.1)).
  - intros i acc Hi%elem_of_py_range Hacc.
    destruct (py_getitem_in_range points i Hi) as [pi Hpi].
    destruct (py_getitem_in_range points ((i + 1) `mod` n)
                (Z.mod_pos_bound _ _ Hn)) as [pj Hpj].
    rewrite Hpi, Hpj. cbn [mbind option_bind].
    apply py_getitem_elem_of in Hpi, Hpj.
    destruct (pi.2 =? pj.2); [eauto|].
    destruct (Z.ltb_spec pj.2 pi.2) as [Hlt|Hge].
    + destruct (Z.leb_spec pj.2 y), (Z.ltb_spec y pi.2); cbn [andb]; eauto.
      eexists. split; [done|].
      intros v [Hv|Hv%list_elem_of_singleton]%elem_of_app; [eauto|]. subst v.
      exists pj, pi. split; [done|]. split; [done|]. split; [lia|].
      by apply scan_crossing_between.
    + destruct (Z.leb_spec pi.2 y), (Z.ltb_spec y pj.2); cbn [andb]; eauto.
      eexists. split; [done|].
      intros v [Hv|Hv%list_elem_of_singleton]%elem_of_app; [eauto|]. subst v.
      exists pi, pj. split; [done|]. split; [done|]. split; [lia|].
      by apply scan_crossing_between.
  - intros v Hv. by apply elem_of_nil in Hv.
Qed.

Section Scanline.
Variables width height r g b : Z.
Hypothesis Hr : is_byte r.
Hypothesis Hg : is_byte g.
Hypothesis Hb : is_byte b.

Lemma set_pixel_painted (S : Z → Z → Prop) pixels x y :
  image_buffer width height pixels →
  in_image width height x y = true → S x y →
  ∃ out, set_pixel pixels width x y r g b = Some out
         ∧ painted width height (r, g, b) S pixels out.
Proof using Hr Hg Hb.
  intros Hbuf Hin HS.
  destruct (guarded_set_pixel width height r g b Hr Hg Hb S pixels x y Hbuf)
    as (out & Hout & Hp & _); [done|].
  rewrite Hin in Hout. eauto.
Qed.

(** One row of [fill_scanline]. *)
Lemma fill_scanline_row points pixels y (sorted : list Z) :
  image_buffer width height pixels →
  0 ≤ y < height →
  (∀ v, v ∈ sorted →
     ∃ p q, p ∈ points ∧ q ∈ points ∧ p.2 ≤ y < q.2
            ∧ Z.min p.1 q.1 ≤ v ≤ Z.max p.1 q.1) →
  ∃ out,
    for_each (λ k pixels,
      ik ← py_getitem sorted k;
      ik1 ← py_getitem sorted (k + 1);
      for_each (λ x pixels, set_pixel pixels width x y r g b)
        (py_range_from (Z.max 0 ik) (Z.min (width - 1) ik1 + 1)) pixels)
      (py_range_step 0 (Z.of_nat (length sorted) - 1) 2) pixels = Some out
    ∧ painted width height (r, g, b) (in_points_box points) pixels out.
Proof using Hr Hg Hb.
  intros Hbuf Hy Hcross.
  destruct (for_each_painted width height r g b
    (λ k pixels,
      ik ← py_getitem sorted k;
      ik1 ← py_getitem sorted (k + 1);
      for_each (λ x pixels, set_pixel pixels width x y r g b)
        (py_range_from (Z.max 0 ik) (Z.min (width - 1) ik1 + 1)) pixels)
    (λ _ _ _, False) (in_points_box points)
    (py_range_step 0 (Z.of_nat (length sorted) - 1) 2) pixels Hbuf)
    as (out & Hrun & Hp & _); [|eauto].
  intros k p Hk Hp. apply elem_of_py_range_step in Hk; [|lia].
  destruct (py_getitem_in_range sorted k ltac:(lia)) as [ik Hik].
  destruct (py_getitem_in_range sorted (k + 1) ltac:(lia)) as [ik1 Hik1].
  rewrite Hik, Hik1. cbn [mbind option_bind].
  apply py_getitem_elem_of in Hik, Hik1.
  destruct (Hcross ik Hik) as (p0 & q0 & Hp0 & Hq0 & Hy0 & Hx0).
  destruct (Hcross ik1 Hik1) as (p1 & q1 & Hp1 & Hq1 & Hy1 & Hx1).
  destruct (for_each_painted width height r g b
    (λ x pixels, set_pixel pixels width x y r g b)
    (λ _ _ _, False) (in_points_box points)
    (py_range_from (Z.max 0 ik) (Z.min (width - 1) ik1 + 1)) p Hp)
    as (out & Hrun & Hpo & _).
  { intros x q Hx%elem_of_py_range_from Hq.
    destruct (set_pixel_painted (in_points_box points) q x y Hq)
      as (o & Ho & Hpo).
    - apply in_image_true. lia.
    - split; [|split; [|split]].
      + destruct (Z.le_ge_cases p0.1 q0.1);
          [exists p0|exists q0]; split; first [done|lia].
      + destruct (Z.le_ge_cases p1.1 q1.1);
          [exists q1|exists p1]; split; first [done|lia].
      + exists p0. split; [done|lia].
      + exists q0. split; [done|lia].
    - exists o. split; [done|]. split; [done|]. by intros. }
  exists out. split; [done|]. split; [done|]. by intros.
Qed.
End Scanline.

(** X28. [fill_scanline] on a buffer of the size of the image, with a
    colour of three bytes, raises nothing for any list of points and keeps
    the buffer's length. Every pixel of the image keeps its colour or is
    painted, and a painted pixel [(x, y)] is in the box of the points, the
    box's last row left out: some point has its [x] at most [x], some at
    least [x], some has its [y] at most [y], and some above [y]. *)
Theorem fill_scanline_stays_in_the_box :
  ∀ (pixels : list Z) (width height : Z) (points : list (Z * Z)) (r g b : Z),
    image_buffer width height pixels →
    is_byte r → is_byte g → is_byte b →
    ∃ out,
      fill_scanline pixels width height points r g b = Some out
      ∧ length out = length pixels
      ∧ ∀ x y, in_image width height x y = true →
          pixel_at out width x y = pixel_at pixels width x y
          ∨ (pixel_at out width x y = Some (r, g, b)
             ∧ in_points_box points x y).
Proof.
  intros pixels width height points r g b Hbuf Hr Hg Hb.
  assert (∃ out, fill_scanline pixels width height points r g b = Some out
            ∧ painted width height (r, g, b) (in_points_box points) pixels out)
    as (out & Hrun & Hp).
  { unfold fill_scanline.
    destruct (Nat.ltb_spec (length points) 3) as [Hshort|Hlong].
    { exists pixels. split; [done|apply painted_refl]. }
    destruct points as [|p0 points']; [simpl in Hlong; lia|].
    set (points := p0 :: points') in *.
    change (py_min (points.*2)) with (Some (foldl Z.min p0.2 (points'.*2))).
    change (py_max (points.*2)) with (Some (foldl Z.max p0.2 (points'.*2))).
    cbn [mbind option_bind].
    destruct (for_each_painted width height r g b
      (λ y pixels,
        intersections ← scan_intersections points y;
        for_each (λ k pixels,
          ik ← py_getitem (merge_sort Z.le intersections) k;
          ik1 ← py_getitem (merge_sort Z.le intersections) (k + 1);
          for_each (λ x pixels, set_pixel pixels width x y r g b)
            (py_range_from (Z.max 0 ik) (Z.min (width - 1) ik1 + 1)) pixels)
          (py_range_step 0
             (Z.of_nat (length (merge_sort Z.le intersections)) - 1) 2) pixels)
      (λ _ _ _, False) (in_points_box points)
      (py_range_from (Z.max 0 (foldl Z.min p0.2 (points'.*2)))
         (Z.min (height - 1) (foldl Z.max p0.2 (points'.*2)) + 1)) pixels Hbuf)
      as (out & Hrun & Hp & _); [|eauto].
    intros y p Hy%elem_of_py_range_from Hp.
    destruct (scan_intersections_spec points y ltac:(done))
      as (inter & -> & Hinter).
    cbn [mbind option_bind].
    destruct (fill_scanline_row width height r g b Hr Hg Hb points p y
                (merge_sort Z.le inter) Hp ltac:(lia)) as (out & Hrun & Hpo).
    { intros v Hv. apply Hinter. by rewrite merge_sort_Permutation in Hv. }
    exists out. split; [done|]. split; [done|]. by intros. }
  exists out. split; [done|]. split; [apply Hp|].
  intros x y Hin.
  destruct (painted_pixels _ _ _ _ _ _ Hp x y Hin) as [[? ?]|?]; auto.
Qed.

Lemma fill_scanline_stays_in_the_box_witness :
  ∃ out,
    fill_scanline white_image 4 3 demo_triangle 100 140 210 = Some out
    ∧ length out = length white_image
    ∧ ∀ x y, in_image 4 3 x y = true →
        pixel_at out 4 x y = pixel_at white_image 4 x y
        ∨ (pixel_at out 4 x y = Some (100, 140, 210)
           ∧ in_points_box demo_triangle x y).
Proof.
  apply (fill_scanline_stays_in_the_box white_image 4 3 demo_triangle
           100 140 210).
  - exact white_image_buffer.
  - unfold is_byte; lia.
  - unfold is_byte; lia.
  - unfold is_byte; lia.
Defined.

(** ** The names of the tile files *)

#[global] Instance tile_le_total : Total tile_le.
Proof. intros a b. unfold tile_le. lia. Qed.

Lemma startswith_app (a b : string) : startswith (a +:+ b) a = true.
Proof. unfold startswith. rewrite substring_app_l. apply String.eqb_refl. Qed.

Section TileFilesProofs.
Variable py_int : string → option Z.
Hypothesis py_int_str : ∀ n, py_int (py_str_int n) = Some n.

Lemma tile_file_name_parts tx ty :
  startswith (tile_file_name tx ty) "tile_0_" = true
  ∧ endswith (tile_file_name tx ty) ".json" = true
  ∧ py_split "_" (py_drop_last 5 (tile_file_name tx ty))
    = ["tile"; "0"; py_str_int tx; py_str_int ty].
Proof.
  unfold tile_file_name.
  set (stem := "tile_0_" +:+ py_str_int tx +:+ "_" +:+ py_str_int ty).
  assert ("tile_0_" +:+ py_str_int tx +:+ "_" +:+ py_str_int ty +:+ ".json"
          = stem +:+ ".json") as Hstem.
  { unfold stem. by rewrite !string_app_assoc. }
  split; [apply startswith_app|]. rewrite Hstem.
  split; [apply endswith_app|].
  change 5%nat with (String.length ".json"). rewrite py_drop_last_app.
  unfold stem.
  change ("tile_0_" +:+ py_str_int tx +:+ "_" +:+ py_str_int ty)
    with ("tile" +:+ String "_" ("0" +:+ String "_"
            (py_str_int tx +:+ String "_" (py_str_int ty)))).
  rewrite (py_split_app "_" "tile") by reflexivity.
  rewrite (py_split_app "_" "0") by reflexivity.
  rewrite (py_split_app _ _ _ (py_str_int_no_sep tx)).
  by rewrite (py_split_no_sep _ _ (py_str_int_no_sep ty)).
Qed.

Lemma discover_tile_file_name tx ty tiles :
  discover_tile py_int (tile_file_name tx ty) tiles = tiles ++ [(tx, ty)].
Proof using py_int_str.
  unfold discover_tile.
  destruct (tile_file_name_parts tx ty) as (-> & -> & ->).
  cbn. by rewrite !py_int_str.
Qed.

Lemma discover_loop tiles :
  ∀ acc,
    foldl (λ tiles fn, discover_tile py_int fn tiles) acc
      ((λ t, tile_file_name t.1 t.2) <$> tiles)
    = acc ++ tiles.
Proof using py_int_str.
  induction tiles as [|[tx ty] tiles IH]; intros acc.
  - by rewrite app_nil_r.
  - change ((λ t : Z * Z, tile_file_name t.1 t.2) <$> (tx, ty) :: tiles)
      with (tile_file_name tx ty
            :: ((λ t : Z * Z, tile_file_name t.1 t.2) <$> tiles)).
    cbn [foldl]. rewrite discover_tile_file_name, IH.
    by rewrite <- app_assoc.
Qed.

Lemma scan_tile_file_name tiles_dir tx ty tile_files :
  scan_tile_file py_int tiles_dir (tile_file_name tx ty) tile_files
  = Some (tile_files
          ++ [(tx, ty, path_join tiles_dir (tile_file_name tx ty))]).
Proof using py_int_str.
  unfold scan_tile_file.
  destruct (tile_file_name_parts tx ty) as (-> & -> & ->).
  cbn. by rewrite !py_int_str.
Qed.

Lemma scan_loop tiles_dir tiles :
  ∀ acc,
    for_each (scan_tile_file py_int tiles_dir)
      ((λ t, tile_file_name t.1 t.2) <$> tiles) acc
    = Some (acc ++ ((λ t, (t.1, t.2, path_join tiles_dir
                                       (tile_file_name t.1 t.2))) <$> tiles)).
Proof using py_int_str.
  induction tiles as [|[tx ty] tiles IH]; intros acc.
  - cbn. by rewrite app_nil_r.
  - change ((λ t : Z * Z, tile_file_name t.1 t.2) <$> (tx, ty) :: tiles)
      with (tile_file_name tx ty
            :: ((λ t : Z * Z, tile_file_name t.1 t.2) <$> tiles)).
    cbn [for_each]. rewrite scan_tile_file_name. cbn [mbind option_bind].
    rewrite IH. by rewrite <- app_assoc.
Qed.
End TileFilesProofs.

(** X29. The tile files that [write_tile_jsons] writes are found again by
    the other tools, when [int] reads back what [str] prints: from their
    names, in any order, [discover_tiles] of dem_to_tiles.py returns the
    same tiles, each as often as it is listed, in ascending order; and the
    scan in [main] of generate_map_image.py raises nothing and lists each
    tile with the path of its file, in the order of the names. *)
Theorem tile_file_names_read_back :
  ∀ (py_int : string → option Z) (tiles_dir : string) (tiles : list (Z * Z)),
    (∀ n, py_int (py_str_int n) = Some n) →
    let names := (λ t, tile_file_name t.1 t.2) <$> tiles in
    discover_tiles py_int (Some names) ≡ₚ tiles
    ∧ Sorted tile_le (discover_tiles py_int (Some names))
    ∧ scan_tile_files py_int tiles_dir names
      = Some ((λ t, (t.1, t.2, path_join tiles_dir (tile_file_name t.1 t.2)))
              <$> tiles).
Proof.
  intros py_int tiles_dir tiles Hint names. unfold names, discover_tiles.
  rewrite (discover_loop py_int Hint tiles []). cbn [app].
  split; [apply merge_sort_Permutation|].
  split; [apply (Sorted_merge_sort tile_le)|].
  unfold scan_tile_files. by rewrite (scan_loop py_int Hint).
Qed.

Lemma tile_file_names_read_back_witness :
  let names := (λ t, tile_file_name t.1 t.2) <$> demo_tiles in
  discover_tiles int_of_decimal (Some names) ≡ₚ demo_tiles
  ∧ Sorted tile_le (discover_tiles int_of_decimal (Some names))
  ∧ scan_tile_files int_of_decimal "out/tiles" names
    = Some ((λ t, (t.1, t.2, path_join "out/tiles" (tile_file_name t.1 t.2)))
            <$> demo_tiles).
Proof.
  apply (tile_file_names_read_back int_of_decimal "out/tiles" demo_tiles).
  exact int_of_decimal_str.
Defined.

(** ** Elevation tiles: the elevation of a pixel *)

Lemma lor_low_bits a b n :
  0 ≤ n → 0 ≤ b < 2 ^ n → Z.lor (a * 2 ^ n) b = a * 2 ^ n + b.
Proof.
  intros Hn Hb.
  assert (Z.land (a * 2 ^ n) b = 0) as Hland.
  { apply Z.bits_inj'. intros i Hi.
    rewrite Z.land_spec, Z.bits_0.
    destruct (Z.lt_ge_cases i n) as [Hlt|Hge].
    - by rewrite Z.mul_pow2_bits_low.
    - destruct (Z.eq_dec b 0) as [->|Hb0].
      + by rewrite Z.bits_0, andb_false_r.
      + assert (Z.log2 b < i) as Hlog.
        { apply Z.log2_lt_pow2; [lia|].
          apply Z.lt_le_trans with (2 ^ n); [lia|].
          apply Z.pow_le_mono_r; lia. }
        rewrite (Z.bits_above_log2 b i) by lia.
        apply andb_false_r. }
  rewrite Z.add_nocarry_lxor by done. by rewrite Z.lxor_lor.
Qed.

Lemma rgb_bits r g b :
  is_byte r → is_byte g → is_byte b →
  Z.lor (Z.lor (Z.shiftl r 16) (Z.shiftl g 8)) b = 65536 * r + 256 * g + b.
Proof.
  unfold is_byte. intros Hr Hg Hb.
  rewrite !Z.shiftl_mul_pow2 by lia.
  rewrite (lor_low_bits r (g * 2 ^ 8) 16) by lia.
  replace (r * 2 ^ 16 + g * 2 ^ 8) with ((r * 2 ^ 8 + g) * 2 ^ 8) by lia.
  rewrite (lor_low_bits _ b 8) by lia. lia.
Qed.

(** X30. On three bytes, [rgb_to_elevation] reads [(r, g, b)] as a signed
    number of 24 bits: but for [(128, 0, 0)], which gives
    [NO_DATA_SENTINEL], it raises nothing and returns [x * 0.01] for the
    one [x] with [-2^23 < x < 2^23] that is congruent to
    [65536 * r + 256 * g + b] modulo [2^24]. *)
Theorem rgb_to_elevation_signed_24_bits :
  ∀ r g b : Z,
    is_byte r → is_byte g → is_byte b →
    if bool_decide ((r, g, b) = (128, 0, 0))
    then rgb_to_elevation r g b = Some NO_DATA_SENTINEL
    else ∃ x, - 2 ^ 23 < x < 2 ^ 23
              ∧ x `mod` 2 ^ 24 = 65536 * r + 256 * g + b
              ∧ rgb_to_elevation r g b = Some (Py.of_int x * 0.01)%float.
Proof.
  intros r g b Hr Hg Hb. unfold rgb_to_elevation.
  case_bool_decide as Hnd.
  - injection Hnd as -> -> ->. reflexivity.
  - assert ((r =? 128) && (g =? 0) && (b =? 0) = false) as ->.
    { apply not_true_is_false. rewrite !andb_true_iff, !Z.eqb_eq.
      intros [[-> ->] ->]. done. }
    rewrite (rgb_bits r g b Hr Hg Hb).
    set (raw := 65536 * r + 256 * g + b).
    assert (0 ≤ raw < 2 ^ 24 ∧ raw ≠ 2 ^ 23) as [Hraw Hne].
    { unfold raw, is_byte in *. split; [lia|].
      intros Heq. apply Hnd.
      assert (r = 128) as -> by lia. assert (g = 0) as -> by lia.
      assert (b = 0) as -> by lia. done. }
    clearbody raw.
    change (Z.shiftl 1 23) with (2 ^ 23). change (Z.shiftl 1 24) with (2 ^ 24).
    cbv zeta.
    destruct (Z.leb_spec (2 ^ 23) raw) as [Hhigh|Hlow].
    + exists (raw - 2 ^ 24). split; [lia|]. split.
      * rewrite <- (Z.mod_small raw (2 ^ 24)) at 2 by lia.
        replace (raw - 2 ^ 24) with (raw + (-1) * 2 ^ 24) by lia.
        by rewrite Z.mod_add.
      * unfold int_times_float.
        destruct (Z.ltb_spec (Z.abs (raw - 2 ^ 24)) (2 ^ 1024 - 2 ^ 970));
          [done|]. exfalso.
        assert (2 ^ 24 < 2 ^ 1024 - 2 ^ 970) by (vm_compute; done). lia.
    + exists raw. split; [lia|]. split; [apply Z.mod_small; lia|].
      unfold int_times_float.
      destruct (Z.ltb_spec (Z.abs raw) (2 ^ 1024 - 2 ^ 970)); [done|].
      exfalso.
      assert (2 ^ 24 < 2 ^ 1024 - 2 ^ 970) by (vm_compute; done). lia.
Qed.

Lemma rgb_to_elevation_signed_24_bits_witness :
  ∃ x, - 2 ^ 23 < x < 2 ^ 23
       ∧ x `mod` 2 ^ 24 = 65536 * 255 + 256 * 255 + 255
       ∧ rgb_to_elevation 255 255 255 = Some (Py.of_int x * 0.01)%float.
Proof.
  apply (rgb_to_elevation_signed_24_bits 255 255 255).
  - unfold is_byte; lia.
  - unfold is_byte; lia.
  - unfold is_byte; lia.
Defined.
